(** * Ralphy: the parallel execution engine and its process driver

    A shallow embedding of
      - engines/base.ts      (process driver, output classifier),
      - execution/parallel.ts (agent runtime, scheduler, merge pipeline),
      - execution/state.ts    (state registry),
    followed by the properties of the specification that these files
    decide.

    Conventions of the embedding.
      - A JavaScript string is the list of its UTF-16 code units.
      - [undefined] is [None] in an [option]; a thrown exception is
        [Thrown] in a [completion].
      - Calls that leave the process (git, the task source, the engine,
        the file system, tmux) are operations of an abstract world;
        they are total, and a call that would reject is outside the model. *)

From Stdlib Require Import ZArith NArith Bool String Ascii DecimalString DecimalN Lia.
From stdpp Require Import base option list gmap.

Local Open Scope N_scope.

(** ** JavaScript strings *)

Module JsString.

Abbreviation jsstring := (list N) (only parsing).

(** A string literal of the source; the literals of the embedded files
    are all ASCII, so that bytes and code units coincide. *)
Definition lit (s : string) : jsstring :=
  map N_of_ascii (list_ascii_of_string s).
#[global] Arguments lit : simpl never.

(** A literal written with apostrophes where the text has double
    quotes. *)
Definition quoted (s : string) : jsstring :=
  map (fun c => if c =? 39 then 34 else c) (lit s).

Definition in_range (lo hi c : N) : bool := (lo <=? c) && (c <=? hi).

Definition is_upper (c : N) : bool := in_range 65 90 c.
Definition is_lower (c : N) : bool := in_range 97 122 c.
Definition is_digit (c : N) : bool := in_range 48 57 c.
Definition is_ascii (c : N) : bool := c <? 128.

Definition lower_unit (c : N) : N := if is_upper c then c + 32 else c.

(** [String.prototype.toLowerCase].  On a string of ASCII code units
    the Unicode case conversion is the map of A-Z to a-z; on any other
    string it is the conversion table of the host, [unicodeLower],
    which is not part of the repository. *)
Definition toLowerCase (unicodeLower : jsstring -> jsstring) (s : jsstring)
  : jsstring :=
  if forallb is_ascii s then map lower_unit s else unicodeLower s.

(** WhiteSpace and LineTerminator of ECMAScript, as [trim] strips them. *)
Definition is_js_space (c : N) : bool :=
  in_range 9 13 c || (c =? 32) || (c =? 160) || (c =? 5760)
  || in_range 8192 8202 c || (c =? 8232) || (c =? 8233) || (c =? 8239)
  || (c =? 8287) || (c =? 12288) || (c =? 65279).

Fixpoint trimStart (s : jsstring) : jsstring :=
  match s with
  | c :: s' => if is_js_space c then trimStart s' else s
  | [] => []
  end.

Definition trimEnd (s : jsstring) : jsstring := rev (trimStart (rev s)).

Definition trim (s : jsstring) : jsstring := trimEnd (trimStart s).

Fixpoint startsWith (s p : jsstring) : bool :=
  match p, s with
  | [], _ => true
  | a :: p', b :: s' => (a =? b) && startsWith s' p'
  | _ :: _, [] => false
  end.

Fixpoint includes (s sub : jsstring) : bool :=
  startsWith s sub ||
  match s with
  | [] => false
  | _ :: s' => includes s' sub
  end.

(** [s.split(sep)] for a separator of one code unit. *)
Fixpoint split (sep : N) (s : jsstring) : list jsstring :=
  match s with
  | [] => [[]]
  | c :: s' =>
      if c =? sep then [] :: split sep s'
      else match split sep s' with
           | l :: ls => (c :: l) :: ls
           | [] => [[c]]
           end
  end.

Definition nonempty (s : jsstring) : bool :=
  match s with [] => false | _ :: _ => true end.

Definition eqb (a b : jsstring) : bool := bool_decide (a = b).

(** [s.replace(/[^a-zA-Z0-9-]/g, "-")]: the regular expression has no
    [u] flag, so it is matched against single code units. *)
Definition is_slug_unit (c : N) : bool :=
  is_lower c || is_upper c || is_digit c || (c =? 45).

Definition replace_non_slug (s : jsstring) : jsstring :=
  map (fun c => if is_slug_unit c then c else 45) s.

End JsString.

Import JsString.

(** ** JSON values and [JSON.parse] *)

Module Json.

(** A number keeps the literal it was read from, as the decimal
    [mant * 10 ^ exp10]. *)
#[warnings="-register-all"]
Inductive json : Type :=
| JNull
| JBool (b : bool)
| JNum (mant exp10 : Z)
| JStr (s : jsstring)
| JArr (items : list json)
| JObj (members : list (jsstring * json)).

Inductive token : Type :=
| TLBrace | TRBrace | TLBrack | TRBrack | TColon | TComma
| TStr (s : jsstring)
| TAtom (v : json).

(** *** Number literals *)

Fixpoint take_digits (s : jsstring) : jsstring * jsstring :=
  match s with
  | c :: s' =>
      if is_digit c
      then let '(ds, r) := take_digits s' in (c :: ds, r)
      else ([], s)
  | [] => ([], [])
  end.

Definition digits_value (ds : jsstring) : Z :=
  fold_left (fun a d => (10 * a + Z.of_N (d - 48))%Z) ds 0%Z.

Definition int_part_ok (ds : jsstring) : bool :=
  match ds with
  | [] => false
  | [_] => true
  | c :: _ => negb (c =? 48)
  end.

(** The JSON number grammar: an optional minus; an integer part that
    is a single 0 or starts with 1-9; an optional fraction of a dot and
    one or more digits; an optional exponent of e or E, an optional
    sign, and one or more digits. *)
Definition number_of_lexeme (s : jsstring) : option json :=
  let '(neg, s1) :=
    match s with
    | 45 :: r => (true, r)
    | _ => (false, s)
    end in
  let '(ip, s2) := take_digits s1 in
  if negb (int_part_ok ip) then None else
  fracp ← match s2 with
          | 46 :: r =>
              let '(fp, r') := take_digits r in
              if nonempty fp then Some (fp, r') else None
          | _ => Some ([], s2)
          end;
  let '(fp, s3) := fracp in
  e ← match s3 with
      | [] => Some 0%Z
      | c :: r =>
          if (c =? 101) || (c =? 69) then
            let '(eneg, r1) :=
              match r with
              | 45 :: r' => (true, r')
              | 43 :: r' => (false, r')
              | _ => (false, r)
              end in
            let '(ep, r2) := take_digits r1 in
            if nonempty ep && negb (nonempty r2)
            then Some (if eneg then - digits_value ep else digits_value ep)%Z
            else None
          else None
      end;
  let m := digits_value (ip ++ fp) in
  Some (JNum (if neg then - m else m)%Z (e - Z.of_nat (length fp))%Z).

Definition word_of_lexeme (s : jsstring) : option json :=
  if eqb s (lit "true") then Some (JBool true)
  else if eqb s (lit "false") then Some (JBool false)
  else if eqb s (lit "null") then Some JNull
  else None.

(** *** Lexer: one code unit at a time *)

Inductive lex_mode : Type :=
| LTop
| LStr (acc : jsstring)
| LEsc (acc : jsstring)
| LHex (acc : jsstring) (hex : list N)
| LNum (acc : jsstring)
| LWord (acc : jsstring).

Definition is_json_space (c : N) : bool :=
  (c =? 32) || (c =? 9) || (c =? 10) || (c =? 13).

Definition is_number_unit (c : N) : bool :=
  is_digit c || (c =? 45) || (c =? 43) || (c =? 46) || (c =? 101) || (c =? 69).

Definition unescape (c : N) : option N :=
  if c =? 34 then Some 34
  else if c =? 92 then Some 92
  else if c =? 47 then Some 47
  else if c =? 98 then Some 8
  else if c =? 102 then Some 12
  else if c =? 110 then Some 10
  else if c =? 114 then Some 13
  else if c =? 116 then Some 9
  else None.

Definition hex_val (c : N) : option N :=
  if is_digit c then Some (c - 48)
  else if in_range 97 102 c then Some (c - 87)
  else if in_range 65 70 c then Some (c - 55)
  else None.

Definition hex_value (hs : list N) : N :=
  fold_left (fun a d => 16 * a + d) hs 0.

(** What a code unit does when no token is open. *)
Definition start (c : N) : option (list token * lex_mode) :=
  if is_json_space c then Some ([], LTop)
  else if c =? 123 then Some ([TLBrace], LTop)
  else if c =? 125 then Some ([TRBrace], LTop)
  else if c =? 91 then Some ([TLBrack], LTop)
  else if c =? 93 then Some ([TRBrack], LTop)
  else if c =? 58 then Some ([TColon], LTop)
  else if c =? 44 then Some ([TComma], LTop)
  else if c =? 34 then Some ([], LStr [])
  else if is_digit c || (c =? 45) then Some ([], LNum [c])
  else if is_lower c then Some ([], LWord [c])
  else None.

Definition finish (m : lex_mode) : option (list token) :=
  match m with
  | LTop => Some []
  | LNum acc => v ← number_of_lexeme (rev acc); Some [TAtom v]
  | LWord acc => v ← word_of_lexeme (rev acc); Some [TAtom v]
  | LStr _ | LEsc _ | LHex _ _ => None
  end.

Fixpoint lex (m : lex_mode) (s : jsstring) : option (list token) :=
  match s with
  | [] => finish m
  | c :: s' =>
      match m with
      | LTop =>
          '(ts, m') ← start c; rest ← lex m' s'; Some (ts ++ rest)
      | LStr acc =>
          if c =? 34 then rest ← lex LTop s'; Some (TStr (rev acc) :: rest)
          else if c =? 92 then lex (LEsc acc) s'
          else if c <? 32 then None
          else lex (LStr (c :: acc)) s'
      | LEsc acc =>
          if c =? 117 then lex (LHex acc []) s'
          else d ← unescape c; lex (LStr (d :: acc)) s'
      | LHex acc hs =>
          d ← hex_val c;
          let hs' := hs ++ [d] in
          if (length hs' =? 4)%nat
          then lex (LStr (hex_value hs' :: acc)) s'
          else lex (LHex acc hs') s'
      | LNum acc =>
          if is_number_unit c then lex (LNum (c :: acc)) s'
          else
            v ← number_of_lexeme (rev acc);
            '(ts, m') ← start c;
            rest ← lex m' s';
            Some (TAtom v :: ts ++ rest)
      | LWord acc =>
          if is_lower c then lex (LWord (c :: acc)) s'
          else
            v ← word_of_lexeme (rev acc);
            '(ts, m') ← start c;
            rest ← lex m' s';
            Some (TAtom v :: ts ++ rest)
      end
  end.

(** *** Parser: a pushdown automaton over the tokens *)

Inductive frame : Type :=
| FArr (done : list json)
| FObj (done : list (jsstring * json)) (key : jsstring).

Inductive pmode : Type :=
| PValue
| PArrOpen
| PObjOpen
| PKey (done : list (jsstring * json))
| PColon (done : list (jsstring * json)) (key : jsstring)
| PDone (v : json).

Fixpoint parse (m : pmode) (stack : list frame) (ts : list token)
  : option json :=
  match ts with
  | [] =>
      match m, stack with
      | PDone v, [] => Some v
      | _, _ => None
      end
  | t :: ts' =>
      match m with
      | PValue | PArrOpen =>
          match t with
          | TAtom v => parse (PDone v) stack ts'
          | TStr s => parse (PDone (JStr s)) stack ts'
          | TLBrack => parse PArrOpen (FArr [] :: stack) ts'
          | TLBrace => parse PObjOpen stack ts'
          | TRBrack =>
              match m, stack with
              | PArrOpen, FArr _ :: st => parse (PDone (JArr [])) st ts'
              | _, _ => None
              end
          | _ => None
          end
      | PObjOpen =>
          match t with
          | TRBrace => parse (PDone (JObj [])) stack ts'
          | TStr k => parse (PColon [] k) stack ts'
          | _ => None
          end
      | PKey done =>
          match t with
          | TStr k => parse (PColon done k) stack ts'
          | _ => None
          end
      | PColon done k =>
          match t with
          | TColon => parse PValue (FObj done k :: stack) ts'
          | _ => None
          end
      | PDone v =>
          match t, stack with
          | TComma, FArr done :: st =>
              parse PValue (FArr (v :: done) :: st) ts'
          | TComma, FObj done k :: st =>
              parse (PKey ((k, v) :: done)) st ts'
          | TRBrack, FArr done :: st =>
              parse (PDone (JArr (rev (v :: done)))) st ts'
          | TRBrace, FObj done k :: st =>
              parse (PDone (JObj (rev ((k, v) :: done)))) st ts'
          | _, _ => None
          end
      end
  end.

(** [JSON.parse(s)]; [None] is the SyntaxError. *)
Definition JSON_parse (s : jsstring) : option json :=
  ts ← lex LTop s; parse PValue [] ts.

(** *** Reading a parsed value *)

(** The value of the last member named [k]: a repeated name keeps its
    last value. *)
Fixpoint lookup_member (k : jsstring) (ms : list (jsstring * json))
  : option json :=
  match ms with
  | [] => None
  | (k', v) :: ms' =>
      match lookup_member k ms' with
      | Some v' => Some v'
      | None => if eqb k' k then Some v else None
      end
  end.

(** [v.k] for a value [v] other than [null] and a name [k] that no
    built-in prototype defines (all the names the embedded code reads
    are such): the member of an object, [undefined] on anything else. *)
Definition member (v : json) (k : jsstring) : option json :=
  match v with
  | JObj ms => lookup_member k ms
  | _ => None
  end.

(** [v?.k] *)
Definition opt_member (v : option json) (k : jsstring) : option json :=
  match v with
  | None | Some JNull => None
  | Some o => member o k
  end.

(** A literal denotes zero as a Number when its digits are all zero or
    when it is so small that it rounds to zero, that is when its
    magnitude is at most 2^-1075. *)
Definition rounds_to_zero (mant exp10 : Z) : bool :=
  ((mant =? 0) ||
   ((exp10 <? 0) && (Z.abs mant * 2 ^ 1075 <=? 10 ^ (- exp10))))%Z.

(** ToBoolean *)
Definition truthy (v : option json) : bool :=
  match v with
  | None | Some JNull => false
  | Some (JBool b) => b
  | Some (JNum m e) => negb (rounds_to_zero m e)
  | Some (JStr s) => nonempty s
  | Some (JArr _) | Some (JObj _) => true
  end.

(** [v || d] with a default [d] that is a value *)
Definition or_else (v : option json) (d : json) : json :=
  match v with
  | Some x => if truthy v then x else d
  | None => d
  end.

(** [v === "k"] *)
Definition is_string (k : jsstring) (v : option json) : bool :=
  match v with
  | Some (JStr s) => eqb s k
  | _ => false
  end.

End Json.

Import Json.

(** ** engines/base.ts *)

(** The completion of an expression that may throw. *)
Inductive completion (A : Type) : Type :=
| Normal (a : A)
| Thrown.
Arguments Normal {A} a.
Arguments Thrown {A}.

#[global] Instance completion_ret : MRet completion := fun A a => Normal a.
#[global] Instance completion_bind : MBind completion :=
  fun A B f c => match c with Normal a => f a | Thrown => Thrown end.

(** A Number that is NaN or the Number of an integer: [Int n] stands
    for the double nearest to [n], which is [n] itself up to 2^53. *)
Inductive number : Type :=
| NaN
| Int (n : Z).

(** The arithmetic of Numbers that are integers. *)
Module Number.

(** The integer that the double nearest to an integer stands for:
    the integer itself up to 2^53 in size, and beyond that the nearest
    multiple of the power of two that leaves 53 bits, the even one of
    two that are as near.  Integers of 2^1024 and more, whose double is
    Infinity, are not followed. *)
Definition nearest (z : Z) : Z :=
  let m := Z.abs z in
  if (m <=? 2 ^ 53)%Z then z
  else
    let e := (Z.log2 m - 52)%Z in
    let q := Z.shiftr m e in
    let r := (m - Z.shiftl q e)%Z in
    let half := Z.shiftl 1 (e - 1) in
    let q' :=
      if (half <? r)%Z || ((half =? r)%Z && Z.odd q) then (q + 1)%Z else q in
    (Z.sgn z * Z.shiftl q' e)%Z.

(** [a + b] on Numbers. *)
Definition add (a b : Z) : Z := nearest (a + b).

End Number.

(** engines/types.ts *)
Module Types.

(** [AIResult]; the token counts are integers. *)
Record AIResult : Type := {
  success : bool;
  response : jsstring;
  inputTokens : Z;
  outputTokens : Z;
  cost : option jsstring;
  error : option jsstring
}.

(** [EngineOptions], without the progress callback. *)
Record EngineOptions : Type := {
  modelOverride : option jsstring;
  tmux : option bool;
  agentId : option jsstring;
  taskSlug : option jsstring
}.

End Types.

(** What the polling loop of [execTmuxCommand] observes in one round. *)
Record tick : Type := {
  (** the decoded bytes of the output file from a given offset on, with
      the size of the file: [None] when the file is absent, has not
      grown past the offset, or cannot be read *)
  readOutput : N -> option (N * jsstring);
  (** the contents of the exit file, when it exists *)
  exitFile : option jsstring;
  (** whether [tmux has-session] exits with status 0 *)
  hasSession : bool;
  (** whether the exit file exists when looked for again *)
  exitFileAfter : bool
}.

Record TmuxResult : Type := {
  exitCode : number;
  sessionName_of : jsstring;
  progress : list jsstring
}.

Module Base.

(** [{ response, inputTokens, outputTokens }] *)
Record StreamResult : Type := {
  response : json;
  inputTokens : json;
  outputTokens : json
}.

(** [parsed.k] for any parsed value: reading a member of [null] throws. *)
Definition get (parsed : json) (k : jsstring) : completion (option json) :=
  match parsed with
  | JNull => Thrown
  | _ => Normal (member parsed k)
  end.

(** [output.split("\n").filter(Boolean)] *)
Definition lines (output : jsstring) : list jsstring :=
  List.filter nonempty (split 10 output).

Definition taskCompleted : json := JStr (lit "Task completed").

(** The body of the loop of [parseStreamJsonResult].  Once
    [parsed.type] has been read, [parsed] is not [null] and the three
    assignments cannot throw. *)
Definition result_step (acc : StreamResult) (line : jsstring) : StreamResult :=
  match JSON_parse line with
  | None => acc
  | Some parsed =>
      match get parsed (lit "type") with
      | Thrown => acc
      | Normal ty =>
          if is_string (lit "result") ty then
            {| response := or_else (member parsed (lit "result")) taskCompleted;
               inputTokens :=
                 or_else (opt_member (member parsed (lit "usage"))
                            (lit "input_tokens")) (JNum 0 0);
               outputTokens :=
                 or_else (opt_member (member parsed (lit "usage"))
                            (lit "output_tokens")) (JNum 0 0) |}
          else acc
      end
  end.

Definition parseStreamJsonResult (output : jsstring) : StreamResult :=
  let acc :=
    fold_left result_step (lines output)
      {| response := JStr []; inputTokens := JNum 0 0; outputTokens := JNum 0 0 |} in
  {| response := or_else (Some (response acc)) taskCompleted;
     inputTokens := inputTokens acc;
     outputTokens := outputTokens acc |}.

(** The body of the loop of [checkForErrors]: [Some] is the [return]. *)
Definition error_step (line : jsstring) : option json :=
  match JSON_parse line with
  | None => None
  | Some parsed =>
      match get parsed (lit "type") with
      | Thrown => None
      | Normal ty =>
          if is_string (lit "error") ty then
            Some (or_else (opt_member (member parsed (lit "error")) (lit "message"))
                    (or_else (member parsed (lit "message"))
                       (JStr (lit "Unknown error"))))
          else None
      end
  end.

Fixpoint checkForErrors_loop (ls : list jsstring) : option json :=
  match ls with
  | [] => None
  | line :: ls' =>
      match error_step line with
      | Some msg => Some msg
      | None => checkForErrors_loop ls'
      end
  end.

Definition checkForErrors (output : jsstring) : option json :=
  checkForErrors_loop (lines output).

(** [Number.parseInt(s, 10)]: leading white space, a sign, then the
    longest run of decimal digits. *)
Definition parseInt10 (s : jsstring) : number :=
  let s0 := trimStart s in
  let '(neg, r) :=
    match s0 with
    | 45 :: r => (true, r)
    | 43 :: r => (false, r)
    | _ => (false, s0)
    end in
  let '(ds, _) := take_digits r in
  if nonempty ds
  then Int (if neg then - digits_value ds else digits_value ds)%Z
  else NaN.

(** One round of the polling loop, from the test of the exit file on:
    [Some] is the exit code at the [break], [None] goes on to sleep. *)
Definition poll_exit (t : tick) : option number :=
  match exitFile t with
  | Some raw =>
      let content := trim raw in
      if nonempty content then Some (parseInt10 content)
      else if negb (hasSession t) && negb (exitFileAfter t)
           then Some (Int 1) else None
  | None =>
      if negb (hasSession t) && negb (exitFileAfter t)
      then Some (Int 1) else None
  end.

(** The lines of newly read output that reach [onProgress]. *)
Definition progress_lines (newContent : jsstring) : list jsstring :=
  List.filter (fun line => nonempty (trim line)) (split 10 newContent).

(** The polling loop over the rounds it lives through; [None] when the
    rounds given end before the loop does. *)
Fixpoint poll (lastReadOffset : N) (seen : list jsstring) (rounds : list tick)
  : option (number * list jsstring) :=
  match rounds with
  | [] => None
  | t :: rounds' =>
      let '(offset, seen') :=
        match readOutput t lastReadOffset with
        | Some (size, newContent) => (size, seen ++ progress_lines newContent)
        | None => (lastReadOffset, seen)
        end in
      match poll_exit t with
      | Some code => Some (code, seen')
      | None => poll offset seen' rounds'
      end
  end.

Section Host.

(** The case conversion of the host outside ASCII. *)
Variable unicodeLower : jsstring -> jsstring.

(** The session name of [execTmuxCommand]. *)
Definition sessionName (agentId taskSlug : jsstring) : jsstring :=
  toLowerCase unicodeLower
    (replace_non_slug (lit "ralphy-" ++ agentId ++ lit "-" ++ taskSlug)).

Definition execTmuxCommand (agentId taskSlug : jsstring) (rounds : list tick)
  : option TmuxResult :=
  '(code, seen) ← poll 0 [] rounds;
  Some {| exitCode := code;
          sessionName_of := sessionName agentId taskSlug;
          progress := seen |}.

(** The guard of [execCommand]: the arguments [execTmuxCommand] is
    called with, or [None] when the command is spawned directly. *)
Definition tmuxRequest (options : option Types.EngineOptions)
  : option (jsstring * jsstring) :=
  match options with
  | Some o =>
      match Types.tmux o, Types.agentId o, Types.taskSlug o with
      | Some true, Some (a :: i), Some (c :: s) => Some (a :: i, c :: s)
      | _, _, _ => None
      end
  | None => None
  end.

(** The session [execCommand] runs the command in, if any. *)
Definition execCommand_session (options : option Types.EngineOptions)
  : option jsstring :=
  '(i, s) ← tmuxRequest options; Some (sessionName i s).

Definition isTestFile (filePath : jsstring) : bool :=
  let lower := toLowerCase unicodeLower filePath in
  includes lower (lit ".test.")
  || includes lower (lit ".spec.")
  || includes lower (lit "__tests__")
  || includes lower (lit "_test.go").

(** [v?.toLowerCase()]: a value that is neither a string nor nullish
    has no such method, and the call throws. *)
Definition optLowerCase (v : option json) : completion (option jsstring) :=
  match v with
  | None | Some JNull => Normal None
  | Some (JStr s) => Normal (Some (toLowerCase unicodeLower s))
  | Some _ => Thrown
  end.

(** [(v).toLowerCase()] *)
Definition lowerCase (v : json) : completion jsstring :=
  match v with
  | JStr s => Normal (toLowerCase unicodeLower s)
  | _ => Thrown
  end.

(** [s || rest] for a string or [undefined] [s] *)
Definition str_or (s : option jsstring) (rest : completion jsstring)
  : completion jsstring :=
  match s with
  | Some (c :: s') => Normal (c :: s')
  | Some [] | None => rest
  end.

(** The fields the classifier looks at. *)
Record fields : Type := {
  toolName : jsstring;
  command : jsstring;
  filePath : jsstring;
  description : jsstring
}.

Definition extract (parsed : json) : completion fields :=
  tool ← get parsed (lit "tool");
  t ← optLowerCase tool;
  toolName ← str_or t (
    name ← get parsed (lit "name");
    n ← optLowerCase name;
    str_or n (
      tool_name ← get parsed (lit "tool_name");
      tn ← optLowerCase tool_name;
      str_or tn (Normal [])));
  cmd ← get parsed (lit "command");
  c ← optLowerCase cmd;
  command ← str_or c (Normal []);
  file_path ← get parsed (lit "file_path");
  filePath0 ← get parsed (lit "filePath");
  path ← get parsed (lit "path");
  filePath ← lowerCase (or_else file_path (or_else filePath0 (or_else path (JStr []))));
  desc ← get parsed (lit "description");
  description ← lowerCase (or_else desc (JStr []));
  Normal {| toolName := toolName; command := command;
            filePath := filePath; description := description |}.

Definition classify (f : fields) : option jsstring :=
  let isReadOperation :=
    eqb (toolName f) (lit "read") || eqb (toolName f) (lit "glob")
    || eqb (toolName f) (lit "grep") in
  let isWriteOperation :=
    eqb (toolName f) (lit "write") || eqb (toolName f) (lit "edit") in
  if isReadOperation then Some (lit "Reading code")
  else if includes (command f) (lit "git commit")
          || includes (description f) (lit "git commit")
  then Some (lit "Committing")
  else if includes (command f) (lit "git add")
          || includes (description f) (lit "git add")
  then Some (lit "Staging")
  else if includes (command f) (lit "lint")
          || includes (command f) (lit "eslint")
          || includes (command f) (lit "biome")
          || includes (command f) (lit "prettier")
  then Some (lit "Linting")
  else if includes (command f) (lit "vitest")
          || includes (command f) (lit "jest")
          || includes (command f) (lit "bun test")
          || includes (command f) (lit "npm test")
          || includes (command f) (lit "pytest")
          || includes (command f) (lit "go test")
  then Some (lit "Testing")
  else if isWriteOperation && isTestFile (filePath f)
  then Some (lit "Writing tests")
  else if isWriteOperation then Some (lit "Implementing")
  else None.

Definition detectStepFromOutput (line : jsstring) : option jsstring :=
  let trimmed := trim line in
  if negb (startsWith trimmed (lit "{")) then None
  else
    match JSON_parse trimmed with
    | None => None
    | Some parsed =>
        match extract parsed with
        | Thrown => None
        | Normal f => classify f
        end
    end.

End Host.

End Base.

(** ** execution/state.ts *)

Module State.

(** The value of a property of an agent record.  The records hold
    strings; a patch may also name a property and give it the value
    [undefined]. *)
Inductive value : Type :=
| VUndefined
| VString (s : jsstring).

#[global] Instance value_eq_dec : EqDecision value.
Proof. solve_decision. Defined.

(** An [AgentState], or a [Partial<AgentState>], as the map of its own
    properties. *)
Abbreviation object := (gmap (list N) value) (only parsing).

Record Summary : Type := {
  total : Z;
  completed : Z;
  failed : Z;
  inProgress : Z
}.

(** [Partial<RalphyState["summary"]>] *)
Record SummaryUpdates : Type := {
  new_total : option Z;
  new_completed : option Z;
  new_failed : option Z;
  new_inProgress : option Z
}.

(** [RalphyState].  [agents] holds the own properties of the object
    [currentState.agents], whose prototype is [Object.prototype]. *)
Record RalphyState : Type := {
  agents : gmap (list N) (gmap (list N) value);
  summary : Summary;
  lastUpdate : jsstring
}.

(** The wall clock and the state file, which are the host's. *)
Class Host (W : Type) : Type := {
  (** [new Date().toISOString()] *)
  now : W -> jsstring * W;
  (** the body of [saveState]: the document is written to the state
      path of the working directory, and a failure is ignored *)
  writeState : jsstring -> RalphyState -> W -> W
}.

Definition noUpdates : SummaryUpdates :=
  {| new_total := None; new_completed := None;
     new_failed := None; new_inProgress := None |}.

Definition spread_summary (s : Summary) (u : SummaryUpdates) : Summary :=
  {| total := default (total s) (new_total u);
     completed := default (completed s) (new_completed u);
     failed := default (failed s) (new_failed u);
     inProgress := default (inProgress s) (new_inProgress u) |}.

(** The record a first update creates. *)
Definition newAgent (agentId now : jsstring) : gmap (list N) value :=
  <[lit "id" := VString agentId]>
    (<[lit "task" := VString []]>
       (<[lit "status" := VString (lit "pending")]>
          (<[lit "step" := VString (lit "Initializing")]>
             (<[lit "lastUpdate" := VString now]> ∅)))).

(** The names of the properties of [Object.prototype].  An object
    that has no property of its own under one of them inherits that
    of the prototype: a function, or, for [__proto__], the prototype
    itself; each is truthy and has no enumerable property of its
    own. *)
Definition inheritedNames : list string :=
  [ "constructor"; "hasOwnProperty"; "isPrototypeOf"; "propertyIsEnumerable";
    "toLocaleString"; "toString"; "valueOf"; "__defineGetter__";
    "__defineSetter__"; "__lookupGetter__"; "__lookupSetter__";
    "__proto__" ]%string.

Definition inheritedName (k : jsstring) : bool :=
  existsb (fun n => eqb k (lit n)) inheritedNames.

(** The assignments of [updateState] to [currentState], for the time
    [now] read at its start.  [agents[agentId]] is the own property
    of that name or, without one, what [agents] inherits under the
    name: the test of line 62 finds nothing, and the default record
    is created, only when there is neither.  In
    [{...a, ...updates, lastUpdate}] a later property wins, and an
    inherited function gives no property.  The assignment of line 72
    makes an own property; under the one name [__proto__] it would
    instead put the record in place of the prototype of [agents],
    which the embedding does not follow: it is faithful for every
    other name. *)
Definition updateDocument (agentId : jsstring) (updates : gmap (list N) value)
    (now : jsstring) (st : RalphyState) : RalphyState :=
  let agents1 :=
    match agents st !! agentId with
    | Some _ => agents st
    | None =>
        if inheritedName agentId then agents st
        else <[agentId := newAgent agentId now]> (agents st)
    end in
  let current := default ∅ (agents1 !! agentId) in
  {| agents :=
       <[agentId := <[lit "lastUpdate" := VString now]> (updates ∪ current)]> agents1;
     summary := summary st;
     lastUpdate := now |}.

Section Registry.

Context {W : Type} `{!Host W}.

Definition saveState (workDir : jsstring) (st : RalphyState) (w : W) : W :=
  writeState workDir st w.

Definition updateSummary (updates : SummaryUpdates) (workDir : jsstring)
    (sw : RalphyState * W) : RalphyState * W :=
  let '(st, w) := sw in
  let '(t, w1) := now w in
  let st' := {| agents := agents st;
                summary := spread_summary (summary st) updates;
                lastUpdate := t |} in
  (st', saveState workDir st' w1).

Definition updateState (agentId : jsstring) (updates : gmap (list N) value)
    (workDir : jsstring) (sw : RalphyState * W) : RalphyState * W :=
  let '(st, w) := sw in
  let '(t, w1) := now w in
  let st' := updateDocument agentId updates t st in
  (st', saveState workDir st' w1).

Definition removeAgentFromState (agentId workDir : jsstring)
    (sw : RalphyState * W) : RalphyState * W :=
  let '(st, w) := sw in
  let '(t, w1) := now w in
  let st' := {| agents := delete agentId (agents st);
                summary := summary st;
                lastUpdate := t |} in
  (st', saveState workDir st' w1).

End Registry.

End State.

(** ** The collaborators of the scheduler *)

(** A call that returns or rejects with an error. *)
Inductive outcome (A : Type) : Type :=
| Returns (a : A)
| Rejects (message : jsstring).
Arguments Returns {A} a.
Arguments Rejects {A} message.

(** tasks/types.ts *)
Module Tasks.

Record Task : Type := {
  id : jsstring;
  title : jsstring
}.

Class TaskSource (W : Type) : Type := {
  (** [taskSource instanceof YamlTaskSource] *)
  isYamlTaskSource : bool;
  getNextTask : W -> option Task * W;
  getAllTasks : W -> list Task * W;
  getParallelGroup : jsstring -> W -> Z * W;
  getTasksInGroup : Z -> W -> list Task * W;
  markComplete : jsstring -> W -> W;
  countRemaining : W -> Z * W
}.

End Tasks.

(** git/branch.ts, git/merge.ts, git/worktree.ts *)
Module Git.

Record MergeResult : Type := {
  success : bool;
  hasConflicts : bool;
  conflictedFiles : option (list jsstring);
  error : option jsstring
}.

Record Worktree : Type := {
  worktreeDir : jsstring;
  branchName : jsstring
}.

Class Repository (W : Type) : Type := {
  getCurrentBranch : jsstring -> W -> jsstring * W;
  returnToBaseBranch : jsstring -> jsstring -> W -> W;
  mergeAgentBranch : jsstring -> jsstring -> jsstring -> W -> MergeResult * W;
  abortMerge : jsstring -> W -> W;
  deleteLocalBranch : jsstring -> jsstring -> bool -> W -> bool * W;
  getWorktreeBase : jsstring -> W -> jsstring;
  createAgentWorktree :
    jsstring -> N -> jsstring -> jsstring -> jsstring -> W -> outcome Worktree * W;
  (** the [leftInPlace] of the answer *)
  cleanupAgentWorktree : jsstring -> jsstring -> jsstring -> W -> bool * W
}.

End Git.

(** The engine with what execution/parallel.ts wraps around it. *)
Module Engine.

Class AIEngine (W : Type) : Type := {
  (** [buildParallelPrompt] of execution/prompt.ts, for a task title
      and the flags skipTests, skipLint and browserEnabled *)
  buildParallelPrompt : jsstring -> bool -> bool -> jsstring -> jsstring;
  (** lines 75 to 102 of [runAgentInWorktree]: the copy of the
      requirements into the worktree and the creation of its metadata
      directory, for originalDir, worktreeDir, prdSource, prdFile and
      prdIsFolder *)
  prepareWorktree :
    jsstring -> jsstring -> jsstring -> jsstring -> bool -> W -> outcome unit * W;
  (** [withRetry(() => engine.execute(prompt, worktreeDir, options))]
      for maxRetries and retryDelay: the lines that reached
      [options.onProgress], in order, and the result *)
  executeWithRetry :
    jsstring -> jsstring -> Types.EngineOptions -> Z -> Z -> W ->
    (list jsstring * outcome Types.AIResult) * W;
  (** [resolveConflictsWithAI] of execution/conflict-resolution.ts, for
      the conflicted files, the branch, workDir and modelOverride *)
  resolveConflictsWithAI :
    list jsstring -> jsstring -> jsstring -> option jsstring -> W -> bool * W
}.

End Engine.

(** ** execution/parallel.ts *)

Module Parallel.

Import Tasks.

Record ParallelAgentResult : Type := {
  task : Task;
  worktreeDir : jsstring;
  branchName : jsstring;
  result : option Types.AIResult;
  error : option jsstring
}.

(** [ExecutionResult] of execution/sequential.ts *)
Record ExecutionResult : Type := {
  tasksCompleted : Z;
  tasksFailed : Z;
  totalInputTokens : Z;
  totalOutputTokens : Z
}.

(** The options of [runParallel] that the embedding reads. *)
Record Options : Type := {
  workDir : jsstring;
  skipTests : bool;
  skipLint : bool;
  dryRun : bool;
  maxIterations : Z;
  maxRetries : Z;
  retryDelay : Z;
  baseBranch : jsstring;
  maxParallel : Z;
  prdSource : jsstring;
  prdFile : jsstring;
  prdIsFolder : bool;
  browserEnabled : jsstring;
  modelOverride : option jsstring;
  skipMerge : bool;
  tmux : bool
}.

(** What the scheduler and the merge pipeline do that can be seen from
    outside, in the order in which they do it. *)
Inductive event : Type :=
| ReachedMaxIterations (n : Z)
| PendingButFailedBefore (n : nat)
| AllTasksCompleted
| Batch (iteration : Z) (batch : list Task)
| DryRunSkip
| TaskFailed (t : Task) (message : jsstring)
| TaskCompleted (t : Task)
| Preserved (worktreeDir : jsstring)
| Cleanup (worktreeDir branchName : jsstring)
| LeftInPlace (worktreeDir : jsstring)
| MergePhase (branches : list jsstring) (targetBranch : jsstring)
| Merged (branch : jsstring)
| Conflict (branch : jsstring)
| Resolved (branch : jsstring)
| ResolveFailed (branch : jsstring)
| AbortMerge
| MergeFailed (branch message : jsstring)
| DeleteBranch (branch : jsstring) (force : bool)
| MergeSummary (merged failed : list jsstring)
| RestoreStartingBranch (branch : jsstring).

(** [n.toString()] for an agent number *)
Definition toString (n : N) : jsstring :=
  lit (DecimalString.NilZero.string_of_uint (N.to_uint n)).

(** [s || d] on strings *)
Definition str_else (s : option jsstring) (d : jsstring) : jsstring :=
  match s with
  | Some (c :: s') => c :: s'
  | Some [] | None => d
  end.

Definition str_truthy (s : option jsstring) : bool :=
  match s with
  | Some (_ :: _) => true
  | Some [] | None => false
  end.

(** [aiResult?.success] as a condition *)
Definition succeeded (r : option Types.AIResult) : bool :=
  match r with
  | Some a => Types.success a
  | None => false
  end.

(** [tasks.slice(0, n)] *)
Definition slice0 {A : Type} (l : list A) (n : Z) : list A :=
  if (n <? 0)%Z
  then take (Z.to_nat (Z.of_nat (length l) + n)) l
  else take (Z.to_nat n) l.

Definition VStr (s : string) : State.value := State.VString (lit s).

(** [l.length > 0] *)
Definition nonempty_list {A : Type} (l : list A) : bool :=
  match l with [] => false | _ :: _ => true end.

Section Scheduler.

Context {W : Type}.
Context `{!State.Host W, !TaskSource W, !Git.Repository W, !Engine.AIEngine W}.

(** The case conversion of the host outside ASCII. *)
Variable unicodeLower : jsstring -> jsstring.

(** The variables of [runParallel], the registry of state.ts, the
    world, and the events so far. *)
Record Run : Type := {
  world : W;
  registry : State.RalphyState;
  completedBranches : list jsstring;
  globalAgentNum : N;
  failedTaskIds : gset (list N);
  iteration : Z;
  totals : ExecutionResult;
  trace : list event
}.

Definition emit (e : event) (s : Run) : Run :=
  {| world := world s; registry := registry s;
     completedBranches := completedBranches s;
     globalAgentNum := globalAgentNum s;
     failedTaskIds := failedTaskIds s; iteration := iteration s;
     totals := totals s; trace := trace s ++ [e] |}.

Definition with_world (w : W) (s : Run) : Run :=
  {| world := w; registry := registry s;
     completedBranches := completedBranches s;
     globalAgentNum := globalAgentNum s;
     failedTaskIds := failedTaskIds s; iteration := iteration s;
     totals := totals s; trace := trace s |}.

Definition with_env (rw : State.RalphyState * W) (s : Run) : Run :=
  {| world := rw.2; registry := rw.1;
     completedBranches := completedBranches s;
     globalAgentNum := globalAgentNum s;
     failedTaskIds := failedTaskIds s; iteration := iteration s;
     totals := totals s; trace := trace s |}.

Definition with_totals (t : ExecutionResult) (s : Run) : Run :=
  {| world := world s; registry := registry s;
     completedBranches := completedBranches s;
     globalAgentNum := globalAgentNum s;
     failedTaskIds := failedTaskIds s; iteration := iteration s;
     totals := t; trace := trace s |}.

Definition add_failed (taskId : jsstring) (s : Run) : Run :=
  {| world := world s; registry := registry s;
     completedBranches := completedBranches s;
     globalAgentNum := globalAgentNum s;
     failedTaskIds := {[taskId]} ∪ failedTaskIds s; iteration := iteration s;
     totals := totals s; trace := trace s |}.

Definition push_branch (b : jsstring) (s : Run) : Run :=
  {| world := world s; registry := registry s;
     completedBranches := completedBranches s ++ [b];
     globalAgentNum := globalAgentNum s;
     failedTaskIds := failedTaskIds s; iteration := iteration s;
     totals := totals s; trace := trace s |}.

Definition next_agent (s : Run) : Run :=
  {| world := world s; registry := registry s;
     completedBranches := completedBranches s;
     globalAgentNum := globalAgentNum s + 1;
     failedTaskIds := failedTaskIds s; iteration := iteration s;
     totals := totals s; trace := trace s |}.

Definition next_iteration (s : Run) : Run :=
  {| world := world s; registry := registry s;
     completedBranches := completedBranches s;
     globalAgentNum := globalAgentNum s;
     failedTaskIds := failedTaskIds s; iteration := (iteration s + 1)%Z;
     totals := totals s; trace := trace s |}.

Definition env (s : Run) : State.RalphyState * W := (registry s, world s).

(** *** The agent runtime *)

Definition taskSlug_of (title : jsstring) : jsstring :=
  toLowerCase unicodeLower (replace_non_slug title).

Definition engineOptions (o : Options) (agentNum : N) (t : Task)
  : Types.EngineOptions :=
  {| Types.modelOverride := modelOverride o;
     Types.tmux := Some (tmux o);
     Types.agentId := Some (toString agentNum);
     Types.taskSlug := Some (taskSlug_of (title t)) |}.

(** The session name of [runAgentInWorktree], line 129. *)
Definition runtimeSessionName (agentNum : N) (t : Task) : jsstring :=
  toLowerCase unicodeLower
    (replace_non_slug
       (lit "ralphy-" ++ toString agentNum ++ lit "-" ++ taskSlug_of (title t))).

(** The [onProgress] of the engine options. *)
Definition onProgress (o : Options) (agentId : jsstring)
    (rw : State.RalphyState * W) (line : jsstring) : State.RalphyState * W :=
  match Base.detectStepFromOutput unicodeLower line with
  | Some (c :: step) =>
      State.updateState agentId {[ lit "step" := State.VString (c :: step) ]}
        (workDir o) rw
  | Some [] | None => rw
  end.

Definition error_value (e : option jsstring) : State.value :=
  match e with
  | Some m => State.VString m
  | None => State.VUndefined
  end.

(** The [catch] of [runAgentInWorktree]. *)
Definition agentCaught (o : Options) (t : Task) (agentId dir branch msg : jsstring)
    (rw : State.RalphyState * W) : ParallelAgentResult * (State.RalphyState * W) :=
  ({| task := t; worktreeDir := dir; branchName := branch;
      result := None; error := Some msg |},
   State.updateState agentId
     (<[lit "status" := VStr "failed"]>
        (<[lit "step" := VStr "Error"]>
           {[ lit "error" := State.VString msg ]}))
     (workDir o) rw).

Definition runAgentInWorktree (o : Options) (t : Task) (agentNum : N)
    (worktreeBase : jsstring) (rw0 : State.RalphyState * W)
  : ParallelAgentResult * (State.RalphyState * W) :=
  let agentId := toString agentNum in
  let rw1 :=
    State.updateState agentId
      (<[lit "task" := State.VString (title t)]>
         (<[lit "status" := VStr "pending"]>
            {[ lit "step" := VStr "Creating worktree" ]}))
      (workDir o) rw0 in
  match Git.createAgentWorktree (title t) agentNum (baseBranch o) worktreeBase
          (workDir o) rw1.2 with
  | (Rejects msg, w2) => agentCaught o t agentId [] [] msg (rw1.1, w2)
  | (Returns wt, w2) =>
      let dir := Git.worktreeDir wt in
      let branch := Git.branchName wt in
      let rw3 :=
        State.updateState agentId
          (<[lit "worktreeDir" := State.VString dir]>
             (<[lit "branchName" := State.VString branch]>
                {[ lit "step" := VStr "Preparing worktree" ]}))
          (workDir o) (rw1.1, w2) in
      match Engine.prepareWorktree (workDir o) dir (prdSource o) (prdFile o)
              (prdIsFolder o) rw3.2 with
      | (Rejects msg, w4) => agentCaught o t agentId dir branch msg (rw3.1, w4)
      | (Returns _, w4) =>
          let prompt :=
            Engine.buildParallelPrompt (W := W) (title t) (skipTests o)
              (skipLint o) (browserEnabled o) in
          let rw5 :=
            if tmux o then
              State.updateState agentId
                (<[lit "tmuxSession" := State.VString (runtimeSessionName agentNum t)]>
                   (<[lit "status" := VStr "running"]>
                      {[ lit "step" := VStr "Executing (tmux)" ]}))
                (workDir o) (rw3.1, w4)
            else
              State.updateState agentId
                (<[lit "status" := VStr "running"]>
                   {[ lit "step" := VStr "Executing" ]})
                (workDir o) (rw3.1, w4) in
          match Engine.executeWithRetry prompt dir (engineOptions o agentNum t)
                  (maxRetries o) (retryDelay o) rw5.2 with
          | ((shown, answer), w6) =>
              let rw7 := fold_left (onProgress o agentId) shown (rw5.1, w6) in
              match answer with
              | Rejects msg => agentCaught o t agentId dir branch msg rw7
              | Returns res =>
                  ({| task := t; worktreeDir := dir; branchName := branch;
                      result := Some res; error := None |},
                   if Types.success res then
                     State.updateState agentId
                       (<[lit "status" := VStr "completed"]>
                          {[ lit "step" := VStr "Finished" ]})
                       (workDir o) rw7
                   else
                     State.updateState agentId
                       (<[lit "status" := VStr "failed"]>
                          (<[lit "step" := VStr "Failed"]>
                             {[ lit "error" := error_value (Types.error res) ]}))
                       (workDir o) rw7)
              end
          end
      end
  end.

(** *** The scheduler: one agent result *)

Definition summarise (u : State.SummaryUpdates) (o : Options) (s : Run) : Run :=
  with_env (State.updateSummary u (workDir o) (env s)) s.

(** Either failure branch of the result loop, for its message. *)
Definition recordFailure (o : Options) (t : Task) (msg : jsstring) (s : Run) : Run :=
  let s1 := emit (TaskFailed t msg) s in
  let r := totals s1 in
  let s2 :=
    with_totals
      {| tasksCompleted := tasksCompleted r;
         tasksFailed := (tasksFailed r + 1)%Z;
         totalInputTokens := totalInputTokens r;
         totalOutputTokens := totalOutputTokens r |} s1 in
  let s3 := add_failed (id t) s2 in
  summarise
    {| State.new_total := None; State.new_completed := None;
       State.new_failed := Some (tasksFailed (totals s3));
       State.new_inProgress := None |} o s3.

(** The branch of the result loop for a completed task.  The token
    totals are sums of Numbers; the counters count tasks one by one
    from zero and are exact. *)
Definition recordSuccess (o : Options) (r : ParallelAgentResult)
    (a : Types.AIResult) (s : Run) : Run :=
  let s1 := emit (TaskCompleted (task r)) s in
  let c := totals s1 in
  let s2 := with_world (markComplete (id (task r)) (world s1)) s1 in
  let s3 :=
    with_totals
      {| tasksCompleted := (tasksCompleted c + 1)%Z;
         tasksFailed := tasksFailed c;
         totalInputTokens := Number.add (totalInputTokens c) (Types.inputTokens a);
         totalOutputTokens :=
           Number.add (totalOutputTokens c) (Types.outputTokens a) |} s2 in
  let s4 :=
    summarise
      {| State.new_total := None;
         State.new_completed := Some (tasksCompleted (totals s3));
         State.new_failed := None; State.new_inProgress := None |} o s3 in
  if nonempty (branchName r) then push_branch (branchName r) s4 else s4.

Definition recordOutcome (o : Options) (r : ParallelAgentResult) (s : Run) : Run :=
  match error r with
  | Some (c :: msg) => recordFailure o (task r) (c :: msg) s
  | Some [] | None =>
      match result r with
      | Some a =>
          if Types.success a then recordSuccess o r a s
          else recordFailure o (task r)
                 (str_else (Types.error a) (lit "Unknown error")) s
      | None => recordFailure o (task r) (lit "Unknown error") s
      end
  end.

(** [error || !aiResult?.success] *)
Definition agentFailed (r : ParallelAgentResult) : bool :=
  str_truthy (error r) || negb (succeeded (result r)).

(** Lines 339 to 352. *)
Definition cleanupWorktree (o : Options) (r : ParallelAgentResult) (s : Run) : Run :=
  if nonempty (worktreeDir r) then
    if tmux o && agentFailed r then emit (Preserved (worktreeDir r)) s
    else
      let '(leftInPlace, w) :=
        Git.cleanupAgentWorktree (worktreeDir r) (branchName r) (workDir o)
          (world s) in
      let s1 := with_world w (emit (Cleanup (worktreeDir r) (branchName r)) s) in
      if leftInPlace then emit (LeftInPlace (worktreeDir r)) s1 else s1
  else s.

Definition processResult (o : Options) (s : Run) (r : ParallelAgentResult) : Run :=
  cleanupWorktree o r (recordOutcome o r s).

(** *** The scheduler: one batch *)

(** The agents of a batch, numbered in the order of launch; their
    results come back in that order.  The agents run concurrently:
    the model runs them one after the other, which fixes one
    interleaving of what they do to the world and to the registry. *)
Fixpoint launch (o : Options) (worktreeBase : jsstring) (batch : list Task)
    (s : Run) : list ParallelAgentResult * Run :=
  match batch with
  | [] => ([], s)
  | t :: rest =>
      let s1 := next_agent s in
      let '(r, rw) :=
        runAgentInWorktree o t (globalAgentNum s1) worktreeBase (env s1) in
      let '(rs, s2) := launch o worktreeBase rest (with_env rw s1) in
      (r :: rs, s2)
  end.

(** The tasks the source offers; [None] is the [break] on an
    exhausted YAML source. *)
Definition offeredTasks (w : W) : option (list Task) * W :=
  if isYamlTaskSource (W := W) then
    match getNextTask w with
    | (None, w1) => (None, w1)
    | (Some nextTask, w1) =>
        let '(group, w2) := getParallelGroup (title nextTask) w1 in
        if (0 <? group)%Z
        then let '(ts, w3) := getTasksInGroup group w2 in (Some ts, w3)
        else (Some [nextTask], w2)
    end
  else
    let '(ts, w1) := getAllTasks w in (Some ts, w1).

Definition notFailed (s : Run) (t : Task) : bool :=
  bool_decide (id t ∉ failedTaskIds s).

(** One turn of the [while (true)]; the flag tells whether the loop
    goes on. *)
Definition batchStep (o : Options) (worktreeBase : jsstring) (s : Run)
  : bool * Run :=
  if (0 <? maxIterations o)%Z && (maxIterations o <=? iteration s)%Z
  then (false, emit (ReachedMaxIterations (maxIterations o)) s)
  else
    match offeredTasks (world s) with
    | (None, w1) => (false, with_world w1 s)
    | (Some allTasks, w1) =>
        let s1 := with_world w1 s in
        let tasks := List.filter (notFailed s1) allTasks in
        match tasks with
        | [] =>
            (false,
             emit (match allTasks with
                   | _ :: _ => PendingButFailedBefore (length allTasks)
                   | [] => AllTasksCompleted
                   end) s1)
        | _ :: _ =>
            let s2 :=
              if (iteration s1 =? 0)%Z then
                let '(allTasksCount, w2) := countRemaining (world s1) in
                summarise
                  {| State.new_total := Some allTasksCount;
                     State.new_completed := None; State.new_failed := None;
                     State.new_inProgress := None |} o (with_world w2 s1)
              else s1 in
            let batch := slice0 tasks (maxParallel o) in
            let s3 := emit (Batch (iteration s2 + 1) batch) (next_iteration s2) in
            let s4 :=
              summarise
                {| State.new_total := None; State.new_completed := None;
                   State.new_failed := None;
                   State.new_inProgress := Some (Z.of_nat (length batch)) |}
                o s3 in
            if dryRun o then (true, emit DryRunSkip s4)
            else
              let '(results, s5) := launch o worktreeBase batch s4 in
              (true, fold_left (processResult o) results s5)
        end
    end.

(** The loop for at most [fuel] turns; the flag tells whether it is
    still running. *)
Fixpoint batchLoop (fuel : nat) (o : Options) (worktreeBase : jsstring)
    (s : Run) : bool * Run :=
  match fuel with
  | O => (true, s)
  | S fuel' =>
      match batchStep o worktreeBase s with
      | (true, s') => batchLoop fuel' o worktreeBase s'
      | (false, s') => (false, s')
      end
  end.

(** *** The merge pipeline *)

(** The body of the loop over the branches, on [merged], [failed]
    and the run. *)
Definition mergeBranch (targetBranch workDir : jsstring)
    (modelOverride : option jsstring)
    (acc : list jsstring * list jsstring * Run) (branch : jsstring)
  : list jsstring * list jsstring * Run :=
  let '(merged, failed, s) := acc in
  let '(mergeResult, w1) :=
    Git.mergeAgentBranch branch targetBranch workDir (world s) in
  let s1 := with_world w1 s in
  if Git.success mergeResult then
    (merged ++ [branch], failed, emit (Merged branch) s1)
  else
    match Git.hasConflicts mergeResult, Git.conflictedFiles mergeResult with
    | true, Some files =>
        let s2 := emit (Conflict branch) s1 in
        let '(resolved, w2) :=
          Engine.resolveConflictsWithAI files branch workDir modelOverride
            (world s2) in
        let s3 := with_world w2 s2 in
        if resolved then
          (merged ++ [branch], failed, emit (Resolved branch) s3)
        else
          let s4 := emit (ResolveFailed branch) s3 in
          (merged, failed ++ [branch],
           emit AbortMerge (with_world (Git.abortMerge workDir (world s4)) s4))
    | _, _ =>
        (merged, failed ++ [branch],
         emit (MergeFailed branch
                 (str_else (Git.error mergeResult) (lit "Unknown error"))) s1)
    end.

Definition deleteMerged (workDir : jsstring) (s : Run) (branch : jsstring) : Run :=
  let '(_, w) := Git.deleteLocalBranch branch workDir true (world s) in
  with_world w (emit (DeleteBranch branch true) s).

Definition mergeCompletedBranches (branches : list jsstring)
    (targetBranch workDir : jsstring) (modelOverride : option jsstring)
    (s : Run) : Run :=
  match branches with
  | [] => s
  | _ :: _ =>
      let s0 := emit (MergePhase branches targetBranch) s in
      let '(merged, failed, s1) :=
        fold_left (mergeBranch targetBranch workDir modelOverride) branches
          ([], [], s0) in
      let s2 := fold_left (deleteMerged workDir) merged s1 in
      emit (MergeSummary merged failed) s2
  end.

(** *** [runParallel] *)

(** What follows the loop. *)
Definition mergePhase (o : Options) (startingBranch originalBaseBranch : jsstring)
    (s : Run) : Run :=
  if negb (skipMerge o) && negb (dryRun o) && nonempty_list (completedBranches s)
  then
    let s1 :=
      mergeCompletedBranches (completedBranches s) originalBaseBranch
        (workDir o) (modelOverride o) s in
    let '(currentBranch, w) := Git.getCurrentBranch (workDir o) (world s1) in
    let s2 := with_world w s1 in
    if bool_decide (currentBranch ≠ startingBranch)
    then emit (RestoreStartingBranch startingBranch)
           (with_world (Git.returnToBaseBranch startingBranch (workDir o) (world s2)) s2)
    else s2
  else s.

Definition start (rw : State.RalphyState * W) : Run :=
  {| world := rw.2; registry := rw.1; completedBranches := [];
     globalAgentNum := 0; failedTaskIds := ∅; iteration := 0%Z;
     totals := {| tasksCompleted := 0; tasksFailed := 0;
                  totalInputTokens := 0; totalOutputTokens := 0 |};
     trace := [] |}.

(** The statements before the loop: the worktree base, the starting
    branch, the base branch of the merge phase, the initial run. *)
Definition prologue (o : Options) (rw : State.RalphyState * W)
  : jsstring * jsstring * jsstring * Run :=
  let worktreeBase := Git.getWorktreeBase (workDir o) rw.2 in
  let '(startingBranch, w1) := Git.getCurrentBranch (workDir o) rw.2 in
  let originalBaseBranch :=
    match baseBranch o with
    | _ :: _ => baseBranch o
    | [] => startingBranch
    end in
  (worktreeBase, startingBranch, originalBaseBranch, start (rw.1, w1)).

(** [runParallel] up to the end of the loop, for at most [fuel]
    turns of it. *)
Definition runBatches (fuel : nat) (o : Options) (rw : State.RalphyState * W)
  : bool * Run :=
  let '(worktreeBase, _, _, s0) := prologue o rw in
  batchLoop fuel o worktreeBase s0.

(** [runParallel]; [None] when the loop has not ended after [fuel]
    turns. *)
Definition runParallel (fuel : nat) (o : Options) (rw : State.RalphyState * W)
  : option (ExecutionResult * Run) :=
  let '(worktreeBase, startingBranch, originalBaseBranch, s0) := prologue o rw in
  match batchLoop fuel o worktreeBase s0 with
  | (true, _) => None
  | (false, s) =>
      let s' := mergePhase o startingBranch originalBaseBranch s in
      Some (totals s', s')
  end.

End Scheduler.

End Parallel.

(** ** The specification's own words

    What follows is written after the text of the specification, to be
    compared with the code above. *)

Module Spec.

(** A parsed record with the given kind. *)
Definition is_record_of_kind (kind : jsstring) (v : json) : bool :=
  match v with
  | JNull => false
  | _ => is_string kind (member v (lit "type"))
  end.

(** The records of a kind among the lines of an output, in order;
    lines that do not parse are not records. *)
Definition records_of_kind (kind : jsstring) (output : jsstring) : list json :=
  List.filter (is_record_of_kind kind) (omap JSON_parse (Base.lines output)).

(** What is captured of a record of kind result: its [result] text,
    by default "Task completed", and the two token counts of its
    [usage], by default 0. *)
Definition captured (r : json) : Base.StreamResult :=
  {| Base.response := or_else (member r (lit "result")) Base.taskCompleted;
     Base.inputTokens :=
       or_else (opt_member (member r (lit "usage")) (lit "input_tokens"))
         (JNum 0 0);
     Base.outputTokens :=
       or_else (opt_member (member r (lit "usage")) (lit "output_tokens"))
         (JNum 0 0) |}.

(** Token accounting: the values of the last record of kind result. *)
Definition token_accounting (output : jsstring) : Base.StreamResult :=
  match last (records_of_kind (lit "result") output) with
  | Some r => captured r
  | None =>
      {| Base.response := Base.taskCompleted;
         Base.inputTokens := JNum 0 0;
         Base.outputTokens := JNum 0 0 |}
  end.


(** The regular expression of the session names,
    ^ralphy-[a-z0-9-]+-[a-z0-9-]+$ *)
Definition is_name_unit (c : N) : bool := is_lower c || is_digit c || (c =? 45).

Definition session_regex (s : jsstring) : Prop :=
  exists a b : jsstring,
    s = lit "ralphy-" ++ a ++ lit "-" ++ b
    /\ a <> [] /\ b <> []
    /\ forallb is_name_unit a = true /\ forallb is_name_unit b = true.

(** "every character outside [A-Za-z0-9-] replaced by -" and
    "lower-cased", one code unit at a time *)
Definition session_unit (c : N) : N :=
  if is_slug_unit c then lower_unit c else 45.


(** The task identifiers that a trace of the scheduler records as
    failed. *)
Fixpoint failed_in (tr : list Parallel.event) : gset (list N) :=
  match tr with
  | [] => ∅
  | Parallel.TaskFailed t _ :: tr' => {[Tasks.id t]} ∪ failed_in tr'
  | _ :: tr' => failed_in tr'
  end.

(** "A task identifier appearing in failedTaskIds at any point never
    reappears in any subsequent batch." *)
Definition never_again (tr : list Parallel.event) : Prop :=
  forall before after t message i batch,
    tr = before ++ Parallel.TaskFailed t message :: after ->
    Parallel.Batch i batch ∈ after ->
    forall t', t' ∈ batch -> Tasks.id t' <> Tasks.id t.

(** Every batch of a trace is free of the identifiers recorded as
    failed before it. *)
Definition batches_avoid_failed (tr : list Parallel.event) : Prop :=
  forall pre i batch post,
    tr = pre ++ Parallel.Batch i batch :: post ->
    forall t, t ∈ batch -> Tasks.id t ∉ failed_in pre.

Section Runs.

Context {W : Type}.

(** The failed set of a run is the one its trace records, and the
    batches of the trace avoid it. *)
Definition consistent (s : Parallel.Run (W := W)) : Prop :=
  Parallel.failedTaskIds s = failed_in (Parallel.trace s)
  /\ batches_avoid_failed (Parallel.trace s).

(** A later state of a run in which no batch was started. *)
Definition extends (s s' : Parallel.Run (W := W)) : Prop :=
  exists evs,
    Parallel.trace s' = Parallel.trace s ++ evs
    /\ Parallel.failedTaskIds s' = Parallel.failedTaskIds s ∪ failed_in evs
    /\ forall i batch, Parallel.Batch i batch ∉ evs.

End Runs.

(** *** Step detection, section 4.2 *)

(** "only lines whose first non-whitespace character is { are parsed
    as structured records" *)
Definition record (line : jsstring) : option json :=
  if startsWith (trim line) (lit "{") then JSON_parse (trim line) else None.

(** The text a record holds under a name: none when it has no member
    of the name, or one that is not a text. *)
Definition text (r : json) (name : string) : jsstring :=
  match member r (lit name) with
  | Some (JStr s) => s
  | _ => []
  end.

(** A field that goes under several names: the text under the first
    of them that holds one. *)
Fixpoint first_text (r : json) (names : list string) : jsstring :=
  match names with
  | [] => []
  | name :: names' =>
      match text r name with
      | [] => first_text r names'
      | c :: s => c :: s
      end
  end.

(** "Fields examined": tool name, command, file path, description. *)
Record fields : Type := {
  tool : jsstring;
  command : jsstring;
  path : jsstring;
  description : jsstring
}.

(** The names under which a record may hold an examined field. *)
Definition examinedNames : list string :=
  [ "tool"; "name"; "tool_name"; "command"; "file_path"; "filePath"; "path";
    "description" ]%string.

(** A record in which every examined field is a text, or null, or
    missing. *)
Definition textual (r : json) : bool :=
  forallb (fun name => match member r (lit name) with
                       | None | Some JNull | Some (JStr _) => true
                       | Some _ => false
                       end) examinedNames.

Definition tool_in (names : list string) (f : fields) : bool :=
  existsb (fun n => eqb (tool f) (lit n)) names.

Definition contains_any (words : list string) (s : jsstring) : bool :=
  existsb (fun w => includes s (lit w)) words.

(** The classification rules in the order of the specification, each
    with its label. *)
Definition rules : list ((fields -> bool) * string) :=
  [ (tool_in ["read"; "glob"; "grep"], "Reading code");
    (fun f => contains_any ["git commit"] (command f)
              || contains_any ["git commit"] (description f),
     "Committing");
    (fun f => contains_any ["git add"] (command f)
              || contains_any ["git add"] (description f),
     "Staging");
    (fun f => contains_any ["lint"; "eslint"; "biome"; "prettier"] (command f),
     "Linting");
    (fun f => contains_any
                ["vitest"; "jest"; "bun test"; "npm test"; "pytest"; "go test"]
                (command f),
     "Testing");
    (fun f => tool_in ["write"; "edit"] f
              && contains_any [".test."; ".spec."; "__tests__"; "_test.go"] (path f),
     "Writing tests");
    (tool_in ["write"; "edit"], "Implementing") ]%string.

(** "evaluated in this exact order (first match wins)"; "Otherwise
    null" *)
Fixpoint first_match (rs : list ((fields -> bool) * string))
    (f : fields) : option jsstring :=
  match rs with
  | [] => None
  | (applies, label) :: rs' =>
      if applies f then Some (lit label) else first_match rs' f
  end.

Section Host.

Variable unicodeLower : jsstring -> jsstring.

(** "Fields examined (case-insensitive)": the fields of a record,
    in lower case. *)
Definition examined (r : json) : fields :=
  {| tool := toLowerCase unicodeLower (first_text r ["tool"; "name"; "tool_name"]%string);
     command := toLowerCase unicodeLower (text r "command");
     path :=
       toLowerCase unicodeLower
         (first_text r ["file_path"; "filePath"; "path"]%string);
     description := toLowerCase unicodeLower (text r "description") |}.

(** Step detection: the label of the first rule that applies to
    the fields of the record of a line. *)
Definition step (line : jsstring) : option jsstring :=
  r ← record line; first_match rules (examined r).

End Host.

End Spec.

(** ** A small world to run the scheduler in *)

Module Example.

Import Tasks Parallel.

(** The clock, the branch checked out, the tasks still to do, and the
    branches deleted so far. *)
Record world : Type := {
  time : N;
  branch : jsstring;
  todo : list Task;
  deleted : list jsstring
}.

#[global] Instance host : State.Host world := {
  State.now w :=
    (toString (time w),
     {| time := time w + 1; branch := branch w; todo := todo w;
        deleted := deleted w |});
  State.writeState _ _ w := w
}.

#[global] Instance source : TaskSource world := {
  isYamlTaskSource := false;
  getNextTask w := (head (todo w), w);
  getAllTasks w := (todo w, w);
  getParallelGroup _ w := (0%Z, w);
  getTasksInGroup _ w := ([], w);
  markComplete done w :=
    {| time := time w; branch := branch w;
       todo := List.filter (fun t => negb (eqb (id t) done)) (todo w);
       deleted := deleted w |};
  countRemaining w := (Z.of_nat (length (todo w)), w)
}.

#[global] Instance repository : Git.Repository world := {
  Git.getCurrentBranch _ w := (branch w, w);
  Git.returnToBaseBranch b _ w :=
    {| time := time w; branch := b; todo := todo w; deleted := deleted w |};
  Git.mergeAgentBranch _ target _ w :=
    ({| Git.success := true; Git.hasConflicts := false;
        Git.conflictedFiles := None; Git.error := None |},
     {| time := time w; branch := target; todo := todo w; deleted := deleted w |});
  Git.abortMerge _ w := w;
  Git.deleteLocalBranch b _ _ w :=
    (true,
     {| time := time w; branch := branch w; todo := todo w;
        deleted := deleted w ++ [b] |});
  Git.getWorktreeBase _ _ := lit "/tmp/worktrees";
  Git.createAgentWorktree _ n _ _ _ w :=
    (Returns {| Git.worktreeDir := lit "/tmp/worktrees/agent-" ++ toString n;
                Git.branchName := lit "ralphy/agent-" ++ toString n |}, w);
  Git.cleanupAgentWorktree _ _ _ w := (false, w)
}.

(** An engine that succeeds on every task but the one titled "bad". *)
#[global] Instance engine : Engine.AIEngine world := {
  Engine.buildParallelPrompt title _ _ _ := title;
  Engine.prepareWorktree _ _ _ _ _ w := (Returns tt, w);
  Engine.executeWithRetry prompt _ _ _ _ w :=
    (([quoted "{'tool':'Edit','file_path':'src/a.ts'}"],
      Returns {| Types.success := negb (eqb prompt (lit "bad"));
                 Types.response := lit "done";
                 Types.inputTokens := 10; Types.outputTokens := 20;
                 Types.cost := None;
                 Types.error :=
                   if eqb prompt (lit "bad") then Some (lit "no") else None |}),
     w);
  Engine.resolveConflictsWithAI _ _ _ _ w := (true, w)
}.

Definition options : Options :=
  {| workDir := lit "/repo"; skipTests := false; skipLint := false;
     dryRun := false; maxIterations := 0; maxRetries := 3; retryDelay := 5;
     baseBranch := []; maxParallel := 3; prdSource := lit "markdown";
     prdFile := lit "PRD.md"; prdIsFolder := false;
     browserEnabled := lit "auto"; modelOverride := None;
     skipMerge := false; tmux := true |}.

Definition registry0 : State.RalphyState :=
  {| State.agents := ∅;
     State.summary := {| State.total := 0; State.completed := 0;
                         State.failed := 0; State.inProgress := 0 |};
     State.lastUpdate := [] |}.

(** A registry with the record of an agent that is running. *)
Definition registry1 : State.RalphyState :=
  {| State.agents :=
       {[ lit "2" :=
            <[lit "status" := State.VString (lit "running")]>
              (<[lit "tmuxSession" := State.VString (lit "ralphy-2-good")]>
                 (State.newAgent (lit "2") (lit "0"))) ]};
     State.summary := {| State.total := 2; State.completed := 0;
                         State.failed := 0; State.inProgress := 1 |};
     State.lastUpdate := lit "0" |}.

Definition world0 : world :=
  {| time := 0; branch := lit "feat/x";
     todo := [ {| id := lit "T1"; title := lit "good" |};
               {| id := lit "T2"; title := lit "bad" |} ];
     deleted := [] |}.

(** The run of [runParallel] from [world0], its loop given five turns. *)
Definition finished : option (ExecutionResult * Run (W := world)) :=
  runParallel (fun s => s) 5 options (registry0, world0).

Definition totals : ExecutionResult :=
  {| tasksCompleted := 1; tasksFailed := 1;
     totalInputTokens := 10; totalOutputTokens := 20 |}.

Definition final : Run (W := world) :=
  match finished with
  | Some (_, s) => s
  | None => start (registry0, world0)
  end.

Definition shown : list event :=
  match finished with
  | Some (_, s) => trace s
  | None => []
  end.

(** One agent at a time, the failing task first. *)
Definition options1 : Options :=
  {| workDir := lit "/repo"; skipTests := false; skipLint := false;
     dryRun := false; maxIterations := 0; maxRetries := 3; retryDelay := 5;
     baseBranch := []; maxParallel := 1; prdSource := lit "markdown";
     prdFile := lit "PRD.md"; prdIsFolder := false;
     browserEnabled := lit "auto"; modelOverride := None;
     skipMerge := false; tmux := true |}.

Definition good : Task := {| id := lit "T1"; title := lit "good" |}.
Definition bad : Task := {| id := lit "T2"; title := lit "bad" |}.

Definition world1 : world :=
  {| time := 0; branch := lit "feat/x"; todo := [bad; good]; deleted := [] |}.

Definition shown1 : list event :=
  trace (runBatches (fun s => s) 5 options1 (registry0, world1)).2.

(** The result of an agent that failed in its worktree. *)
Definition failedResult : ParallelAgentResult :=
  {| task := {| id := lit "T2"; title := lit "bad" |};
     worktreeDir := lit "/tmp/worktrees/agent-2";
     branchName := lit "ralphy/agent-2";
     result := None; error := Some (lit "no") |}.

(** The record of a line of an engine: an edit of a test file. *)
Definition editRecord : json :=
  JObj [ (lit "name", JStr (lit "Edit")); (lit "tool", JNull);
         (lit "filePath", JStr (lit "src/A.Spec.ts")) ].

(** Rounds of the polling loop: a silent one, then one in which the
    exit file holds 3. *)
Definition round_waiting : tick :=
  {| readOutput := fun _ => None; exitFile := None;
     hasSession := true; exitFileAfter := false |}.

Definition round_exited : tick :=
  {| readOutput := fun _ => None; exitFile := Some (lit "3" ++ [10]);
     hasSession := true; exitFileAfter := true |}.

End Example.

(** ** The rest of engines/base.ts *)

Module Driver.

(** [a.replace(/'/g, "'\\''")] *)
Fixpoint escapeQuotes (a : jsstring) : jsstring :=
  match a with
  | [] => []
  | c :: a' =>
      if c =? 39 then [39; 92; 39; 39] ++ escapeQuotes a'
      else c :: escapeQuotes a'
  end.

(** The argument of [execTmuxCommand] between single quotes. *)
Definition quoteArg (a : jsstring) : jsstring :=
  [39] ++ escapeQuotes a ++ [39].

(** [l.join(sep)] *)
Fixpoint join (sep : jsstring) (l : list jsstring) : jsstring :=
  match l with
  | [] => []
  | [x] => x
  | x :: l' => x ++ sep ++ join sep l'
  end.

(** [fullCommand] of [execTmuxCommand] *)
Definition fullCommand (command : jsstring) (args : list jsstring) : jsstring :=
  command ++ lit " " ++ join (lit " ") (map quoteArg args).

(** One turn of the loop of [readStream], on the buffer and the lines
    handed to [onLine] so far, for the text decoded from one chunk. *)
Definition readStream_step (st : jsstring * list jsstring) (chunk : jsstring)
  : jsstring * list jsstring :=
  let '(buffer, shown) := st in
  let lines := split 10 (buffer ++ chunk) in
  (default [] (last lines),
   shown ++ List.filter (fun line => nonempty (trim line)) (removelast lines)).

(** [readStream]: the lines handed to [onLine], for the texts decoded
    from the chunks of the stream. *)
Definition readStream (chunks : list jsstring) : list jsstring :=
  let '(buffer, shown) := fold_left readStream_step chunks ([], []) in
  if nonempty (trim buffer) then shown ++ [buffer] else shown.

End Driver.

(** A reader of command lines, used to tell the words of a command
    line apart: blanks separate words, the text between two
    apostrophes is taken as it is, a backslash outside apostrophes
    makes the next character part of the word, and a character that
    is not plain is not read outside apostrophes.  These are the
    quoting rules of the shell for such lines; the reader is not part
    of the repository. *)
Module Shell.

Inductive state : Type :=
| Blank
| Word (acc : jsstring)
| Quoted (acc : jsstring)
| Escape (acc : jsstring).

(** Characters that stand for themselves outside quotes. *)
Definition plain (c : N) : bool :=
  is_lower c || is_upper c || is_digit c
  || (c =? 45) || (c =? 95) || (c =? 46) || (c =? 47).

Fixpoint words (st : state) (s : jsstring) : option (list jsstring) :=
  match s with
  | [] =>
      match st with
      | Blank => Some []
      | Word acc => Some [rev acc]
      | Quoted _ | Escape _ => None
      end
  | c :: s' =>
      match st with
      | Blank =>
          if c =? 32 then words Blank s'
          else if c =? 39 then words (Quoted []) s'
          else if c =? 92 then words (Escape []) s'
          else if plain c then words (Word [c]) s'
          else None
      | Word acc =>
          if c =? 32 then ws ← words Blank s'; Some (rev acc :: ws)
          else if c =? 39 then words (Quoted acc) s'
          else if c =? 92 then words (Escape acc) s'
          else if plain c then words (Word (c :: acc)) s'
          else None
      | Quoted acc =>
          if c =? 39 then words (Word acc) s'
          else words (Quoted (c :: acc)) s'
      | Escape acc =>
          if c =? 10 then None else words (Word (c :: acc)) s'
      end
  end.

End Shell.

(** ** Sequences of registry operations, and counts over a trace *)

Module Registry.

(** The properties of the record that a first update creates. *)
Definition created : list string :=
  ["id"; "task"; "status"; "step"; "lastUpdate"]%string.

(** A call of one of the three exported operations of state.ts. *)
Inductive op : Type :=
| Update (agentId : jsstring) (updates : gmap (list N) State.value)
| Summarise (updates : State.SummaryUpdates)
| Remove (agentId : jsstring).

(** Whether a call names an agent. *)
Definition names (agentId : jsstring) (o : op) : bool :=
  match o with
  | Update a _ | Remove a => eqb a agentId
  | Summarise _ => false
  end.

(** Whether the agent identifier of an update is a name of the
    agents object alone, not one that it inherits: the decimal
    identifiers of parallel.ts are. *)
Definition plain (o : op) : bool :=
  match o with
  | Update agentId _ => negb (State.inheritedName agentId)
  | Summarise _ | Remove _ => true
  end.

(** What the first update of an agent spreads under the patch: the
    record it has just created, or, under an inherited name, the
    inherited function, which has no property to spread. *)
Definition found (agentId now : jsstring) : gmap (list N) State.value :=
  if State.inheritedName agentId then ∅ else State.newAgent agentId now.

(** The patches of the calls of [updateSummary], in order. *)
Definition summaryPatches (ops : list op) : list State.SummaryUpdates :=
  omap (fun o => match o with Summarise u => Some u | _ => None end) ops.

(** Every record holds the properties a first update creates. *)
Definition complete_records (st : State.RalphyState) : Prop :=
  forall agentId record,
    State.agents st !! agentId = Some record ->
    forall k, k ∈ created -> is_Some (record !! lit k).

(** The value of a property of the record of an agent. *)
Definition field (st : State.RalphyState) (agentId : jsstring) (k : string)
  : option State.value :=
  record ← State.agents st !! agentId; record !! lit k.

(** The body of the loop of [cleanupTmuxSessions]: the session that
    is killed for an agent record, if one is. *)
Definition killed (agent : gmap (list N) State.value) : option jsstring :=
  match agent !! lit "tmuxSession" with
  | Some (State.VString (c :: session)) =>
      if bool_decide (agent !! lit "status" = Some (State.VString (lit "running")))
         || bool_decide (agent !! lit "status" = Some (State.VString (lit "pending")))
      then Some (c :: session)
      else None
  | Some (State.VString []) | Some State.VUndefined | None => None
  end.

(** [cleanupTmuxSessions]: the sessions killed.  The order is that of
    the map, not that of [Object.values]; only membership is used. *)
Definition cleanupTmuxSessions (st : State.RalphyState) : list jsstring :=
  omap killed (map_to_list (State.agents st)).*2.

Section Calls.

Context {W : Type} `{!State.Host W}.

Definition call (workDir : jsstring) (sw : State.RalphyState * W) (o : op)
  : State.RalphyState * W :=
  match o with
  | Update agentId updates => State.updateState agentId updates workDir sw
  | Summarise updates => State.updateSummary updates workDir sw
  | Remove agentId => State.removeAgentFromState agentId workDir sw
  end.

Definition calls (workDir : jsstring) (ops : list op)
    (sw : State.RalphyState * W) : State.RalphyState * W :=
  fold_left (call workDir) ops sw.

End Calls.

End Registry.

Module Ledger.

Import Parallel.

Definition is_completed (e : event) : bool :=
  match e with TaskCompleted _ => true | _ => false end.

Definition is_failed (e : event) : bool :=
  match e with TaskFailed _ _ => true | _ => false end.

Definition is_batch (e : event) : bool :=
  match e with Batch _ _ => true | _ => false end.

Definition count (p : event -> bool) (tr : list event) : nat :=
  length (List.filter p tr).

(** The number of tasks in the batches of a trace. *)
Fixpoint launched (tr : list event) : nat :=
  match tr with
  | [] => 0
  | Batch _ batch :: tr' => length batch + launched tr'
  | _ :: tr' => launched tr'
  end.

(** The numbers of the batches of a trace, in order. *)
Definition batchNumbers (tr : list event) : list Z :=
  omap (fun e => match e with Batch i _ => Some i | _ => None end) tr.

(** The batches of a trace, in order. *)
Definition batches (tr : list event) : list (list Tasks.Task) :=
  omap (fun e => match e with Batch _ batch => Some batch | _ => None end) tr.

(** The results that the scheduler counts as completed. *)
Definition done (rs : list ParallelAgentResult) : list ParallelAgentResult :=
  List.filter (fun r => negb (agentFailed r)) rs.

(** The sum of a token count over the completed results. *)
Definition tokens (f : Types.AIResult -> Z) (rs : list ParallelAgentResult) : Z :=
  foldr (fun r n => (from_option f 0 (result r) + n)%Z) 0%Z (done rs).

(** The sums of a token count from a total are exact: the total and
    the counts of the completed results are not negative, and the sum
    of all is at most 2^53. *)
Definition exact (total : Z) (f : Types.AIResult -> Z)
    (rs : list ParallelAgentResult) : Prop :=
  (0 <= total)%Z
  /\ Forall (fun r => (0 <= from_option f 0 (result r))%Z) (done rs)
  /\ (total + tokens f rs <= 2 ^ 53)%Z.

(** The events that are not the start of a batch or the outcome of
    a task. *)
Definition quiet (e : event) : bool :=
  negb (is_completed e || is_failed e || is_batch e).

Section Runs.

Context {W : Type}.

(** The counters of a run agree with its trace, every agent
    numbered so far but [pending] of them has been counted, and the
    summary of the registry shows the counters once they are
    positive. *)
Definition ledger (pending : nat) (s : Run (W := W)) : Prop :=
  tasksCompleted (totals s) = Z.of_nat (count is_completed (trace s))
  /\ tasksFailed (totals s) = Z.of_nat (count is_failed (trace s))
  /\ Z.of_N (globalAgentNum s)
     = (tasksCompleted (totals s) + tasksFailed (totals s) + Z.of_nat pending)%Z
  /\ ((0 < tasksCompleted (totals s))%Z ->
      State.completed (State.summary (registry s)) = tasksCompleted (totals s))
  /\ ((0 < tasksFailed (totals s))%Z ->
      State.failed (State.summary (registry s)) = tasksFailed (totals s))
  /\ (length (completedBranches s) <= count is_completed (trace s))%nat
  /\ Forall (fun b => b <> []) (completedBranches s).

(** Two states of a run with the same counters, failed set,
    branches to merge and agent records, and the same completed
    and failed counts in the summary. *)
Definition same_books (s s' : Run (W := W)) : Prop :=
  totals s' = totals s
  /\ globalAgentNum s' = globalAgentNum s
  /\ completedBranches s' = completedBranches s
  /\ failedTaskIds s' = failedTaskIds s
  /\ State.agents (registry s') = State.agents (registry s)
  /\ State.completed (State.summary (registry s'))
     = State.completed (State.summary (registry s))
  /\ State.failed (State.summary (registry s'))
     = State.failed (State.summary (registry s)).

(** A later state of a run that differs in the world and in
    events that neither start a batch nor report a task. *)
Definition quietly (s s' : Run (W := W)) : Prop :=
  registry s' = registry s
  /\ totals s' = totals s
  /\ globalAgentNum s' = globalAgentNum s
  /\ completedBranches s' = completedBranches s
  /\ failedTaskIds s' = failedTaskIds s
  /\ iteration s' = iteration s
  /\ exists evs, trace s' = trace s ++ evs /\ forallb quiet evs = true.

(** Every agent numbered so far has a record whose status is
    completed or failed. *)
Definition settled (s : Run (W := W)) : Prop :=
  forall k : N,
    0 < k <= globalAgentNum s ->
    exists failed : bool,
      Registry.field (registry s) (toString k) "status"
      = Some (VStr (if failed then "failed" else "completed")).

(** The records of the registry under keys that are not the
    number of an agent of the run are those of [agents0]. *)
Definition others_kept (agents0 : gmap (list N) (gmap (list N) State.value))
    (s : Run (W := W)) : Prop :=
  forall key : jsstring,
    (forall k : N, 0 < k <= globalAgentNum s -> key <> toString k) ->
    State.agents (registry s) !! key = agents0 !! key.

(** The batches of the trace are numbered 1, 2, ... up to the
    iteration counter. *)
Definition numbered (s : Run (W := W)) : Prop :=
  (0 <= iteration s)%Z
  /\ batchNumbers (trace s) = map Z.of_nat (seq 1 (Z.to_nat (iteration s))).

End Runs.

End Ledger.

(** ** Further examples *)

Module Samples.

Import Parallel.


(** Rounds of the polling loop in which the exit file holds no
    number, and in which it is blank. *)
Definition round_garbled : tick :=
  {| readOutput := fun _ => None; exitFile := Some (lit "x");
     hasSession := true; exitFileAfter := true |}.

Definition round_blank : tick :=
  {| readOutput := fun _ => None; exitFile := Some (lit " ");
     hasSession := true; exitFileAfter := true |}.

(** The result of an agent that completed its task. *)
Definition doneResult : ParallelAgentResult :=
  {| task := {| Tasks.id := lit "T1"; Tasks.title := lit "good" |};
     worktreeDir := lit "/tmp/worktrees/agent-1";
     branchName := lit "ralphy/agent-1";
     result := Some {| Types.success := true; Types.response := lit "ok";
                       Types.inputTokens := 10; Types.outputTokens := 20;
                       Types.cost := None; Types.error := None |};
     error := None |}.

(** Calls on the registry. *)
Definition calls : list Registry.op :=
  [ Registry.Update (lit "1") {[ lit "status" := State.VUndefined ]};
    Registry.Summarise State.noUpdates;
    Registry.Remove (lit "3") ].

End Samples.
(** * Properties *)

(** ** The output classifier *)

Section Classifier.

Variable unicodeLower : jsstring -> jsstring.

(** What the classifier does with a line, step by step. *)
Lemma detect_extract (line : jsstring) :
  Base.detectStepFromOutput unicodeLower line =
  match Spec.record line with
  | Some parsed =>
      match Base.extract unicodeLower parsed with
      | Normal f => Base.classify unicodeLower f
      | Thrown => None
      end
  | None => None
  end.
Proof.
  unfold Base.detectStepFromOutput, Spec.record.
  destruct (startsWith (trim line) (lit "{")); simpl; [|reflexivity].
  destruct (JSON_parse (trim line)) as [parsed|]; reflexivity.
Qed.

Lemma detect_classified (line label : jsstring) :
  Base.detectStepFromOutput unicodeLower line = Some label ->
  exists f, Base.classify unicodeLower f = Some label.
Proof.
  rewrite detect_extract.
  destruct (Spec.record line) as [parsed|]; [|discriminate].
  destruct (Base.extract unicodeLower parsed) as [f|]; [|discriminate].
  eauto.
Qed.

Lemma get_member (r : json) (k : jsstring) :
  r <> JNull -> Base.get r k = Normal (member r k).
Proof. now destruct r. Qed.

Lemma optLowerCase_text (v : option json) :
  match v with
  | None | Some JNull | Some (JStr _) => true
  | Some _ => false
  end = true ->
  Base.optLowerCase unicodeLower v
  = Normal match v with
           | Some (JStr s) => Some (toLowerCase unicodeLower s)
           | _ => None
           end.
Proof. now destruct v as [[]|]. Qed.

Lemma or_else_text (v : option json) (d : jsstring) :
  match v with
  | None | Some JNull | Some (JStr _) => true
  | Some _ => false
  end = true ->
  or_else v (JStr d)
  = JStr match v with
         | Some (JStr (c :: s)) => c :: s
         | _ => d
         end.
Proof. now destruct v as [[| | |[|c s]| |]|]. Qed.

(** Two facts of [String.prototype.toLowerCase] that the embedding
    leaves to the host outside ASCII: lower case is not lowered
    further, and no text but the empty one becomes empty. *)
Hypothesis lower_twice :
  forall s, toLowerCase unicodeLower (toLowerCase unicodeLower s)
            = toLowerCase unicodeLower s.
Hypothesis lower_empty :
  forall s, toLowerCase unicodeLower s = [] -> s = [].

Lemma str_or_lowered (v : option json) (d : jsstring) :
  Base.str_or match v with
              | Some (JStr s) => Some (toLowerCase unicodeLower s)
              | _ => None
              end (Normal d)
  = Normal match v with
           | Some (JStr (c :: s)) => toLowerCase unicodeLower (c :: s)
           | _ => d
           end.
Proof.
  destruct v as [[| | |[|c s]| |]|]; try reflexivity.
  cbn [Base.str_or].
  destruct (toLowerCase unicodeLower (c :: s)) as [|c' s'] eqn:E; [|reflexivity].
  now apply lower_empty in E.
Qed.

(** On a record whose examined fields are texts, null or missing, the
    classifier reads the fields that the specification names. *)
Lemma extract_examined (r : json) :
  Spec.textual r = true ->
  r <> JNull ->
  Base.extract unicodeLower r
  = Normal {| Base.toolName := Spec.tool (Spec.examined unicodeLower r);
              Base.command := Spec.command (Spec.examined unicodeLower r);
              Base.filePath := Spec.path (Spec.examined unicodeLower r);
              Base.description := Spec.description (Spec.examined unicodeLower r) |}.
Proof.
  intros Ht Hr. unfold Spec.textual, Spec.examinedNames in Ht.
  cbn [forallb] in Ht.
  repeat (apply andb_true_iff in Ht as [? Ht]).
  unfold Base.extract, Spec.examined.
  cbn [Spec.tool Spec.command Spec.path Spec.description Spec.first_text].
  unfold Spec.text.
  rewrite !get_member by exact Hr. cbn [mbind completion_bind].
  rewrite !optLowerCase_text by assumption. cbn [mbind completion_bind].
  rewrite !str_or_lowered. cbn [mbind completion_bind].
  rewrite !or_else_text by assumption. cbn [Base.lowerCase mbind completion_bind].
  do 2 f_equal.
  - destruct (member r (lit "tool")) as [[| | |[|]| |]|];
      destruct (member r (lit "name")) as [[| | |[|]| |]|];
      destruct (member r (lit "tool_name")) as [[| | |[|]| |]|]; reflexivity.
  - destruct (member r (lit "command")) as [[| | |[|]| |]|]; reflexivity.
  - destruct (member r (lit "file_path")) as [[| | |[|]| |]|];
      destruct (member r (lit "filePath")) as [[| | |[|]| |]|];
      destruct (member r (lit "path")) as [[| | |[|]| |]|]; reflexivity.
  - destruct (member r (lit "description")) as [[| | |[|]| |]|]; reflexivity.
Qed.

(** The tests of the classifier are the rules of the specification,
    in their order, when the file path is in lower case. *)
Lemma classify_rules (f : Spec.fields) :
  toLowerCase unicodeLower (Spec.path f) = Spec.path f ->
  Base.classify unicodeLower
    {| Base.toolName := Spec.tool f; Base.command := Spec.command f;
       Base.filePath := Spec.path f; Base.description := Spec.description f |}
  = Spec.first_match Spec.rules f.
Proof.
  intros Hp.
  unfold Base.classify, Base.isTestFile, Spec.rules, Spec.first_match,
    Spec.tool_in, Spec.contains_any, existsb.
  cbn [Base.toolName Base.command Base.filePath Base.description].
  rewrite Hp.
  repeat match goal with
         | |- context [eqb ?a ?b] => destruct (eqb a b); simpl; try reflexivity
         | |- context [includes ?a ?b] =>
             destruct (includes a b); simpl; try reflexivity
         end.
Qed.

Lemma detect_textual (line : jsstring) (r : json) :
  Spec.record line = Some r ->
  Spec.textual r = true ->
  Base.detectStepFromOutput unicodeLower line
  = Spec.first_match Spec.rules (Spec.examined unicodeLower r).
Proof.
  intros Hline Ht. rewrite detect_extract, Hline.
  assert (Hnull : r = JNull \/ r <> JNull)
    by (destruct r; first [now left | now right]).
  destruct Hnull as [->|Hr]; [reflexivity|].
  rewrite (extract_examined r Ht Hr).
  apply classify_rules. apply lower_twice.
Qed.

(** C1, amended.  On every line whose record holds, under each of the
    names of the examined fields, a text, null or nothing, the
    classifier answers with the label of the first rule of section
    4.2, in its order, that applies to the fields of the record, and
    with no label when no rule applies; on a line that is not a
    record it answers with no label.  The read rule comes before the
    test-file rule: a read of a test file is "Reading code", not
    "Writing tests". *)
Theorem classifier_rule_order :
  (forall (line : jsstring) (r : json),
      Spec.record line = Some r ->
      Spec.textual r = true ->
      Base.detectStepFromOutput unicodeLower line
      = Spec.first_match Spec.rules (Spec.examined unicodeLower r))
  /\ (forall line : jsstring,
        Spec.record line = None ->
        Base.detectStepFromOutput unicodeLower line = None)
  /\ (forall (line : jsstring) (r : json),
        Spec.record line = Some r ->
        Spec.textual r = true ->
        Spec.tool_in ["read"; "glob"; "grep"]%string
          (Spec.examined unicodeLower r) = true ->
        Base.detectStepFromOutput unicodeLower line = Some (lit "Reading code"))
  /\ Base.detectStepFromOutput unicodeLower
       (quoted "{'tool':'Read','file_path':'src/foo.test.ts'}")
     = Some (lit "Reading code")
  /\ Base.detectStepFromOutput unicodeLower
       (quoted "{'tool':'Read','file_path':'src/foo.test.ts'}")
     <> Some (lit "Writing tests").
Proof.
  split; [|split; [|split; [|split]]].
  - exact detect_textual.
  - intros line Hline. now rewrite detect_extract, Hline.
  - intros line r Hline Ht Hread. rewrite (detect_textual line r Hline Ht).
    unfold Spec.rules. cbn [Spec.first_match]. now rewrite Hread.
  - vm_compute. reflexivity.
  - vm_compute. discriminate.
Qed.

End Classifier.

Section ClassifierScenarios.

Variable unicodeLower : jsstring -> jsstring.

(** The second and third scenarios of the specification. *)
Example classifier_write_of_test_file :
  Base.detectStepFromOutput unicodeLower
    (quoted "{'tool':'Write','file_path':'src/foo.test.ts'}")
  = Some (lit "Writing tests").
Proof. vm_compute. reflexivity. Qed.

Example classifier_lint_command :
  Base.detectStepFromOutput unicodeLower (quoted "{'command':'bunx biome check .'}")
  = Some (lit "Linting").
Proof. vm_compute. reflexivity. Qed.

(** A field that is not a string ends the classification: lowering it
    throws, and the classifier answers null. *)
Example classifier_number_for_command :
  Base.detectStepFromOutput unicodeLower (quoted "{'tool':'Read','command':5}")
  = None.
Proof. vm_compute. reflexivity. Qed.

End ClassifierScenarios.

(** The identity, as the case conversion of the host outside ASCII,
    has the two properties asked of it. *)
Lemma lower_unit_twice (c : N) : lower_unit (lower_unit c) = lower_unit c.
Proof.
  unfold lower_unit, is_upper, in_range.
  destruct (65 <=? c) eqn:E1, (c <=? 90) eqn:E2; cbn [andb];
    try (now rewrite E1, E2).
  apply N.leb_le in E1.
  replace (c + 32 <=? 90) with false by (symmetry; apply N.leb_gt; lia).
  now rewrite andb_false_r.
Qed.

Lemma lower_unit_ascii (c : N) : is_ascii c = true -> is_ascii (lower_unit c) = true.
Proof.
  unfold lower_unit, is_upper, in_range, is_ascii. intros Hc.
  destruct (65 <=? c) eqn:E1, (c <=? 90) eqn:E2; cbn [andb]; try exact Hc.
  apply N.leb_le in E2. apply N.ltb_lt. lia.
Qed.

Lemma identity_lower_twice (s : jsstring) :
  toLowerCase (fun s => s) (toLowerCase (fun s => s) s) = toLowerCase (fun s => s) s.
Proof.
  unfold toLowerCase at 2 3. destruct (forallb is_ascii s) eqn:E.
  - unfold toLowerCase.
    replace (forallb is_ascii (map lower_unit s)) with true.
    + rewrite map_map. apply map_ext. intros c. apply lower_unit_twice.
    + symmetry. apply forallb_forall. intros c Hc.
      apply in_map_iff in Hc as (c' & <- & Hc').
      apply lower_unit_ascii. rewrite forallb_forall in E. now apply E.
  - unfold toLowerCase. now rewrite E.
Qed.

Lemma identity_lower_empty (s : jsstring) :
  toLowerCase (fun s => s) s = [] -> s = [].
Proof.
  unfold toLowerCase. destruct (forallb is_ascii s); [|easy].
  now destruct s.
Qed.

(** ** Token accounting and error detection *)

Section StreamJson.

Lemma result_step_record (acc : Base.StreamResult) (line : jsstring) :
  Base.result_step acc line =
  match JSON_parse line with
  | Some r => if Spec.is_record_of_kind (lit "result") r then Spec.captured r else acc
  | None => acc
  end.
Proof.
  unfold Base.result_step, Spec.is_record_of_kind, Base.get, Spec.captured.
  destruct (JSON_parse line) as [[]|]; reflexivity.
Qed.

Lemma fold_result_step (ls : list jsstring) (acc : Base.StreamResult) :
  fold_left Base.result_step ls acc =
  match last (List.filter (Spec.is_record_of_kind (lit "result"))
                (omap JSON_parse ls)) with
  | Some r => Spec.captured r
  | None => acc
  end.
Proof.
  revert acc. induction ls as [|line ls IH]; intros acc; [reflexivity|].
  cbn [fold_left omap list_omap]. rewrite IH, result_step_record.
  destruct (JSON_parse line) as [r|]; [|reflexivity].
  cbn [List.filter].
  destruct (Spec.is_record_of_kind (lit "result") r); [|reflexivity].
  destruct (List.filter _ (omap JSON_parse ls)) as [|r' rs] eqn:E.
  - reflexivity.
  - rewrite !last_cons. now destruct (last rs).
Qed.

Lemma or_else_taskCompleted (v : option json) :
  or_else (Some (or_else v Base.taskCompleted)) Base.taskCompleted
  = or_else v Base.taskCompleted.
Proof.
  unfold or_else at 1.
  destruct (truthy (Some (or_else v Base.taskCompleted))) eqn:E; [reflexivity|].
  unfold or_else in *. destruct v as [x|]; [|discriminate E].
  destruct (truthy (Some x)) eqn:Ex; [congruence | reflexivity].
Qed.




End StreamJson.

(** ** The multiplexer driver *)

Section Multiplexer.

Variable unicodeLower : jsstring -> jsstring.

Lemma poll_skips (before rest : list tick) (offset : N) (seen : list jsstring) :
  Forall (fun t => Base.poll_exit t = None) before ->
  exists offset' seen',
    Base.poll offset seen (before ++ rest) = Base.poll offset' seen' rest.
Proof.
  intros H. revert offset seen.
  induction H as [|t before Ht _ IH]; intros offset seen.
  - now exists offset, seen.
  - cbn [app Base.poll].
    destruct (readOutput t offset) as [[size newContent]|]; rewrite Ht; apply IH.
Qed.

Lemma poll_ends (t : tick) (code : number) (rest : list tick)
    (offset : N) (seen : list jsstring) :
  Base.poll_exit t = Some code ->
  exists seen', Base.poll offset seen (t :: rest) = Some (code, seen').
Proof.
  intros Ht. cbn [Base.poll].
  destruct (readOutput t offset) as [[size newContent]|]; rewrite Ht; eauto.
Qed.

Lemma execTmuxCommand_ends (agentId taskSlug : jsstring)
    (before : list tick) (t : tick) (after : list tick) (code : number) :
  Forall (fun t => Base.poll_exit t = None) before ->
  Base.poll_exit t = Some code ->
  exists r, Base.execTmuxCommand unicodeLower agentId taskSlug
              (before ++ t :: after) = Some r
            /\ exitCode r = code.
Proof.
  intros Hb Ht. unfold Base.execTmuxCommand.
  destruct (poll_skips before (t :: after) 0 [] Hb) as (offset & seen & ->).
  destruct (poll_ends t code after offset seen Ht) as (seen' & ->).
  cbn. eauto.
Qed.

(** C6.  In the round in which the exit file exists and its trimmed
    contents parse as an integer, the polling loop ends and that integer
    is the exit code returned; in the round in which there is no exit
    file and the session is gone, the loop ends and the exit code
    returned is 1.  The rounds before are rounds that did not end the
    loop. *)
Theorem execTmuxCommand_exit_code
    (agentId taskSlug : jsstring)
    (before : list tick) (t : tick) (after : list tick) :
  Forall (fun t => Base.poll_exit t = None) before ->
  (forall (raw : jsstring) (k : Z),
      exitFile t = Some raw ->
      Base.parseInt10 (trim raw) = Int k ->
      exists r, Base.execTmuxCommand unicodeLower agentId taskSlug
                  (before ++ t :: after) = Some r
                /\ exitCode r = Int k)
  /\ (exitFile t = None -> hasSession t = false -> exitFileAfter t = false ->
      exists r, Base.execTmuxCommand unicodeLower agentId taskSlug
                  (before ++ t :: after) = Some r
                /\ exitCode r = Int 1).
Proof.
  intros Hb. split.
  - intros raw k Hraw Hk. apply execTmuxCommand_ends; [exact Hb|].
    unfold Base.poll_exit. rewrite Hraw.
    destruct (trim raw) as [|c content] eqn:E.
    + discriminate Hk.
    + cbn [nonempty]. now rewrite Hk.
  - intros Hfile Hsession Hafter. apply execTmuxCommand_ends; [exact Hb|].
    unfold Base.poll_exit. now rewrite Hfile, Hsession, Hafter.
Qed.

End Multiplexer.

Lemma execTmuxCommand_exit_code_witness :
  exists r, Base.execTmuxCommand (fun s => s) (lit "1") (lit "a")
              ([Example.round_waiting] ++ Example.round_exited :: []) = Some r
            /\ exitCode r = Int 3.
Proof.
  refine (proj1 (execTmuxCommand_exit_code (fun s => s) (lit "1") (lit "a")
                   [Example.round_waiting] Example.round_exited [] _)
            (lit "3" ++ [10]) 3%Z _ _).
  - repeat constructor.
  - reflexivity.
  - reflexivity.
Defined.

(** ** Session names *)

Section SessionNames.

Variable unicodeLower : jsstring -> jsstring.

Ltac units :=
  unfold Spec.session_unit, Spec.is_name_unit, is_slug_unit, lower_unit,
    is_ascii, is_lower, is_upper, is_digit, in_range;
  repeat (match goal with
          | |- context [N.leb ?a ?b] => destruct (N.leb_spec a b)
          | |- context [N.ltb ?a ?b] => destruct (N.ltb_spec a b)
          | |- context [N.eqb ?a ?b] => destruct (N.eqb_spec a b)
          | H : context [N.leb ?a ?b] |- _ => destruct (N.leb_spec a b)
          | H : context [N.ltb ?a ?b] |- _ => destruct (N.ltb_spec a b)
          | H : context [N.eqb ?a ?b] |- _ => destruct (N.eqb_spec a b)
          end; cbn [andb orb negb] in *);
  first [reflexivity | exfalso; lia].

Lemma slug_unit_ascii (c : N) :
  is_ascii (if is_slug_unit c then c else 45) = true.
Proof. units. Qed.

Lemma session_unit_name (c : N) : Spec.is_name_unit (Spec.session_unit c) = true.
Proof. units. Qed.

Lemma session_unit_lower (c : N) :
  lower_unit (if is_slug_unit c then c else 45) = Spec.session_unit c.
Proof. units. Qed.

Lemma lower_replace (s : jsstring) :
  toLowerCase unicodeLower (replace_non_slug s) = map Spec.session_unit s.
Proof.
  unfold toLowerCase, replace_non_slug.
  replace (forallb is_ascii _) with true.
  - rewrite map_map. apply map_ext. intros c. apply session_unit_lower.
  - symmetry. apply forallb_forall. intros c Hc.
    apply in_map_iff in Hc as (c' & <- & _). apply slug_unit_ascii.
Qed.

Lemma sessionName_units (agentId taskSlug : jsstring) :
  Base.sessionName unicodeLower agentId taskSlug =
  map Spec.session_unit (lit "ralphy-" ++ agentId ++ lit "-" ++ taskSlug).
Proof. apply lower_replace. Qed.

Lemma names_all (s : jsstring) :
  forallb Spec.is_name_unit (map Spec.session_unit s) = true.
Proof.
  apply forallb_forall. intros c Hc.
  apply in_map_iff in Hc as (c' & <- & _). apply session_unit_name.
Qed.

Lemma sessionName_regex (agentId taskSlug : jsstring) :
  agentId <> [] -> taskSlug <> [] ->
  Spec.session_regex (Base.sessionName unicodeLower agentId taskSlug).
Proof.
  intros Ha Hs. rewrite sessionName_units.
  exists (map Spec.session_unit agentId), (map Spec.session_unit taskSlug).
  repeat split.
  - now rewrite !map_app.
  - destruct agentId; [contradiction | discriminate].
  - destruct taskSlug; [contradiction | discriminate].
  - apply names_all.
  - apply names_all.
Qed.

(** C7, amended.  The session name is the string
    ralphy-<agentId>-<taskSlug> with every code unit outside
    [A-Za-z0-9-] replaced by a dash and the others lower-cased.  When
    the agent identifier and the task slug are both non-empty, as
    [execCommand] requires before it takes the multiplexer variant,
    the name matches ^ralphy-[a-z0-9-]+-[a-z0-9-]+$.  The name that
    [execCommand] derives from the options of the agent runtime is the
    name the runtime computed, and it matches the expression. *)
Theorem session_name_derivation :
  (forall agentId taskSlug : jsstring,
      Base.sessionName unicodeLower agentId taskSlug =
      map Spec.session_unit (lit "ralphy-" ++ agentId ++ lit "-" ++ taskSlug))
  /\ (forall agentId taskSlug : jsstring,
        agentId <> [] -> taskSlug <> [] ->
        Spec.session_regex (Base.sessionName unicodeLower agentId taskSlug))
  /\ (forall (o : Parallel.Options) (agentNum : N) (t : Tasks.Task)
             (name : jsstring),
        Base.execCommand_session unicodeLower
          (Some (Parallel.engineOptions unicodeLower o agentNum t)) = Some name ->
        name = Parallel.runtimeSessionName unicodeLower agentNum t
        /\ Spec.session_regex name).
Proof.
  split; [exact sessionName_units|split; [exact sessionName_regex|]].
  intros o agentNum t name.
  unfold Base.execCommand_session, Base.tmuxRequest, Parallel.engineOptions.
  cbn [Types.tmux Types.agentId Types.taskSlug].
  destruct (Parallel.tmux o); [|discriminate].
  destruct (Parallel.toString agentNum) as [|a i] eqn:Ei; [discriminate|].
  destruct (Parallel.taskSlug_of unicodeLower (Tasks.title t)) as [|c s] eqn:Es;
    [discriminate|].
  cbn. intros [= <-]. split.
  - unfold Parallel.runtimeSessionName. now rewrite Ei, Es.
  - now apply sessionName_regex.
Qed.

End SessionNames.

(** C7 as stated fails for an empty task slug: for agent 1 the name is
    ralphy-1-, which the expression does not match. *)
Lemma session_name_regex_counterexample :
  ~ Spec.session_regex (Base.sessionName (fun s => s) (lit "1") []).
Proof.
  intros (a & b & E & Ha & Hb & _).
  vm_compute in E.
  destruct a as [|x [|y a]]; simplify_eq/=.
  destruct a; discriminate.
Qed.

Lemma session_name_derivation_witness :
  Spec.session_regex (Base.sessionName (fun s => s) (lit "12") (lit "add-login")).
Proof.
  apply (proj1 (proj2 (session_name_derivation (fun s => s)))); discriminate.
Defined.

(** ** The state registry *)

Section Registry.

Context {W : Type} `{!State.Host W}.

(** C10, amended.  [updateState] for an agent identifier that is not
    a name that every object inherits changes the record of its agent
    and the time stamps only.  The records of the other agents and the
    summary totals are as before.  In the record of the agent,
    [lastUpdate] is the current time, a property named in the patch
    has the value the patch gives it, and any other property has the
    value it had, or, on the first update of the agent, the value of
    the record that the update creates. *)
Theorem updateState_frame
    (agentId : jsstring) (updates : gmap (list N) State.value)
    (workDir : jsstring) (st : State.RalphyState) (w : W) :
  State.inheritedName agentId = false ->
  let t := (State.now w).1 in
  let st' := (State.updateState agentId updates workDir (st, w)).1 in
  let before :=
    default (State.newAgent agentId t) (State.agents st !! agentId) in
  (forall other : jsstring,
      other <> agentId ->
      State.agents st' !! other = State.agents st !! other)
  /\ State.summary st' = State.summary st
  /\ State.lastUpdate st' = t
  /\ exists record : gmap (list N) State.value,
       State.agents st' !! agentId = Some record
       /\ record !! lit "lastUpdate" = Some (State.VString t)
       /\ forall field : jsstring,
            field <> lit "lastUpdate" ->
            record !! field =
            match updates !! field with
            | Some v => Some v
            | None => before !! field
            end.
Proof.
  intros Hown.
  unfold State.updateState. destruct (State.now w) as [t w1]. cbn [fst snd].
  unfold State.updateDocument. rewrite Hown.
  cbn [State.agents State.summary State.lastUpdate].
  split; [|split; [reflexivity|split; [reflexivity|]]].
  - intros other Hne. rewrite lookup_insert_ne by congruence.
    destruct (State.agents st !! agentId); [reflexivity|].
    now rewrite lookup_insert_ne by congruence.
  - eexists. split; [apply lookup_insert_eq|]. split; [apply lookup_insert_eq|].
    intros field Hne. rewrite lookup_insert_ne by congruence.
    rewrite lookup_union.
    destruct (State.agents st !! agentId) as [r|] eqn:E.
    + rewrite E. simpl.
      destruct (updates !! field), (r !! field); reflexivity.
    + rewrite lookup_insert_eq. simpl.
      destruct (updates !! field), (State.newAgent agentId t !! field); reflexivity.
Qed.

End Registry.

(** ** The parallel scheduler *)

Section MergeAndCleanup.

Import Parallel.

Context {W : Type}.
Context `{!State.Host W, !Tasks.TaskSource W, !Git.Repository W,
          !Engine.AIEngine W}.

(** C5.  For an agent result with a non-empty workspace directory:
    with tmux set and the agent failed (an error came back, or the
    engine result is not a success) the workspace is kept and its path
    shown, and no cleanup is asked for; in every other case cleanup is
    asked of the workspace provider, and the notice that the workspace
    was left in place follows exactly when the provider says so. *)
Theorem workspace_cleanup_policy
    (o : Options) (r : ParallelAgentResult) (s : Run (W := W)) :
  worktreeDir r <> [] ->
  let s1 := recordOutcome o r s in
  let s2 := processResult o s r in
  (agentFailed r = true <->
     (exists c msg, error r = Some (c :: msg))
     \/ (forall a, result r = Some a -> Types.success a = false))
  /\ (tmux o = true -> agentFailed r = true ->
      world s2 = world s1
      /\ trace s2 = trace s1 ++ [Preserved (worktreeDir r)])
  /\ (tmux o = false \/ agentFailed r = false ->
      world s2 =
        (Git.cleanupAgentWorktree (worktreeDir r) (branchName r) (workDir o)
           (world s1)).2
      /\ trace s2 =
         trace s1 ++
         Cleanup (worktreeDir r) (branchName r) ::
         (if (Git.cleanupAgentWorktree (worktreeDir r) (branchName r)
                (workDir o) (world s1)).1
          then [LeftInPlace (worktreeDir r)] else [])).
Proof.
  intros Hdir s1 s2. split; [|split].
  - unfold agentFailed, str_truthy, succeeded.
    destruct (error r) as [[|c msg]|]; destruct (result r) as [a|]; cbn;
      try destruct (Types.success a) eqn:Ea; cbn; split;
      try (intros _; first [left; eauto; fail | right; congruence]);
      try (intros [(c' & m' & E)|E]; [congruence|]);
      try reflexivity; try discriminate;
      try (specialize (E a eq_refl); congruence).
  - intros Ht Hf. subst s1 s2. unfold processResult, cleanupWorktree.
    destruct (worktreeDir r) as [|c dir] eqn:E; [contradiction|].
    cbn [nonempty]. rewrite Ht, Hf. cbn [andb]. split; reflexivity.
  - intros Hcase. subst s1 s2. unfold processResult, cleanupWorktree.
    destruct (worktreeDir r) as [|c dir] eqn:E; [contradiction|].
    cbn [nonempty].
    replace (tmux o && agentFailed r) with false
      by (destruct Hcase as [-> | ->]; [reflexivity | now rewrite andb_false_r]).
    destruct (Git.cleanupAgentWorktree _ _ _ _) as [[|] w]; cbn;
      rewrite <- ?app_assoc; split; reflexivity.
Qed.


(** *** The merge pipeline *)








End MergeAndCleanup.

Section Loop.

Import Parallel.

Context {W : Type}.
Context `{!State.Host W, !Tasks.TaskSource W, !Git.Repository W,
          !Engine.AIEngine W}.

Variable unicodeLower : jsstring -> jsstring.

(** C4.  After the loop, with no completed branch, or with skipMerge
    or dryRun set, nothing more is done: the merge pipeline is not
    called and the starting branch is not restored.  With a completed
    branch and neither flag set, the merge pipeline runs on the
    completed branches and the effective base branch, the current
    branch is read, and the starting branch is restored exactly when
    the current branch differs from it.  The effective base branch is
    the base branch of the options, or the starting branch when that
    is empty. *)
Theorem merge_phase_after_loop (fuel : nat) (o : Options)
    (rw : State.RalphyState * W) (res : ExecutionResult) (s' : Run) :
  runParallel unicodeLower fuel o rw = Some (res, s') ->
  exists (s : Run) (startingBranch effectiveBase : jsstring),
    runBatches unicodeLower fuel o rw = (false, s)
    /\ startingBranch = (Git.getCurrentBranch (workDir o) rw.2).1
    /\ effectiveBase =
       (if nonempty (baseBranch o) then baseBranch o else startingBranch)
    /\ (completedBranches s = [] \/ skipMerge o = true \/ dryRun o = true ->
        s' = s)
    /\ (completedBranches s <> [] -> skipMerge o = false -> dryRun o = false ->
        let merged :=
          mergeCompletedBranches (completedBranches s) effectiveBase
            (workDir o) (modelOverride o) s in
        let current := Git.getCurrentBranch (workDir o) (world merged) in
        (current.1 <> startingBranch ->
         s' = emit (RestoreStartingBranch startingBranch)
                (with_world
                   (Git.returnToBaseBranch startingBranch (workDir o) current.2)
                   (with_world current.2 merged)))
        /\ (current.1 = startingBranch -> s' = with_world current.2 merged)).
Proof.
  unfold runParallel, runBatches, prologue.
  destruct (Git.getCurrentBranch (workDir o) rw.2) as [startingBranch w1] eqn:Eb.
  destruct (batchLoop _ _ _ _ _) as [[|] s] eqn:El; [discriminate|].
  intros [= <- <-].
  exists s, startingBranch,
    (if nonempty (baseBranch o) then baseBranch o else startingBranch).
  split; [reflexivity|]. split; [reflexivity|]. split; [reflexivity|].
  assert (Ebase : (match baseBranch o with
                   | [] => startingBranch
                   | _ :: _ => baseBranch o
                   end) =
                  (if nonempty (baseBranch o) then baseBranch o else startingBranch))
    by now destruct (baseBranch o).
  rewrite Ebase. unfold mergePhase. split.
  - intros [E | [E | E]]; rewrite E; cbn;
      rewrite ?andb_false_r; reflexivity.
  - intros Hne Hs Hd. rewrite Hs, Hd.
    destruct (completedBranches s) as [|b bs] eqn:Ec; [contradiction|].
    cbn [negb andb nonempty_list].
    match goal with
    | |- context [Git.getCurrentBranch (workDir o) (world ?m)] =>
        destruct (Git.getCurrentBranch (workDir o) (world m)) as [current w]
    end.
    cbn [fst snd]. split; intros Hcur.
    + now rewrite bool_decide_eq_true_2.
    + now rewrite bool_decide_eq_false_2 by (intros ?; contradiction).
Qed.

(** *** Failed tasks are not taken up again *)

Lemma failed_in_app (a b : list event) :
  Spec.failed_in (a ++ b) = Spec.failed_in a ∪ Spec.failed_in b.
Proof.
  induction a as [|e a IH]; cbn.
  - now rewrite (left_id_L ∅ (∪)).
  - destruct e; rewrite ?IH; try reflexivity.
    now rewrite (assoc_L (∪)).
Qed.

Lemma extends_refl (s : Run (W := W)) : Spec.extends s s.
Proof.
  exists []. rewrite app_nil_r. cbn. rewrite (right_id_L ∅ (∪)).
  repeat split. intros i b Hin. now apply elem_of_nil in Hin.
Qed.

Lemma extends_trans (s1 s2 s3 : Run (W := W)) :
  Spec.extends s1 s2 -> Spec.extends s2 s3 -> Spec.extends s1 s3.
Proof.
  intros (e1 & Ht1 & Hf1 & Hb1) (e2 & Ht2 & Hf2 & Hb2).
  exists (e1 ++ e2). rewrite Ht2, Ht1, Hf2, Hf1, failed_in_app, !app_assoc.
  split; [reflexivity|]. split; [now rewrite (assoc_L (∪))|].
  intros i b Hin. apply elem_of_app in Hin as [Hin|Hin]; naive_solver.
Qed.

(** A state that differs in neither the trace nor the failed set. *)
Lemma extends_same (s s' : Run (W := W)) :
  trace s' = trace s -> failedTaskIds s' = failedTaskIds s -> Spec.extends s s'.
Proof.
  intros Ht Hf. exists []. rewrite Ht, Hf, app_nil_r. cbn.
  rewrite (right_id_L ∅ (∪)). repeat split.
  intros i b Hin. now apply elem_of_nil in Hin.
Qed.

Lemma extends_emit (e : event) (s : Run (W := W)) :
  Spec.failed_in [e] = ∅ -> (forall i b, e <> Batch i b) ->
  Spec.extends s (emit e s).
Proof.
  intros He Hb. exists [e]. cbn [trace emit failedTaskIds]. rewrite He.
  rewrite (right_id_L ∅ (∪)). repeat split.
  intros i b Hin. apply list_elem_of_singleton in Hin. now apply (Hb i b).
Qed.

Lemma extends_recordFailure (o : Options) (t : Tasks.Task) (msg : jsstring)
    (s : Run (W := W)) :
  Spec.extends s (recordFailure o t msg s).
Proof.
  exists [TaskFailed t msg]. unfold recordFailure, summarise.
  cbn. rewrite (right_id_L ∅ (∪)). split; [reflexivity|].
  split; [apply (comm_L (∪))|].
  intros i b Hin. apply list_elem_of_singleton in Hin. discriminate Hin.
Qed.

Lemma extends_recordSuccess (o : Options) (r : ParallelAgentResult)
    (a : Types.AIResult) (s : Run (W := W)) :
  Spec.extends s (recordSuccess o r a s).
Proof.
  unfold recordSuccess, summarise.
  eapply extends_trans; [apply (extends_emit (TaskCompleted (task r)));
                         [reflexivity | discriminate]|].
  destruct (nonempty (branchName r)); now apply extends_same.
Qed.

Lemma extends_processResult (o : Options) (s : Run (W := W))
    (r : ParallelAgentResult) :
  Spec.extends s (processResult o s r).
Proof.
  unfold processResult.
  eapply (extends_trans _ (recordOutcome o r s)).
  - unfold recordOutcome.
    destruct (error r) as [[|c msg]|]; try apply extends_recordFailure;
      (destruct (result r) as [a|]; [|apply extends_recordFailure]);
      (destruct (Types.success a);
       [apply extends_recordSuccess | apply extends_recordFailure]).
  - unfold cleanupWorktree. generalize (recordOutcome o r s). intros s1.
    destruct (nonempty (worktreeDir r)); [|apply extends_refl].
    destruct (tmux o && agentFailed r).
    + apply extends_emit; [reflexivity | discriminate].
    + destruct (Git.cleanupAgentWorktree _ _ _ _) as [left w].
      eapply (extends_trans _ (emit (Cleanup (worktreeDir r) (branchName r)) s1)).
      * apply extends_emit; [reflexivity | discriminate].
      * destruct left.
        -- eapply extends_trans; [|apply extends_emit; [reflexivity | discriminate]].
           now apply extends_same.
        -- now apply extends_same.
Qed.

Lemma extends_results (o : Options) (rs : list ParallelAgentResult)
    (s : Run (W := W)) :
  Spec.extends s (fold_left (processResult o) rs s).
Proof.
  revert s. induction rs as [|r rs IH]; intros s; [apply extends_refl|].
  cbn [fold_left]. eapply extends_trans; [apply extends_processResult | apply IH].
Qed.

Lemma extends_launch (o : Options) (worktreeBase : jsstring)
    (batch : list Tasks.Task) (s : Run (W := W)) :
  Spec.extends s (launch unicodeLower o worktreeBase batch s).2.
Proof.
  revert s. induction batch as [|t batch IH]; intros s; [apply extends_refl|].
  cbn [launch].
  destruct (runAgentInWorktree _ _ _ _ _ _) as [r rw].
  specialize (IH (with_env rw (next_agent s))).
  destruct (launch _ _ _ _ _) as [rs s2]. cbn [snd] in *.
  eapply extends_trans; [|exact IH]. now apply extends_same.
Qed.

Lemma consistent_extends (s s' : Run (W := W)) :
  Spec.consistent s -> Spec.extends s s' -> Spec.consistent s'.
Proof.
  intros [Hf Hok] (evs & Ht & Hf' & Hb). split.
  - now rewrite Hf', Ht, failed_in_app, Hf.
  - intros pre i b post E t Hin. rewrite Ht in E.
    apply app_eq_app in E as [l [[E1 E2] | [E1 E2]]].
    + destruct l as [|e l].
      * cbn in E2. exfalso. apply (Hb i b). rewrite <- E2. apply elem_of_cons. now left.
      * injection E2 as <- E2. exact (Hok pre i b l E1 t Hin).
    + exfalso. apply (Hb i b). rewrite E2.
      apply elem_of_app. right. apply elem_of_cons. now left.
Qed.

Lemma consistent_batch (i : Z) (batch : list Tasks.Task) (s : Run (W := W)) :
  Spec.consistent s ->
  (forall t, t ∈ batch -> Tasks.id t ∉ failedTaskIds s) ->
  Spec.consistent (emit (Batch i batch) s).
Proof.
  intros [Hf Hok] Hfree. split.
  - cbn [failedTaskIds trace emit]. rewrite failed_in_app, Hf. cbn.
    now rewrite (right_id_L ∅ (∪)).
  - intros pre i' b' post E t Hin. cbn [trace emit] in E.
    apply app_eq_app in E as [l [[E1 E2] | [E1 E2]]].
    + destruct l as [|e l]; simplify_eq/=.
      * rewrite app_nil_r in E1. rewrite <- E1, <- Hf. now apply Hfree.
      * exact (Hok pre i' b' l E1 t Hin).
    + destruct l as [|e l]; simplify_eq/=.
      * rewrite app_nil_r, <- Hf. now apply Hfree.
      * destruct l; discriminate.
Qed.

Lemma consistent_batchStep (o : Options) (worktreeBase : jsstring)
    (s : Run (W := W)) :
  Spec.consistent s -> Spec.consistent (batchStep unicodeLower o worktreeBase s).2.
Proof.
  intros Hs. unfold batchStep.
  destruct ((0 <? maxIterations o)%Z && (maxIterations o <=? iteration s)%Z).
  { eapply consistent_extends; [exact Hs|].
    apply extends_emit; [reflexivity | discriminate]. }
  destruct (offeredTasks (world s)) as [[allTasks|] w1].
  2: { eapply consistent_extends; [exact Hs|]. now apply extends_same. }
  set (s1 := with_world w1 s).
  assert (Hc1 : Spec.consistent s1)
    by (eapply consistent_extends; [exact Hs|]; now apply extends_same).
  destruct (List.filter (notFailed s1) allTasks) as [|t0 tasks] eqn:Etasks.
  { cbn [snd]. eapply consistent_extends; [exact Hc1|].
    destruct allTasks; (apply extends_emit; [reflexivity | discriminate]). }
  set (s2 := if (iteration s1 =? 0)%Z then _ else s1).
  assert (Hc2 : trace s2 = trace s1 /\ failedTaskIds s2 = failedTaskIds s1).
  { subst s2. destruct (iteration s1 =? 0)%Z; [|now split].
    destruct (Tasks.countRemaining (world s1)) as [n w2]. now split. }
  destruct Hc2 as [Ht2 Hf2].
  set (batch := slice0 (t0 :: tasks) (maxParallel o)).
  set (s4 := summarise _ o (emit (Batch (iteration s2 + 1) batch) (next_iteration s2))).
  assert (Hc4 : Spec.consistent s4).
  { eapply (consistent_extends (emit (Batch (iteration s2 + 1) batch) s2)).
    - apply consistent_batch.
      + eapply consistent_extends; [exact Hc1|]. now apply extends_same.
      + intros t Hin. rewrite Hf2.
        assert (Hin' : t ∈ List.filter (notFailed s1) allTasks).
        { rewrite Etasks. subst batch. unfold slice0 in Hin.
          destruct (maxParallel o <? 0)%Z;
            apply elem_of_take in Hin as (k & Hk & _);
            exact (list_elem_of_lookup_2 _ _ _ Hk). }
        apply list_elem_of_In, filter_In in Hin' as [_ Hn].
        unfold notFailed in Hn. now apply bool_decide_eq_true in Hn.
    - now apply extends_same. }
  destruct (dryRun o).
  { cbn [snd]. eapply consistent_extends; [exact Hc4|].
    apply extends_emit; [reflexivity | discriminate]. }
  pose proof (extends_launch o worktreeBase batch s4) as Hl.
  destruct (launch unicodeLower o worktreeBase batch s4) as [results s5].
  cbn [snd] in *.
  eapply consistent_extends; [|apply extends_results].
  eapply consistent_extends; [exact Hc4 | exact Hl].
Qed.

Lemma consistent_batchLoop (fuel : nat) (o : Options) (worktreeBase : jsstring)
    (s : Run (W := W)) :
  Spec.consistent s ->
  Spec.consistent (batchLoop unicodeLower fuel o worktreeBase s).2.
Proof.
  revert s. induction fuel as [|fuel IH]; intros s Hs; [exact Hs|].
  cbn [batchLoop].
  pose proof (consistent_batchStep o worktreeBase s Hs) as Hstep.
  destruct (batchStep unicodeLower o worktreeBase s) as [[|] s']; cbn [snd] in *.
  - now apply IH.
  - exact Hstep.
Qed.

Lemma never_again_of_consistent (s : Run (W := W)) :
  Spec.consistent s -> Spec.never_again (trace s).
Proof.
  intros [_ Hok] before after t msg i batch E Hin t' Hin' Eid.
  apply list_elem_of_split in Hin as (a1 & a2 & ->).
  apply (Hok (before ++ TaskFailed t msg :: a1) i batch a2) in Hin'.
  - apply Hin'. rewrite failed_in_app. cbn. rewrite Eid.
    apply elem_of_union. right. apply elem_of_union. left.
    now apply elem_of_singleton.
  - now rewrite E, <- app_assoc.
Qed.

Lemma extends_then_emit (e : event) (s s' : Run (W := W)) :
  Spec.extends s s' ->
  Spec.failed_in [e] = ∅ -> (forall i b, e <> Batch i b) ->
  Spec.extends s (emit e s').
Proof.
  intros Hs He Hb. eapply extends_trans; [exact Hs | now apply extends_emit].
Qed.

Lemma extends_then_world (w : W) (s s' : Run (W := W)) :
  Spec.extends s s' -> Spec.extends s (with_world w s').
Proof.
  intros Hs. eapply extends_trans; [exact Hs | now apply extends_same].
Qed.

Ltac onwards :=
  repeat first
    [ apply extends_refl
    | apply extends_then_world
    | apply extends_then_emit; [|reflexivity|discriminate] ].

Lemma extends_mergeBranch (targetBranch dir : jsstring) (mo : option jsstring)
    (merged failed : list jsstring) (s : Run (W := W)) (branch : jsstring) :
  Spec.extends s (mergeBranch targetBranch dir mo (merged, failed, s) branch).2.
Proof.
  unfold mergeBranch.
  destruct (Git.mergeAgentBranch _ _ _ _) as [mr w1].
  destruct (Git.success mr); [cbn [snd]; onwards|].
  destruct (Git.hasConflicts mr), (Git.conflictedFiles mr) as [files|];
    try (cbn [snd]; onwards).
  destruct (Engine.resolveConflictsWithAI _ _ _ _ _) as [[|] w2];
    cbn [snd]; onwards.
Qed.

Lemma extends_mergeLoop (targetBranch dir : jsstring) (mo : option jsstring)
    (branches merged failed : list jsstring) (s : Run (W := W)) :
  Spec.extends s
    (fold_left (mergeBranch targetBranch dir mo) branches (merged, failed, s)).2.
Proof.
  revert merged failed s.
  induction branches as [|b bs IH]; intros merged failed s; [apply extends_refl|].
  cbn [fold_left].
  pose proof (extends_mergeBranch targetBranch dir mo merged failed s b) as Hb.
  destruct (mergeBranch targetBranch dir mo (merged, failed, s) b) as [[m f] s1].
  eapply extends_trans; [exact Hb | apply IH].
Qed.

Lemma extends_deleteMerged (dir : jsstring) (merged : list jsstring)
    (s : Run (W := W)) :
  Spec.extends s (fold_left (deleteMerged dir) merged s).
Proof.
  revert s. induction merged as [|b bs IH]; intros s; [apply extends_refl|].
  cbn [fold_left]. eapply extends_trans; [|apply IH].
  unfold deleteMerged. destruct (Git.deleteLocalBranch _ _ _ _) as [d w].
  onwards.
Qed.

Lemma extends_mergePhase (o : Options) (startingBranch base : jsstring)
    (s : Run (W := W)) :
  Spec.extends s (mergePhase o startingBranch base s).
Proof.
  unfold mergePhase.
  destruct (negb (skipMerge o) && negb (dryRun o)
            && nonempty_list (completedBranches s)); [|apply extends_refl].
  assert (Hm : Spec.extends s
                 (mergeCompletedBranches (completedBranches s) base (workDir o)
                    (modelOverride o) s)).
  { unfold mergeCompletedBranches.
    destruct (completedBranches s) as [|b bs]; [apply extends_refl|].
    pose proof (extends_mergeLoop base (workDir o) (modelOverride o) (b :: bs)
                  [] [] (emit (MergePhase (b :: bs) base) s)) as Hl.
    destruct (fold_left _ (b :: bs) _) as [[merged failed] s1]. cbn [snd] in Hl.
    apply extends_then_emit; [|reflexivity|discriminate].
    eapply extends_trans; [|apply extends_deleteMerged].
    eapply extends_trans; [|exact Hl]. onwards. }
  destruct (Git.getCurrentBranch _ _) as [current w].
  destruct (bool_decide (current ≠ startingBranch)); onwards; exact Hm.
Qed.

(** C2.  At every point of every run of [runParallel], that is after
    any number of turns of its loop: a task recorded as failed, whose
    identifier then is in the failed set, is in no batch that starts
    later; and the failed set holds the identifiers of the tasks
    recorded as failed, and no others.  The same holds of the whole
    trace of a run that ends. *)
Theorem failed_tasks_never_again (fuel : nat) (o : Options)
    (rw : State.RalphyState * W) :
  let s := (runBatches unicodeLower fuel o rw).2 in
  (forall before after t message i batch,
      trace s = before ++ TaskFailed t message :: after ->
      Batch i batch ∈ after ->
      forall t', t' ∈ batch -> Tasks.id t' <> Tasks.id t)
  /\ failedTaskIds s = Spec.failed_in (trace s)
  /\ (forall pre i batch post,
        trace s = pre ++ Batch i batch :: post ->
        forall t, t ∈ batch -> Tasks.id t ∉ Spec.failed_in pre)
  /\ (forall res s',
        runParallel unicodeLower fuel o rw = Some (res, s') ->
        Spec.never_again (trace s')).
Proof.
  intros s.
  assert (Hs : Spec.consistent s).
  { subst s. unfold runBatches, prologue.
    destruct (Git.getCurrentBranch _ _) as [startingBranch w1].
    apply consistent_batchLoop. split; [reflexivity|].
    intros pre i b post E. cbn in E. destruct pre; discriminate E. }
  split; [exact (never_again_of_consistent s Hs)|].
  split; [exact (proj1 Hs)|]. split; [exact (proj2 Hs)|].
  intros res s'. subst s. revert Hs. unfold runParallel, runBatches, prologue.
  destruct (Git.getCurrentBranch _ _) as [startingBranch w1].
  destruct (batchLoop _ _ _ _ _) as [[|] s1]; [discriminate|].
  cbn [snd]. intros Hs [= _ <-].
  apply never_again_of_consistent.
  eapply consistent_extends; [exact Hs | apply extends_mergePhase].
Qed.

End Loop.

(** ** The properties at work in the small world *)

(** The sixth scenario of the specification: the task that failed in
    the first batch is not in the second, and the run stops when only it
    is left. *)
Example failure_memoization :
  Example.shown1 =
  [ Parallel.Batch 1 [Example.bad];
    Parallel.TaskFailed Example.bad (lit "no");
    Parallel.Preserved (lit "/tmp/worktrees/agent-1");
    Parallel.Batch 2 [Example.good];
    Parallel.TaskCompleted Example.good;
    Parallel.Cleanup (lit "/tmp/worktrees/agent-2") (lit "ralphy/agent-2");
    Parallel.PendingButFailedBefore 1 ].
Proof. vm_compute. reflexivity. Qed.

(** C1 as stated fails on a line with a field that is not a text: the
    read rule applies to the record, and the classifier answers with no
    label. *)
Lemma classifier_rule_order_counterexample :
  Spec.step (fun s => s) (quoted "{'tool':'Read','command':5}")
  = Some (lit "Reading code")
  /\ Base.detectStepFromOutput (fun s => s) (quoted "{'tool':'Read','command':5}")
     = None
  /\ Base.detectStepFromOutput (fun s => s) (quoted "{'tool':'Read','command':5}")
     <> Spec.step (fun s => s) (quoted "{'tool':'Read','command':5}").
Proof.
  split; [vm_compute; reflexivity|].
  split; [vm_compute; reflexivity | vm_compute; discriminate].
Qed.

Lemma classifier_rule_order_witness :
  Base.detectStepFromOutput (fun s => s)
    (quoted "  {'name':'Edit','tool':null,'filePath':'src/A.Spec.ts'}")
  = Spec.first_match Spec.rules (Spec.examined (fun s => s) Example.editRecord).
Proof.
  apply (proj1 (classifier_rule_order (fun s => s)
                  identity_lower_twice identity_lower_empty));
    reflexivity.
Defined.



(** C10 as stated fails for an agent identifier that is a name every
    object inherits: the first update under the name "constructor"
    finds the inherited function, creates no default record, and leaves
    a record without the status that a new record has. *)
Lemma updateState_frame_counterexample :
  State.agents Example.registry0 !! lit "constructor" = None
  /\ State.newAgent (lit "constructor") (State.now Example.world0).1 !! lit "status"
     = Some (State.VString (lit "pending"))
  /\ exists record,
       State.agents
         (State.updateState (lit "constructor")
            {[ lit "step" := State.VString (lit "x") ]}
            (lit "/repo") (Example.registry0, Example.world0)).1
       !! lit "constructor" = Some record
       /\ record !! lit "status" = None.
Proof.
  split; [reflexivity|]. split; [vm_compute; reflexivity|].
  eexists. split; [vm_compute; reflexivity | vm_compute; reflexivity].
Qed.

Lemma updateState_frame_witness :
  State.agents
    (State.updateState (lit "1") {[ lit "step" := State.VString (lit "Testing") ]}
       (lit "/repo") (Example.registry1, Example.world0)).1 !! lit "2"
  = State.agents Example.registry1 !! lit "2".
Proof.
  apply (proj1 (updateState_frame (lit "1")
                  {[ lit "step" := State.VString (lit "Testing") ]}
                  (lit "/repo") Example.registry1 Example.world0 eq_refl)).
  discriminate.
Defined.

Lemma workspace_cleanup_policy_witness :
  Parallel.trace
    (Parallel.processResult Example.options
       (Parallel.start (Example.registry0, Example.world0)) Example.failedResult)
  = Parallel.trace
      (Parallel.recordOutcome Example.options Example.failedResult
         (Parallel.start (Example.registry0, Example.world0)))
    ++ [Parallel.Preserved (lit "/tmp/worktrees/agent-2")].
Proof.
  apply (proj1 (proj2 (workspace_cleanup_policy Example.options
                         Example.failedResult
                         (Parallel.start (Example.registry0, Example.world0))
                         ltac:(discriminate)))); reflexivity.
Defined.

Lemma example_run_ends :
  Parallel.runParallel (fun s => s) 5 Example.options
    (Example.registry0, Example.world0) = Some (Example.totals, Example.final).
Proof. vm_compute. reflexivity. Qed.

Lemma merge_phase_after_loop_witness :
  exists (s : Parallel.Run) (startingBranch effectiveBase : jsstring),
    Parallel.runBatches (fun s => s) 5 Example.options
      (Example.registry0, Example.world0) = (false, s)
    /\ startingBranch = lit "feat/x"
    /\ effectiveBase = startingBranch.
Proof.
  destruct (merge_phase_after_loop (fun s => s) 5 Example.options
              (Example.registry0, Example.world0)
              Example.totals Example.final example_run_ends)
    as (s & startingBranch & effectiveBase & Es & Eb & Ee & _).
  exists s, startingBranch, effectiveBase.
  split; [exact Es|]. split; [exact Eb | exact Ee].
Defined.


(** In the small world the branch of the completed task, and no other,
    is deleted after the merge. *)
Example merged_branch_deleted :
  Example.deleted (Parallel.world Example.final) = [lit "ralphy/agent-1"].
Proof. vm_compute. reflexivity. Qed.

Lemma failed_tasks_never_again_witness :
  Tasks.id Example.good <> Tasks.id Example.bad.
Proof.
  apply (proj1 (failed_tasks_never_again (fun s => s) 5 Example.options1
                  (Example.registry0, Example.world1))
           (take 1 Example.shown1) (drop 2 Example.shown1)
           Example.bad (lit "no") 2%Z [Example.good]).
  - vm_compute. reflexivity.
  - vm_compute. apply elem_of_cons. right. apply elem_of_cons. left. reflexivity.
  - apply elem_of_cons. now left.
Defined.

(** * Further properties *)

(** ** The process driver *)

Section Quoting.

Import Driver.

Lemma plain_not_special (c : N) :
  Shell.plain c = true -> (c =? 32) = false /\ (c =? 39) = false /\ (c =? 92) = false.
Proof.
  intros H. repeat split; apply N.eqb_neq; intros ->; discriminate H.
Qed.

Lemma words_quoted (a acc rest : jsstring) :
  Shell.words (Shell.Quoted acc) (escapeQuotes a ++ 39 :: rest)
  = Shell.words (Shell.Word (rev a ++ acc)) rest.
Proof.
  revert acc. induction a as [|c a IH]; intros acc.
  - cbn. reflexivity.
  - cbn [escapeQuotes]. destruct (N.eqb_spec c 39) as [->|Hc].
    + cbn [app Shell.words N.eqb Pos.eqb]. rewrite IH.
      cbn [rev]. now rewrite <- app_assoc.
    + cbn [app Shell.words]. apply N.eqb_neq in Hc. rewrite Hc, IH.
      cbn [rev]. now rewrite <- app_assoc.
Qed.

Lemma words_quoteArg (a rest : jsstring) :
  Shell.words Shell.Blank (quoteArg a ++ rest)
  = Shell.words (Shell.Word (rev a)) rest.
Proof.
  unfold quoteArg. rewrite <- !app_assoc. cbn [app Shell.words N.eqb Pos.eqb].
  rewrite words_quoted. now rewrite app_nil_r.
Qed.

Lemma words_args (args : list jsstring) :
  Shell.words Shell.Blank (join (lit " ") (map quoteArg args)) = Some args.
Proof.
  induction args as [|a args IH]; [reflexivity|].
  destruct args as [|b args].
  - cbn [map join]. rewrite <- (app_nil_r (quoteArg a)), words_quoteArg.
    cbn. now rewrite rev_involutive.
  - change (join (lit " ") (map quoteArg (a :: b :: args)))
      with (quoteArg a ++ [32] ++ join (lit " ") (map quoteArg (b :: args))).
    rewrite words_quoteArg. cbn [app Shell.words N.eqb Pos.eqb].
    rewrite IH. cbn. now rewrite rev_involutive.
Qed.

Lemma words_command (command acc rest : jsstring) :
  forallb Shell.plain command = true ->
  Shell.words (Shell.Word acc) (command ++ 32 :: rest)
  = ws ← Shell.words Shell.Blank rest; Some ((rev acc ++ command) :: ws).
Proof.
  revert acc. induction command as [|c command IH]; intros acc Hp.
  - cbn. now rewrite app_nil_r.
  - cbn [forallb] in Hp. apply andb_true_iff in Hp as [Hc Hp].
    destruct (plain_not_special c Hc) as (H32 & H39 & H92).
    cbn [app Shell.words]. rewrite H32, H39, H92, Hc, IH by exact Hp.
    cbn [rev]. now rewrite <- app_assoc.
Qed.

Lemma fullCommand_words (command : jsstring) (args : list jsstring) :
  command <> [] ->
  forallb Shell.plain command = true ->
  Shell.words Shell.Blank (fullCommand command args) = Some (command :: args).
Proof.
  intros Hne Hp. unfold fullCommand. change (lit " ") with [32].
  destruct command as [|c command]; [contradiction|].
  cbn [forallb] in Hp. apply andb_true_iff in Hp as [Hc Hp].
  destruct (plain_not_special c Hc) as (H32 & H39 & H92).
  cbn [app Shell.words]. rewrite H32, H39, H92, Hc.
  rewrite (words_command command [c] _ Hp), words_args. reflexivity.
Qed.

(** X1.  The command line that [execTmuxCommand] builds is
    unambiguous: two command lines that are the same text were built
    from the same command and the same arguments, whatever code units
    the arguments hold (apostrophes, blanks, backslashes), when the
    commands are non-empty plain words. *)
Theorem fullCommand_unambiguous (command command' : jsstring)
    (args args' : list jsstring) :
  command <> [] -> command' <> [] ->
  forallb Shell.plain command = true ->
  forallb Shell.plain command' = true ->
  fullCommand command args = fullCommand command' args' ->
  command = command' /\ args = args'.
Proof.
  intros Hne Hne' Hp Hp' E.
  pose proof (fullCommand_words command args Hne Hp) as Hw.
  rewrite E, (fullCommand_words command' args' Hne' Hp') in Hw.
  injection Hw as -> ->. now split.
Qed.

End Quoting.

Section Streaming.

Import Driver.

Lemma split_nonempty (sep : N) (s : jsstring) : split sep s <> [].
Proof.
  destruct s as [|c s]; cbn; [discriminate|].
  destruct (c =? sep); [discriminate|]. destruct (split sep s); discriminate.
Qed.

(** Splitting after a separator splits the two sides. *)
Lemma split_app_sep (sep : N) (a b : jsstring) :
  split sep (a ++ sep :: b) = split sep a ++ split sep b.
Proof.
  induction a as [|c a IH]; cbn [app split].
  - now rewrite N.eqb_refl.
  - rewrite IH. destruct (c =? sep); [reflexivity|].
    destruct (split sep a) as [|l ls] eqn:E; [now apply split_nonempty in E|].
    reflexivity.
Qed.

(** Splitting a text in two places: the last piece of the first part
    goes on in the second. *)
Lemma split_app (sep : N) (a b : jsstring) :
  split sep (a ++ b)
  = removelast (split sep a) ++ split sep (default [] (last (split sep a)) ++ b).
Proof.
  induction a as [|c a IH]; [reflexivity|].
  cbn [app split]. rewrite IH. destruct (N.eqb_spec c sep) as [->|Hc].
  - destruct (split sep a) as [|l ls] eqn:E; [now apply split_nonempty in E|].
    reflexivity.
  - destruct (split sep a) as [|l ls] eqn:E; [now apply split_nonempty in E|].
    destruct ls as [|l' ls]; [|reflexivity].
    cbn. apply N.eqb_neq in Hc. now rewrite Hc.
Qed.

(** The last piece of a split holds no separator. *)
Lemma split_last_piece (sep : N) (a : jsstring) :
  split sep (default [] (last (split sep a))) = [default [] (last (split sep a))].
Proof.
  induction a as [|c a IH]; [reflexivity|].
  cbn [split]. destruct (N.eqb_spec c sep) as [->|Hc].
  - destruct (split sep a) as [|l ls] eqn:E; [now apply split_nonempty in E|].
    exact IH.
  - destruct (split sep a) as [|l ls] eqn:E; [now apply split_nonempty in E|].
    destruct ls as [|l' ls]; [|exact IH].
    cbn in *. apply N.eqb_neq in Hc. now rewrite Hc, IH.
Qed.

Lemma readStream_loop (chunks : list jsstring) (buffer : jsstring)
    (shown : list jsstring) :
  split 10 buffer = [buffer] ->
  exists kept,
    (fold_left readStream_step chunks (buffer, shown)).2
    = shown ++ List.filter (fun line => nonempty (trim line)) kept
    /\ kept ++ [(fold_left readStream_step chunks (buffer, shown)).1]
       = split 10 (buffer ++ concat chunks).
Proof.
  revert buffer shown.
  induction chunks as [|chunk chunks IH]; intros buffer shown Hb.
  - cbn [fold_left concat fst snd]. rewrite app_nil_r, Hb. exists [].
    cbn. now rewrite app_nil_r.
  - cbn [fold_left concat].
    change (readStream_step (buffer, shown) chunk)
      with (default [] (last (split 10 (buffer ++ chunk))),
            shown ++ List.filter (fun line => nonempty (trim line))
                       (removelast (split 10 (buffer ++ chunk)))).
    destruct (IH (default [] (last (split 10 (buffer ++ chunk))))
                (shown ++ List.filter (fun line => nonempty (trim line))
                            (removelast (split 10 (buffer ++ chunk))))
                (split_last_piece 10 (buffer ++ chunk)))
      as (kept & Hs & Hk).
    exists (removelast (split 10 (buffer ++ chunk)) ++ kept).
    rewrite Hs, List.filter_app, <- !app_assoc. split; [reflexivity|].
    now rewrite Hk, app_assoc, <- split_app.
Qed.

(** X2.  [readStream] hands to [onLine] the non-blank lines of the
    whole text of the stream, in order, however the text is cut into
    chunks; an unterminated last line is handed over as well. *)
Theorem readStream_chunking (chunks : list jsstring) :
  readStream chunks
  = List.filter (fun line => nonempty (trim line)) (split 10 (concat chunks)).
Proof.
  unfold readStream.
  destruct (readStream_loop chunks [] [] eq_refl) as (kept & Hs & Hk).
  destruct (fold_left readStream_step chunks ([], [])) as [buffer shown].
  cbn [fst snd app] in *. rewrite <- Hk, List.filter_app, Hs. cbn [List.filter].
  destruct (nonempty (trim buffer)); [reflexivity | now rewrite app_nil_r].
Qed.

Lemma progress_lines_newline (a b : jsstring) :
  Base.progress_lines (a ++ 10 :: b)
  = Base.progress_lines a ++ Base.progress_lines b.
Proof.
  unfold Base.progress_lines. now rewrite split_app_sep, List.filter_app.
Qed.

(** X3.  When every read of the output file ends at a line end, the
    polling of [execTmuxCommand] hands on, read by read, the same
    lines as [readStream] does for the same text. *)
Theorem polling_lines_as_streaming (reads : list jsstring) :
  Forall (fun r => r = [] \/ exists a, r = a ++ [10]) reads ->
  concat (map Base.progress_lines reads) = readStream reads.
Proof.
  intros Hr.
  assert (Hsplit : readStream reads
                   = List.filter (fun line => nonempty (trim line))
                       (split 10 (concat reads))).
  { unfold readStream.
    destruct (readStream_loop reads [] [] eq_refl) as (kept & Hs & Hk).
    destruct (fold_left readStream_step reads ([], [])) as [buffer shown].
    cbn [fst snd app] in *. rewrite <- Hk, List.filter_app, Hs. cbn [List.filter].
    destruct (nonempty (trim buffer)); [reflexivity | now rewrite app_nil_r]. }
  rewrite Hsplit. clear Hsplit.
  fold (Base.progress_lines (concat reads)).
  induction Hr as [|r reads Hr _ IH]; [reflexivity|].
  cbn [map concat]. rewrite IH. destruct Hr as [-> | [a ->]].
  - reflexivity.
  - rewrite <- !app_assoc. cbn [app]. rewrite !progress_lines_newline.
    cbn. now rewrite app_nil_r.
Qed.

End Streaming.

(** ** The output classifier on whole outputs *)

Section Outputs.

Lemma lines_newline (a b : jsstring) :
  Base.lines (a ++ 10 :: b) = Base.lines a ++ Base.lines b.
Proof. unfold Base.lines. now rewrite split_app_sep, List.filter_app. Qed.

Lemma or_else_truthy (v : option json) (d : json) :
  truthy (Some d) = true -> truthy (Some (or_else v d)) = true.
Proof.
  intros Hd. unfold or_else. destruct v as [x|]; [|exact Hd].
  destruct (truthy (Some x)) eqn:E; [exact E | exact Hd].
Qed.

Lemma checkForErrors_loop_app (ls ls' : list jsstring) :
  Base.checkForErrors_loop (ls ++ ls')
  = match Base.checkForErrors_loop ls with
    | Some e => Some e
    | None => Base.checkForErrors_loop ls'
    end.
Proof.
  induction ls as [|l ls IH]; [reflexivity|].
  cbn. destruct (Base.error_step l); [reflexivity | exact IH].
Qed.

(** X4.  An error in an earlier part of the output hides those of a
    later part: on two outputs joined by a line end, [checkForErrors]
    answers for the first when it holds an error and for the second
    otherwise.  What it returns is never an empty message, so that a
    caller's test of the result for truth is a test for an error. *)
Theorem checkForErrors_joined :
  (forall a b : jsstring,
      Base.checkForErrors (a ++ [10] ++ b)
      = match Base.checkForErrors a with
        | Some e => Some e
        | None => Base.checkForErrors b
        end)
  /\ (forall (output : jsstring) (e : json),
        Base.checkForErrors output = Some e -> truthy (Some e) = true).
Proof.
  split.
  - intros a b. unfold Base.checkForErrors. cbn [app].
    now rewrite lines_newline, checkForErrors_loop_app.
  - intros output e. unfold Base.checkForErrors.
    induction (Base.lines output) as [|l ls IH]; [discriminate|].
    cbn. destruct (Base.error_step l) as [m|] eqn:E; [|exact IH].
    intros [= <-]. unfold Base.error_step in E.
    destruct (JSON_parse l) as [parsed|]; [|discriminate].
    destruct (Base.get parsed (lit "type")) as [ty|]; [|discriminate].
    destruct (is_string (lit "error") ty); [|discriminate].
    injection E as <-. apply or_else_truthy, or_else_truthy. reflexivity.
Qed.

Lemma result_records_newline (a b : jsstring) :
  Spec.records_of_kind (lit "result") (a ++ 10 :: b)
  = Spec.records_of_kind (lit "result") a ++ Spec.records_of_kind (lit "result") b.
Proof.
  unfold Spec.records_of_kind.
  now rewrite lines_newline, omap_app, List.filter_app.
Qed.

Lemma parse_as_accounting (output : jsstring) :
  Base.parseStreamJsonResult output = Spec.token_accounting output.
Proof.
  unfold Base.parseStreamJsonResult, Spec.token_accounting, Spec.records_of_kind.
  rewrite (fold_result_step (Base.lines output)).
  destruct (last _) as [r|]; [|reflexivity].
  unfold Spec.captured. cbn [Base.response Base.inputTokens Base.outputTokens].
  now rewrite or_else_taskCompleted.
Qed.

(** X5.  On two outputs joined by a line end, [parseStreamJsonResult]
    answers for the second when it holds a record of kind result and
    for the first otherwise; and the response it returns is never
    empty. *)
Theorem parseStreamJsonResult_joined :
  (forall a b : jsstring,
      Base.parseStreamJsonResult (a ++ [10] ++ b)
      = match Spec.records_of_kind (lit "result") b with
        | [] => Base.parseStreamJsonResult a
        | _ :: _ => Base.parseStreamJsonResult b
        end)
  /\ (forall output : jsstring,
        truthy (Some (Base.response (Base.parseStreamJsonResult output))) = true).
Proof.
  split.
  - intros a b. rewrite !parse_as_accounting. unfold Spec.token_accounting.
    cbn [app]. rewrite result_records_newline.
    destruct (Spec.records_of_kind (lit "result") b) as [|r rs] eqn:E.
    + now rewrite app_nil_r.
    + rewrite last_app. destruct (last (r :: rs)) eqn:El; [reflexivity|].
      now apply last_None in El.
  - intros output. unfold Base.parseStreamJsonResult. cbn [Base.response].
    now apply or_else_truthy.
Qed.

End Outputs.

Section Labels.

Variable unicodeLower : jsstring -> jsstring.

(** X6.  The label that [detectStepFromOutput] returns is one of seven
    fixed labels, none of them empty: the test [if (step)] of the
    agent runtime lets every label through. *)
Theorem detectStepFromOutput_labels (line label : jsstring) :
  Base.detectStepFromOutput unicodeLower line = Some label ->
  label ∈ map lit ["Reading code"; "Committing"; "Staging"; "Linting";
                   "Testing"; "Writing tests"; "Implementing"]%string
  /\ label <> [].
Proof.
  intros Hline. apply detect_classified in Hline as [f Hf].
  revert Hf. unfold Base.classify.
  repeat match goal with
         | |- context [if ?b then _ else _] => destruct b
         end;
    intros E; first [discriminate E | injection E as <-];
    (split; [|vm_compute; discriminate]);
    cbn [map]; repeat (apply elem_of_cons; first [left; reflexivity | right]).
Qed.

End Labels.

(** ** The polling loop at its edges *)

Section PollingEdges.

Variable unicodeLower : jsstring -> jsstring.

Lemma trimStart_suffix (s : jsstring) : exists p, s = p ++ trimStart s.
Proof.
  induction s as [|c s [p Hp]]; [now exists []|].
  cbn. destruct (is_js_space c).
  - exists (c :: p). cbn. now f_equal.
  - now exists [].
Qed.

Lemma trimStart_head (s : jsstring) (c : N) (r : jsstring) :
  trimStart s = c :: r -> is_js_space c = false.
Proof.
  induction s as [|d s IH]; [discriminate|].
  cbn. destruct (is_js_space d) eqn:E; [exact IH|]. now intros [= <- _].
Qed.

(** What [trim] leaves starts with a character that is no white
    space. *)
Lemma trim_head (s : jsstring) (c : N) (r : jsstring) :
  trim s = c :: r -> is_js_space c = false.
Proof.
  unfold trim, trimEnd. intros E.
  destruct (trimStart_suffix (rev (trimStart s))) as [p Hp].
  apply (f_equal (@rev N)) in Hp. rewrite rev_involutive, rev_app_distr, E in Hp.
  cbn in Hp. exact (trimStart_head s c _ Hp).
Qed.

Lemma parseInt10_no_number (c : N) (rest : jsstring) :
  is_js_space c = false -> is_digit c = false -> c <> 45 -> c <> 43 ->
  Base.parseInt10 (c :: rest) = NaN.
Proof.
  intros Hs Hd Hm Hp. unfold Base.parseInt10. cbn [trimStart]. rewrite Hs.
  assert (E : match c :: rest with
              | 45 :: r => (true, r)
              | 43 :: r => (false, r)
              | _ => (false, c :: rest)
              end = (false, c :: rest)).
  { destruct c as [|p]; [reflexivity|].
    do 6 (try destruct p as [p|p|]; try reflexivity);
      first [now elim Hm | now elim Hp]. }
  rewrite E. cbn [take_digits]. now rewrite Hd.
Qed.

(** X7.  An exit file whose text, trimmed, starts with neither a digit
    nor a sign ends the polling with the exit code NaN. *)
Theorem execTmuxCommand_unreadable_exit_file
    (agentId taskSlug : jsstring)
    (before : list tick) (t : tick) (after : list tick)
    (raw : jsstring) (c : N) (rest : jsstring) :
  Forall (fun t => Base.poll_exit t = None) before ->
  exitFile t = Some raw ->
  trim raw = c :: rest ->
  is_digit c = false -> c <> 45 -> c <> 43 ->
  exists r, Base.execTmuxCommand unicodeLower agentId taskSlug
              (before ++ t :: after) = Some r
            /\ exitCode r = NaN.
Proof.
  intros Hb Hraw Htrim Hd Hm Hp.
  apply execTmuxCommand_ends; [exact Hb|].
  unfold Base.poll_exit. rewrite Hraw, Htrim. cbn [nonempty].
  f_equal. apply parseInt10_no_number; try assumption.
  exact (trim_head raw c rest Htrim).
Qed.

(** X8.  While the exit file exists and is blank, the polling goes on,
    whether the session is still there or not. *)
Theorem poll_blank_exit_file (rounds : list tick) (offset : N)
    (seen : list jsstring) :
  Forall (fun t => exists raw, exitFile t = Some raw /\ trim raw = []
                               /\ exitFileAfter t = true) rounds ->
  Base.poll offset seen rounds = None.
Proof.
  intros H. revert offset seen.
  induction H as [|t rounds (raw & Hraw & Hblank & Hafter) _ IH]; intros offset seen.
  - reflexivity.
  - cbn [Base.poll].
    assert (Ht : Base.poll_exit t = None).
    { unfold Base.poll_exit. rewrite Hraw, Hblank, Hafter. cbn.
      now rewrite andb_false_r. }
    destruct (readOutput t offset) as [[size newContent]|]; rewrite Ht; apply IH.
Qed.

End PollingEdges.

(** ** The state registry over several calls *)

Section RegistryCalls.

Import Registry.

Context {W : Type} `{!State.Host W}.

Ltac other_name :=
  let E := fresh "E" in intros E; vm_compute in E; discriminate E.

Lemma newAgent_created (agentId now : jsstring) (k : string) :
  k ∈ created -> is_Some (State.newAgent agentId now !! lit k).
Proof.
  unfold created. intros Hk.
  repeat (apply elem_of_cons in Hk as [->|Hk]; [vm_compute; eauto|]).
  now apply elem_of_nil in Hk.
Qed.

Lemma updateDocument_record (agentId : jsstring) (updates : gmap (list N) State.value)
    (now : jsstring) (st : State.RalphyState) :
  State.agents (State.updateDocument agentId updates now st) !! agentId
  = Some (<[lit "lastUpdate" := State.VString now]>
            (updates ∪ default (found agentId now)
                         (State.agents st !! agentId))).
Proof.
  unfold State.updateDocument, found. cbn [State.agents]. rewrite lookup_insert_eq.
  destruct (State.agents st !! agentId) as [r|] eqn:E.
  - now rewrite E.
  - destruct (State.inheritedName agentId).
    + now rewrite E.
    + now rewrite lookup_insert_eq.
Qed.

Lemma updateDocument_other (agentId other : jsstring)
    (updates : gmap (list N) State.value) (now : jsstring) (st : State.RalphyState) :
  other <> agentId ->
  State.agents (State.updateDocument agentId updates now st) !! other
  = State.agents st !! other.
Proof.
  intros Hne. unfold State.updateDocument. cbn [State.agents].
  rewrite lookup_insert_ne by congruence.
  destruct (State.agents st !! agentId); [reflexivity|].
  destruct (State.inheritedName agentId); [reflexivity|].
  now rewrite lookup_insert_ne by congruence.
Qed.

Lemma complete_updateDocument (agentId : jsstring)
    (updates : gmap (list N) State.value) (now : jsstring) (st : State.RalphyState) :
  State.inheritedName agentId = false ->
  complete_records st ->
  complete_records (State.updateDocument agentId updates now st).
Proof.
  intros Hown Hst other record Hrec k Hk.
  destruct (decide (other = agentId)) as [->|Hne].
  - rewrite updateDocument_record in Hrec. injection Hrec as <-.
    destruct (decide (lit k = lit "lastUpdate")) as [->|Hk'].
    + rewrite lookup_insert_eq. eauto.
    + rewrite lookup_insert_ne by congruence. apply lookup_union_is_Some. right.
      destruct (State.agents st !! agentId) as [r|] eqn:E; cbn [default].
      * exact (Hst agentId r E k Hk).
      * unfold found. rewrite Hown. now apply newAgent_created.
  - rewrite updateDocument_other in Hrec by exact Hne.
    exact (Hst other record Hrec k Hk).
Qed.

Lemma call_agents (workDir : jsstring) (o : op) (st : State.RalphyState) (w : W) :
  exists now w',
    call workDir (st, w) o
    = (match o with
       | Update agentId updates => State.updateDocument agentId updates now st
       | Summarise updates =>
           {| State.agents := State.agents st;
              State.summary := State.spread_summary (State.summary st) updates;
              State.lastUpdate := now |}
       | Remove agentId =>
           {| State.agents := delete agentId (State.agents st);
              State.summary := State.summary st;
              State.lastUpdate := now |}
       end, w').
Proof.
  destruct o; cbn [call];
    unfold State.updateState, State.updateSummary, State.removeAgentFromState;
    destruct (State.now w) as [t w1]; eauto.
Qed.

(** X9.  Whatever calls of [updateState], [updateSummary] and
    [removeAgentFromState] are made, in whatever order, every agent
    record of the registry holds the properties id, task, status, step
    and lastUpdate, provided the records it started with did and no
    update is of an agent identifier that every object inherits as a
    property name. *)
Theorem registry_records_complete (workDir : jsstring) (ops : list op)
    (st : State.RalphyState) (w : W) :
  Forall (fun o => plain o = true) ops ->
  complete_records st ->
  complete_records (calls workDir ops (st, w)).1.
Proof.
  unfold calls. intros Hplain. revert st w.
  induction Hplain as [|o ops Ho Hplain IH]; intros st w Hst; [exact Hst|].
  cbn [fold_left].
  destruct (call_agents workDir o st w) as (now & w' & ->).
  apply IH. destruct o.
  - apply complete_updateDocument; [|exact Hst].
    cbn [plain] in Ho. now apply negb_true_iff in Ho.
  - exact Hst.
  - intros other record Hrec. cbn [State.agents] in Hrec.
    apply lookup_delete_Some in Hrec as [_ Hrec]. exact (Hst other record Hrec).
Qed.

(** X10.  When no update is of an agent identifier that every object
    inherits as a property name, calls that do not name an agent leave
    its record as it was, and the summary totals after the calls are
    those that the patches of the [updateSummary] calls give, one after
    the other: updating or removing agents never changes a total. *)
Theorem registry_calls_frame (workDir : jsstring) (ops : list op)
    (st : State.RalphyState) (w : W) :
  Forall (fun o => plain o = true) ops ->
  (forall agentId : jsstring,
      Forall (fun o => names agentId o = false) ops ->
      State.agents (calls workDir ops (st, w)).1 !! agentId
      = State.agents st !! agentId)
  /\ State.summary (calls workDir ops (st, w)).1
     = fold_left State.spread_summary (summaryPatches ops) (State.summary st).
Proof.
  unfold calls. intros _. revert st w.
  induction ops as [|o ops IH]; intros st w; [now split|].
  cbn [fold_left].
  destruct (call_agents workDir o st w) as (now & w' & ->).
  destruct (IH (match o with
                | Update agentId updates => State.updateDocument agentId updates now st
                | Summarise updates =>
                    {| State.agents := State.agents st;
                       State.summary := State.spread_summary (State.summary st) updates;
                       State.lastUpdate := now |}
                | Remove agentId =>
                    {| State.agents := delete agentId (State.agents st);
                       State.summary := State.summary st;
                       State.lastUpdate := now |}
                end) w') as [IHa IHs].
  split.
  - intros agentId Hn. apply Forall_cons in Hn as [Ho Hn]. rewrite IHa by exact Hn.
    destruct o as [a u|u|a]; cbn [names] in Ho; cbn [State.agents].
    + apply updateDocument_other. unfold eqb in Ho.
      apply bool_decide_eq_false in Ho. congruence.
    + reflexivity.
    + apply lookup_delete_ne. unfold eqb in Ho.
      apply bool_decide_eq_false in Ho. congruence.
  - rewrite IHs. destruct o; reflexivity.
Qed.

(** X11.  Removing an agent after updating it leaves the agents that
    were there without it: the update of an agent that had no record
    is undone, and a removal done twice is a removal done once.  The
    agent identifier is not a property name that every object
    inherits. *)
Theorem update_then_remove (agentId : jsstring) (updates : gmap (list N) State.value)
    (workDir : jsstring) (st : State.RalphyState) (w : W) :
  State.inheritedName agentId = false ->
  let removed :=
    State.removeAgentFromState agentId workDir
      (State.updateState agentId updates workDir (st, w)) in
  State.agents removed.1 = delete agentId (State.agents st)
  /\ (State.agents st !! agentId = None -> State.agents removed.1 = State.agents st)
  /\ State.agents (State.removeAgentFromState agentId workDir removed).1
     = State.agents removed.1
  /\ State.summary removed.1 = State.summary st.
Proof.
  intros Hown.
  unfold State.removeAgentFromState, State.updateState.
  destruct (State.now w) as [t w1]. cbn [fst snd].
  destruct (State.now _) as [t2 w2]. cbn [fst snd State.agents].
  destruct (State.now _) as [t3 w3]. cbn [fst snd State.agents State.summary].
  assert (E : delete agentId (State.agents (State.updateDocument agentId updates t st))
              = delete agentId (State.agents st)).
  { unfold State.updateDocument. rewrite Hown. cbn [State.agents].
    rewrite delete_insert_eq.
    destruct (State.agents st !! agentId); [reflexivity|].
    now rewrite delete_insert_eq. }
  rewrite E. split; [reflexivity|]. split; [|split].
  - intros Hnone. now apply delete_id.
  - now rewrite delete_delete_eq.
  - reflexivity.
Qed.

(** X12.  Two updates of an agent, one after the other, leave the
    document that a single update with the two patches merged, the
    later one winning, leaves at the time of the second. *)
Theorem updates_merge (agentId : jsstring) (u1 u2 : gmap (list N) State.value)
    (workDir : jsstring) (st : State.RalphyState) (w : W) :
  let first := State.updateState agentId u1 workDir (st, w) in
  let second := State.updateState agentId u2 workDir first in
  second.1 = State.updateDocument agentId (u2 ∪ u1) (State.now first.2).1 st.
Proof.
  unfold State.updateState. destruct (State.now w) as [t1 w1]. cbn [fst snd].
  destruct (State.now _) as [t2 w2]. cbn [fst snd].
  assert (Ea : State.agents (State.updateDocument agentId u2 t2
                               (State.updateDocument agentId u1 t1 st))
               = State.agents (State.updateDocument agentId (u2 ∪ u1) t2 st)).
  { apply map_eq. intros i. destruct (decide (i = agentId)) as [->|Hi].
    - rewrite !updateDocument_record. cbn [default]. f_equal.
      apply map_eq. intros k.
      destruct (decide (k = lit "lastUpdate")) as [->|Hk].
      + now rewrite !lookup_insert_eq.
      + rewrite !lookup_insert_ne by congruence. rewrite !lookup_union.
        unfold id. rewrite lookup_insert_ne by congruence. rewrite lookup_union.
        destruct (State.agents st !! agentId) as [r|]; cbn [default].
        * destruct (u2 !! k), (u1 !! k), (r !! k); reflexivity.
        * unfold found. destruct (State.inheritedName agentId);
            [destruct (u2 !! k), (u1 !! k); reflexivity|].
          assert (En : State.newAgent agentId t1 !! k = State.newAgent agentId t2 !! k).
          { unfold State.newAgent.
            repeat match goal with
                   | |- <[?a := _]> _ !! k = <[?a := _]> _ !! k =>
                       destruct (decide (a = k)) as [<-|?];
                       [now rewrite !lookup_insert_eq
                       |rewrite !(lookup_insert_ne _ a k) by assumption]
                   end.
            reflexivity. }
          rewrite En.
          destruct (u2 !! k), (u1 !! k), (State.newAgent agentId t2 !! k); reflexivity.
    - now rewrite !updateDocument_other by exact Hi. }
  set (a := State.updateDocument agentId u2 t2 _) in *.
  set (b := State.updateDocument agentId (u2 ∪ u1) t2 st) in *.
  assert (Es : State.summary a = State.summary b) by reflexivity.
  assert (El : State.lastUpdate a = State.lastUpdate b) by reflexivity.
  destruct a, b. cbn in Ea, Es, El. now subst.
Qed.

End RegistryCalls.

(** ** The registry during the run of an agent *)

Section RegistryFields.

Import Registry.

Context {W : Type} `{!State.Host W}.

Lemma updateState_document (agentId : jsstring) (u : gmap (list N) State.value)
    (dir : jsstring) (rw : State.RalphyState * W) :
  (State.updateState agentId u dir rw).1
  = State.updateDocument agentId u (State.now rw.2).1 rw.1.
Proof.
  destruct rw as [st w]. unfold State.updateState. cbn [fst snd].
  now destruct (State.now w).
Qed.

Lemma updateState_other (agentId : jsstring) (u : gmap (list N) State.value)
    (dir : jsstring) (rw : State.RalphyState * W) (other : jsstring) :
  other <> agentId ->
  State.agents (State.updateState agentId u dir rw).1 !! other
  = State.agents rw.1 !! other.
Proof. intros Hne. rewrite updateState_document. now apply updateDocument_other. Qed.

Lemma updateState_summary (agentId : jsstring) (u : gmap (list N) State.value)
    (dir : jsstring) (rw : State.RalphyState * W) :
  State.summary (State.updateState agentId u dir rw).1 = State.summary rw.1.
Proof. now rewrite updateState_document. Qed.

Lemma updateState_has_record (agentId : jsstring) (u : gmap (list N) State.value)
    (dir : jsstring) (rw : State.RalphyState * W) :
  is_Some (State.agents (State.updateState agentId u dir rw).1 !! agentId).
Proof. rewrite updateState_document, updateDocument_record. eauto. Qed.

Lemma updateState_field_set (agentId : jsstring) (u : gmap (list N) State.value)
    (dir : jsstring) (rw : State.RalphyState * W) (k : string) (v : State.value) :
  lit k <> lit "lastUpdate" ->
  u !! lit k = Some v ->
  field (State.updateState agentId u dir rw).1 agentId k = Some v.
Proof.
  intros Hk Hu. unfold field.
  rewrite updateState_document, updateDocument_record. cbn.
  rewrite lookup_insert_ne by congruence.
  now rewrite lookup_union, Hu, union_Some_l.
Qed.

Lemma updateState_field_keep (agentId : jsstring) (u : gmap (list N) State.value)
    (dir : jsstring) (rw : State.RalphyState * W) (k : string) :
  lit k <> lit "lastUpdate" ->
  u !! lit k = None ->
  is_Some (State.agents rw.1 !! agentId) ->
  field (State.updateState agentId u dir rw).1 agentId k = field rw.1 agentId k.
Proof.
  intros Hk Hu [record Hr]. unfold field.
  rewrite updateState_document, updateDocument_record, Hr. cbn.
  rewrite lookup_insert_ne by congruence.
  rewrite lookup_union, Hu. now destruct (record !! lit k).
Qed.

Lemma killed_finished (record : gmap (list N) State.value) (status : string) :
  record !! lit "status" = Some (State.VString (lit status)) ->
  lit status <> lit "running" ->
  lit status <> lit "pending" ->
  killed record = None.
Proof.
  intros Hs Hr Hp. unfold killed. rewrite Hs.
  rewrite !bool_decide_eq_false_2 by congruence.
  now destruct (record !! lit "tmuxSession") as [[|[|]]|].
Qed.

End RegistryFields.

Section AgentRuntime.

Import Parallel Registry.

Context {W : Type}.
Context `{!State.Host W, !Tasks.TaskSource W, !Git.Repository W,
          !Engine.AIEngine W}.

Variable unicodeLower : jsstring -> jsstring.

Ltac differ := let E := fresh "E" in intros E; vm_compute in E; discriminate E.

Lemma onProgress_other (o : Options) (agentId : jsstring) (shown : list jsstring)
    (rw : State.RalphyState * W) (other : jsstring) :
  other <> agentId ->
  State.agents (fold_left (onProgress unicodeLower o agentId) shown rw).1 !! other
  = State.agents rw.1 !! other.
Proof.
  intros Hne. revert rw. induction shown as [|line shown IH]; intros rw; [reflexivity|].
  cbn [fold_left]. rewrite IH. unfold onProgress.
  destruct (Base.detectStepFromOutput unicodeLower line) as [[|c step]|];
    try reflexivity.
  now apply updateState_other.
Qed.

Lemma onProgress_summary (o : Options) (agentId : jsstring) (shown : list jsstring)
    (rw : State.RalphyState * W) :
  State.summary (fold_left (onProgress unicodeLower o agentId) shown rw).1
  = State.summary rw.1.
Proof.
  revert rw. induction shown as [|line shown IH]; intros rw; [reflexivity|].
  cbn [fold_left]. rewrite IH. unfold onProgress.
  destruct (Base.detectStepFromOutput unicodeLower line) as [[|c step]|];
    try reflexivity.
  apply updateState_summary.
Qed.

Lemma onProgress_keep (o : Options) (agentId : jsstring) (shown : list jsstring)
    (rw : State.RalphyState * W) (k : string) :
  lit k <> lit "lastUpdate" ->
  lit k <> lit "step" ->
  is_Some (State.agents rw.1 !! agentId) ->
  is_Some (State.agents (fold_left (onProgress unicodeLower o agentId) shown rw).1
           !! agentId)
  /\ field (fold_left (onProgress unicodeLower o agentId) shown rw).1 agentId k
     = field rw.1 agentId k.
Proof.
  intros Hk Hs. revert rw. induction shown as [|line shown IH]; intros rw Hr;
    [now split|].
  cbn [fold_left]. unfold onProgress at 2 4.
  destruct (Base.detectStepFromOutput unicodeLower line) as [[|c step]|];
    try (now apply IH).
  destruct (IH (State.updateState agentId {[lit "step" := State.VString (c :: step)]}
                  (workDir o) rw)) as [Hsome Hf].
  { apply updateState_has_record. }
  split; [exact Hsome|]. rewrite Hf.
  apply updateState_field_keep; [exact Hk| |exact Hr].
  apply lookup_singleton_ne. congruence.
Qed.

Lemma onProgress_has_record (o : Options) (agentId : jsstring)
    (shown : list jsstring) (rw : State.RalphyState * W) :
  is_Some (State.agents rw.1 !! agentId) ->
  is_Some (State.agents (fold_left (onProgress unicodeLower o agentId) shown rw).1
           !! agentId).
Proof. intros Hr. apply (onProgress_keep o agentId shown rw "id"); [differ|differ|exact Hr]. Qed.

(** The last update of an agent: it sets the status and leaves the
    task. *)
Lemma last_update (agentId : jsstring) (u : gmap (list N) State.value)
    (dir : jsstring) (rw : State.RalphyState * W) (status : string)
    (title : option State.value) :
  u !! lit "status" = Some (VStr status) ->
  u !! lit "task" = None ->
  is_Some (State.agents rw.1 !! agentId) ->
  field rw.1 agentId "task" = title ->
  field (State.updateState agentId u dir rw).1 agentId "task" = title
  /\ field (State.updateState agentId u dir rw).1 agentId "status"
     = Some (VStr status).
Proof.
  intros Hs Ht Hr <-. split.
  - apply updateState_field_keep; [differ|exact Ht|exact Hr].
  - apply updateState_field_set; [differ|exact Hs].
Qed.

Lemma agentCaught_fields (o : Options) (t : Tasks.Task)
    (agentId dir branch msg : jsstring) (rw : State.RalphyState * W)
    (title : option State.value) :
  is_Some (State.agents rw.1 !! agentId) ->
  field rw.1 agentId "task" = title ->
  let caught := agentCaught o t agentId dir branch msg rw in
  task caught.1 = t
  /\ result caught.1 = None
  /\ error caught.1 = Some msg
  /\ agentFailed caught.1 = true
  /\ field caught.2.1 agentId "task" = title
  /\ field caught.2.1 agentId "status" = Some (VStr "failed").
Proof.
  intros Hr Ht caught. subst caught. unfold agentCaught. cbn [fst snd].
  repeat (split; [first [reflexivity | apply orb_true_r]|]).
  apply last_update; [vm_compute; reflexivity .. | exact Hr | exact Ht].
Qed.

Lemma status_not_killed (st : State.RalphyState) (agentId : jsstring)
    (failed : bool) :
  field st agentId "status"
  = Some (VStr (if failed then "failed" else "completed")) ->
  forall record,
    State.agents st !! agentId = Some record -> killed record = None.
Proof.
  unfold field. intros Hf record Hr. rewrite Hr in Hf. cbn in Hf.
  destruct failed; eapply killed_finished; try exact Hf; differ.
Qed.

Lemma runAgent_fields (o : Options) (t : Tasks.Task) (agentNum : N)
    (worktreeBase : jsstring) (rw0 : State.RalphyState * W) :
  let run := runAgentInWorktree unicodeLower o t agentNum worktreeBase rw0 in
  let agentId := toString agentNum in
  task run.1 = t
  /\ (is_Some (result run.1) <-> error run.1 = None)
  /\ field run.2.1 agentId "task" = Some (State.VString (Tasks.title t))
  /\ field run.2.1 agentId "status"
     = Some (VStr (if agentFailed run.1 then "failed" else "completed")).
Proof.
  intros run agentId.
  subst run. unfold runAgentInWorktree. fold agentId.
  set (rw1 := State.updateState agentId _ (workDir o) rw0).
  assert (R1 : is_Some (State.agents rw1.1 !! agentId))
    by apply updateState_has_record.
  assert (T1 : field rw1.1 agentId "task" = Some (State.VString (Tasks.title t))).
  { apply updateState_field_set; [differ | vm_compute; reflexivity]. }
  clearbody rw1.
  assert (Hcaught : forall dir branch msg rw,
             is_Some (State.agents rw.1 !! agentId) ->
             field rw.1 agentId "task" = Some (State.VString (Tasks.title t)) ->
             let caught := agentCaught o t agentId dir branch msg rw in
             task caught.1 = t
             /\ (is_Some (result caught.1) <-> error caught.1 = None)
             /\ field caught.2.1 agentId "task"
                = Some (State.VString (Tasks.title t))
             /\ field caught.2.1 agentId "status"
                = Some (VStr (if agentFailed caught.1 then "failed"
                              else "completed"))).
  { intros dir branch msg rw Hr Ht caught.
    destruct (agentCaught_fields o t agentId dir branch msg rw _ Hr Ht)
      as (E1 & E2 & E3 & E4 & E5 & E6).
    fold caught in E1, E2, E3, E4, E5, E6.
    rewrite E4. repeat (split; [assumption|]). split; [|split; assumption].
    rewrite E2, E3. split; [intros [? ?]; discriminate | discriminate]. }
  destruct (Git.createAgentWorktree _ _ _ _ _ _) as [[wt|msg] w2];
    [|now apply Hcaught].
  set (rw3 := State.updateState agentId _ (workDir o) (rw1.1, w2)).
  assert (R3 : is_Some (State.agents rw3.1 !! agentId))
    by apply updateState_has_record.
  assert (T3 : field rw3.1 agentId "task" = Some (State.VString (Tasks.title t))).
  { rewrite <- T1.
    apply (updateState_field_keep agentId _ (workDir o) (rw1.1, w2) "task");
      [differ | vm_compute; reflexivity | exact R1]. }
  clearbody rw3.
  destruct (Engine.prepareWorktree _ _ _ _ _ _) as [[[]|msg] w4];
    [|now apply Hcaught].
  set (rw5 := if tmux o then _ else _).
  assert (R5 : is_Some (State.agents rw5.1 !! agentId)).
  { subst rw5. destruct (tmux o); apply updateState_has_record. }
  assert (T5 : field rw5.1 agentId "task" = Some (State.VString (Tasks.title t))).
  { rewrite <- T3. subst rw5.
    destruct (tmux o);
      apply (updateState_field_keep agentId _ (workDir o) (rw3.1, w4) "task");
      first [differ | exact R3 | vm_compute; reflexivity]. }
  clearbody rw5.
  destruct (Engine.executeWithRetry _ _ _ _ _ _) as [[shown answer] w6].
  set (rw7 := fold_left _ shown (rw5.1, w6)).
  assert (R7 : is_Some (State.agents rw7.1 !! agentId))
    by now apply onProgress_has_record.
  assert (T7 : field rw7.1 agentId "task" = Some (State.VString (Tasks.title t))).
  { rewrite <- T5.
    apply (onProgress_keep o agentId shown (rw5.1, w6) "task");
      [differ | differ | exact R5]. }
  clearbody rw7.
  destruct answer as [res|msg]; [|now apply Hcaught].
  cbn [fst snd task result error].
  split; [reflexivity|]. split; [split; eauto|].
  unfold agentFailed. cbn [error result str_truthy succeeded orb].
  destruct (Types.success res); cbn [negb];
    apply last_update; first [exact R7 | exact T7 | vm_compute; reflexivity].
Qed.

(** X13.  Whatever the workspace provider and the engine answer, the
    agent runtime returns a result for the task it was given, with an
    engine result exactly when it reports no error; the registry
    record of the agent then holds the title of the task and the
    status failed or completed, the first exactly when the scheduler
    will count the result as a failure; a record in that state is one
    whose session [cleanupTmuxSessions] does not kill. *)
Theorem agent_result_agreement (o : Options) (t : Tasks.Task) (agentNum : N)
    (worktreeBase : jsstring) (rw0 : State.RalphyState * W) :
  let run := runAgentInWorktree unicodeLower o t agentNum worktreeBase rw0 in
  let agentId := toString agentNum in
  task run.1 = t
  /\ (is_Some (result run.1) <-> error run.1 = None)
  /\ field run.2.1 agentId "task" = Some (State.VString (Tasks.title t))
  /\ field run.2.1 agentId "status"
     = Some (VStr (if agentFailed run.1 then "failed" else "completed"))
  /\ forall record,
       State.agents run.2.1 !! agentId = Some record -> killed record = None.
Proof.
  intros run agentId.
  destruct (runAgent_fields o t agentNum worktreeBase rw0) as (M1 & M2 & M3 & M4).
  fold run agentId in M1, M2, M3, M4.
  repeat (split; [assumption|]).
  intros record Hrecord.
  exact (status_not_killed _ _ (agentFailed run.1) M4 record Hrecord).
Qed.

Lemma runAgent_frame (o : Options) (t : Tasks.Task) (agentNum : N)
    (worktreeBase : jsstring) (rw0 : State.RalphyState * W) :
  let run := runAgentInWorktree unicodeLower o t agentNum worktreeBase rw0 in
  forall other : jsstring,
    (other <> toString agentNum ->
     State.agents run.2.1 !! other = State.agents rw0.1 !! other)
    /\ State.summary run.2.1 = State.summary rw0.1.
Proof.
  intros run other. subst run. unfold runAgentInWorktree, agentCaught.
  repeat match goal with
         | |- context [match ?x with (_, _) => _ end] =>
             destruct x as [? ?]
         | |- context [match ?x with Returns _ => _ | Rejects _ => _ end] =>
             destruct x
         | |- context [if ?b then _ else _] => destruct b
         end;
    cbn [fst snd];
    (split;
     [intros Hne;
      repeat first [rewrite updateState_other by exact Hne
                   |rewrite onProgress_other by exact Hne
                   |progress cbn [fst snd]];
      reflexivity
     |repeat first [rewrite updateState_summary
                   |rewrite onProgress_summary
                   |progress cbn [fst snd]];
      reflexivity]).
Qed.

(** X14.  The agent runtime changes no record of the registry but
    that of its own agent, and none of the summary totals. *)
Theorem agent_registry_frame (o : Options) (t : Tasks.Task) (agentNum : N)
    (worktreeBase : jsstring) (rw0 : State.RalphyState * W) :
  let run := runAgentInWorktree unicodeLower o t agentNum worktreeBase rw0 in
  (forall other : jsstring,
      other <> toString agentNum ->
      State.agents run.2.1 !! other = State.agents rw0.1 !! other)
  /\ State.summary run.2.1 = State.summary rw0.1.
Proof.
  intros run. split.
  - intros other.
    exact (proj1 (runAgent_frame o t agentNum worktreeBase rw0 other)).
  - exact (proj2 (runAgent_frame o t agentNum worktreeBase rw0 [])).
Qed.

End AgentRuntime.

(** ** Agent numbers, registry keys and session names *)

Section AgentNumbers.

Import Parallel.

Variable unicodeLower : jsstring -> jsstring.

Lemma lit_cons (c : ascii) (s : string) : lit (String c s) = N_of_ascii c :: lit s.
Proof. reflexivity. Qed.

Lemma lit_inj (s s' : string) : lit s = lit s' -> s = s'.
Proof.
  unfold lit. intros E.
  apply (f_equal (map ascii_of_N)) in E. rewrite !map_map in E.
  rewrite !(map_ext _ (fun a => a) ascii_N_embedding), !map_id in E.
  apply (f_equal string_of_list_ascii) in E.
  now rewrite !string_of_list_ascii_of_string in E.
Qed.

Lemma toString_inj (n m : N) : toString n = toString m -> n = m.
Proof.
  unfold toString. intros E. apply lit_inj in E.
  apply (f_equal DecimalString.NilZero.uint_of_string) in E.
  assert (Hnil : forall k, N.to_uint k <> Decimal.Nil).
  { intros [|p]; [discriminate | apply DecimalPos.Unsigned.to_uint_nonnil]. }
  rewrite !DecimalString.NilZero.usu in E by apply Hnil.
  injection E as E. now apply DecimalN.Unsigned.to_uint_inj.
Qed.

Lemma digits_of_uint (d : Decimal.uint) :
  forallb is_digit (lit (DecimalString.NilEmpty.string_of_uint d)) = true.
Proof.
  induction d; cbn [DecimalString.NilEmpty.string_of_uint];
    [reflexivity | rewrite lit_cons; cbn [forallb]; rewrite IHd; reflexivity ..].
Qed.

Lemma toString_digits (n : N) : forallb is_digit (toString n) = true.
Proof.
  unfold toString, DecimalString.NilZero.string_of_uint.
  destruct (N.to_uint n) eqn:E; [reflexivity | rewrite <- E at 1 ..];
    rewrite E; apply digits_of_uint.
Qed.

Lemma session_unit_digit (c : N) :
  is_digit c = true -> Spec.session_unit c = c /\ c <> 45.
Proof.
  unfold is_digit, in_range. intros Hc.
  apply andb_true_iff in Hc as [Hlo Hhi].
  apply N.leb_le in Hlo. apply N.leb_le in Hhi.
  unfold Spec.session_unit, is_slug_unit, lower_unit, is_lower, is_upper,
    is_digit, in_range.
  replace (48 <=? c) with true by (symmetry; now apply N.leb_le).
  replace (c <=? 57) with true by (symmetry; now apply N.leb_le).
  replace (65 <=? c) with false by (symmetry; apply N.leb_gt; lia).
  rewrite orb_true_r. cbn. split; [reflexivity | lia].
Qed.

Lemma session_units_digits (a : jsstring) :
  forallb is_digit a = true -> map Spec.session_unit a = a /\ 45 ∉ a.
Proof.
  induction a as [|c a IH]; cbn [forallb map]; intros Ha.
  - split; [reflexivity | apply not_elem_of_nil].
  - apply andb_true_iff in Ha as [Hc Ha].
    destruct (session_unit_digit c Hc) as [-> Hne], (IH Ha) as [-> Hnot].
    split; [reflexivity|]. intros Hin. apply elem_of_cons in Hin as [E|Hin];
      [now symmetry in E | contradiction].
Qed.

(** Two strings without a dash that are each followed by a dash and
    give the same text are the same. *)
Lemma before_first_dash (a b x y : jsstring) :
  45 ∉ a -> 45 ∉ b -> a ++ 45 :: x = b ++ 45 :: y -> a = b.
Proof.
  revert b. induction a as [|c a IH]; intros [|d b] Ha Hb E; cbn in E.
  - reflexivity.
  - injection E as <- _. exfalso. apply Hb. now left.
  - injection E as -> _. exfalso. apply Ha. now left.
  - injection E as <- E. f_equal. apply IH; [| |exact E].
    + intros Hin. apply Ha. now right.
    + intros Hin. apply Hb. now right.
Qed.

(** X15.  Agent numbers are told apart by their registry keys and by
    their session names: two different numbers give different keys,
    and different session names whatever the two task slugs are, both
    in what the process driver computes and in what the agent runtime
    records. *)
Theorem agent_names_distinct (n m : N) :
  n <> m ->
  toString n <> toString m
  /\ (forall slug slug' : jsstring,
        Base.sessionName unicodeLower (toString n) slug
        <> Base.sessionName unicodeLower (toString m) slug')
  /\ (forall t t' : Tasks.Task,
        runtimeSessionName unicodeLower n t
        <> runtimeSessionName unicodeLower m t').
Proof.
  intros Hne.
  assert (Hnames : forall slug slug' : jsstring,
             Base.sessionName unicodeLower (toString n) slug
             <> Base.sessionName unicodeLower (toString m) slug').
  { intros slug slug' E. apply Hne, toString_inj.
    rewrite !sessionName_units, !map_app in E.
    apply app_inv_head in E.
    destruct (session_units_digits _ (toString_digits n)) as [En Hn].
    destruct (session_units_digits _ (toString_digits m)) as [Em Hm].
    rewrite En, Em in E.
    exact (before_first_dash _ _ _ _ Hn Hm E). }
  split; [|split].
  - intros E. now apply Hne, toString_inj.
  - exact Hnames.
  - intros t t'. apply Hnames.
Qed.

End AgentNumbers.

(** ** The counters of the scheduler *)

Section Accounting.

Import Parallel Ledger.

Context {W : Type}.
Context `{!State.Host W, !Tasks.TaskSource W, !Git.Repository W,
          !Engine.AIEngine W}.

Lemma count_app (p : event -> bool) (a b : list event) :
  count p (a ++ b) = (count p a + count p b)%nat.
Proof. unfold count. now rewrite List.filter_app, length_app. Qed.

Lemma count_quiet (evs : list event) :
  forallb quiet evs = true ->
  count is_completed evs = 0%nat /\ count is_failed evs = 0%nat
  /\ batchNumbers evs = [] /\ batches evs = [] /\ launched evs = 0%nat.
Proof.
  induction evs as [|e evs IH]; [now repeat split|].
  cbn [forallb]. intros Hq. apply andb_true_iff in Hq as [He Hq].
  destruct (IH Hq) as (I1 & I2 & I3 & I4 & I5).
  unfold count in *. destruct e; try discriminate He; cbn; now repeat split.
Qed.

Lemma summarise_fields (u : State.SummaryUpdates) (o : Options) (s : Run (W := W)) :
  let s' := summarise u o s in
  trace s' = trace s /\ totals s' = totals s
  /\ globalAgentNum s' = globalAgentNum s
  /\ completedBranches s' = completedBranches s
  /\ failedTaskIds s' = failedTaskIds s
  /\ iteration s' = iteration s
  /\ State.agents (registry s') = State.agents (registry s)
  /\ State.summary (registry s')
     = State.spread_summary (State.summary (registry s)) u.
Proof.
  unfold summarise, with_env, env, State.updateSummary.
  destruct (State.now (world s)) as [t w1]. cbn. now repeat split.
Qed.

Lemma recordFailure_fields (o : Options) (t : Tasks.Task) (msg : jsstring)
    (s : Run (W := W)) :
  let s' := recordFailure o t msg s in
  trace s' = trace s ++ [TaskFailed t msg]
  /\ totals s'
     = {| tasksCompleted := tasksCompleted (totals s);
          tasksFailed := tasksFailed (totals s) + 1;
          totalInputTokens := totalInputTokens (totals s);
          totalOutputTokens := totalOutputTokens (totals s) |}
  /\ globalAgentNum s' = globalAgentNum s
  /\ completedBranches s' = completedBranches s
  /\ failedTaskIds s' = {[Tasks.id t]} ∪ failedTaskIds s
  /\ iteration s' = iteration s
  /\ State.agents (registry s') = State.agents (registry s)
  /\ State.summary (registry s')
     = {| State.total := State.total (State.summary (registry s));
          State.completed := State.completed (State.summary (registry s));
          State.failed := tasksFailed (totals s) + 1;
          State.inProgress := State.inProgress (State.summary (registry s)) |}.
Proof.
  unfold recordFailure, summarise, with_env, env, State.updateSummary.
  cbn. destruct (State.now (world s)) as [t' w1]. cbn. now repeat split.
Qed.

Lemma recordSuccess_fields (o : Options) (r : ParallelAgentResult)
    (a : Types.AIResult) (s : Run (W := W)) :
  let s' := recordSuccess o r a s in
  trace s' = trace s ++ [TaskCompleted (task r)]
  /\ totals s'
     = {| tasksCompleted := tasksCompleted (totals s) + 1;
          tasksFailed := tasksFailed (totals s);
          totalInputTokens :=
            Number.add (totalInputTokens (totals s)) (Types.inputTokens a);
          totalOutputTokens :=
            Number.add (totalOutputTokens (totals s)) (Types.outputTokens a) |}
  /\ globalAgentNum s' = globalAgentNum s
  /\ completedBranches s'
     = completedBranches s ++ List.filter nonempty [branchName r]
  /\ failedTaskIds s' = failedTaskIds s
  /\ iteration s' = iteration s
  /\ State.agents (registry s') = State.agents (registry s)
  /\ State.summary (registry s')
     = {| State.total := State.total (State.summary (registry s));
          State.completed := tasksCompleted (totals s) + 1;
          State.failed := State.failed (State.summary (registry s));
          State.inProgress := State.inProgress (State.summary (registry s)) |}.
Proof.
  unfold recordSuccess, summarise, with_env, env, State.updateSummary.
  cbn. destruct (State.now _) as [t' w1]. cbn.
  destruct (nonempty (branchName r)); cbn; rewrite ?app_nil_r; now repeat split.
Qed.

Lemma recordOutcome_cases (o : Options) (r : ParallelAgentResult)
    (s : Run (W := W)) :
  (agentFailed r = true
   /\ exists msg, recordOutcome o r s = recordFailure o (task r) msg s)
  \/ (agentFailed r = false
      /\ exists a, result r = Some a /\ Types.success a = true
                   /\ recordOutcome o r s = recordSuccess o r a s).
Proof.
  unfold recordOutcome, agentFailed, str_truthy, succeeded.
  destruct (error r) as [[|c msg]|]; cbn [orb]; eauto;
    (destruct (result r) as [a|]; cbn [negb]; eauto;
     destruct (Types.success a) eqn:Ea; cbn [negb]; eauto 7).
Qed.

Lemma cleanupWorktree_fields (o : Options) (r : ParallelAgentResult)
    (s : Run (W := W)) :
  let s' := cleanupWorktree o r s in
  (exists evs, trace s' = trace s ++ evs /\ forallb quiet evs = true)
  /\ totals s' = totals s
  /\ globalAgentNum s' = globalAgentNum s
  /\ completedBranches s' = completedBranches s
  /\ failedTaskIds s' = failedTaskIds s
  /\ iteration s' = iteration s
  /\ registry s' = registry s.
Proof.
  unfold cleanupWorktree.
  destruct (nonempty (worktreeDir r));
    [|split; [exists []; now rewrite app_nil_r | now repeat split]].
  destruct (tmux o && agentFailed r);
    [split; [eexists [_]; now split | now repeat split]|].
  destruct (Git.cleanupAgentWorktree _ _ _ _) as [[|] w]; cbn.
  - split; [eexists [_; _]; rewrite <- app_assoc; now split | now repeat split].
  - split; [eexists [_]; now split | now repeat split].
Qed.

Lemma processResult_failed (o : Options) (s : Run (W := W))
    (r : ParallelAgentResult) :
  agentFailed r = true ->
  let s' := processResult o s r in
  (exists msg evs,
      trace s' = trace s ++ TaskFailed (task r) msg :: evs
      /\ forallb quiet evs = true)
  /\ totals s'
     = {| tasksCompleted := tasksCompleted (totals s);
          tasksFailed := tasksFailed (totals s) + 1;
          totalInputTokens := totalInputTokens (totals s);
          totalOutputTokens := totalOutputTokens (totals s) |}
  /\ globalAgentNum s' = globalAgentNum s
  /\ completedBranches s' = completedBranches s
  /\ failedTaskIds s' = {[Tasks.id (task r)]} ∪ failedTaskIds s
  /\ iteration s' = iteration s
  /\ State.agents (registry s') = State.agents (registry s)
  /\ State.summary (registry s')
     = {| State.total := State.total (State.summary (registry s));
          State.completed := State.completed (State.summary (registry s));
          State.failed := tasksFailed (totals s) + 1;
          State.inProgress := State.inProgress (State.summary (registry s)) |}.
Proof.
  intros Hf. unfold processResult.
  destruct (recordOutcome_cases o r s) as [(_ & msg & ->)|(Hd & _)];
    [|congruence].
  destruct (cleanupWorktree_fields o r (recordFailure o (task r) msg s))
    as ((evs & Ht & Hq) & C2 & C3 & C4 & C5 & C6 & C7).
  destruct (recordFailure_fields o (task r) msg s)
    as (F1 & F2 & F3 & F4 & F5 & F6 & F7 & F8).
  cbn zeta. rewrite C2, C3, C4, C5, C6, C7, Ht, F1, <- app_assoc.
  split; [exists msg, evs; now split|]. now repeat split.
Qed.

Lemma processResult_done (o : Options) (s : Run (W := W))
    (r : ParallelAgentResult) :
  agentFailed r = false ->
  exists a,
    result r = Some a /\
    let s' := processResult o s r in
    (exists evs,
        trace s' = trace s ++ TaskCompleted (task r) :: evs
        /\ forallb quiet evs = true)
    /\ totals s'
       = {| tasksCompleted := tasksCompleted (totals s) + 1;
            tasksFailed := tasksFailed (totals s);
            totalInputTokens :=
              Number.add (totalInputTokens (totals s)) (Types.inputTokens a);
            totalOutputTokens :=
              Number.add (totalOutputTokens (totals s)) (Types.outputTokens a) |}
    /\ globalAgentNum s' = globalAgentNum s
    /\ completedBranches s'
       = completedBranches s ++ List.filter nonempty [branchName r]
    /\ failedTaskIds s' = failedTaskIds s
    /\ iteration s' = iteration s
    /\ State.agents (registry s') = State.agents (registry s)
    /\ State.summary (registry s')
       = {| State.total := State.total (State.summary (registry s));
            State.completed := tasksCompleted (totals s) + 1;
            State.failed := State.failed (State.summary (registry s));
            State.inProgress := State.inProgress (State.summary (registry s)) |}.
Proof.
  intros Hd. unfold processResult.
  destruct (recordOutcome_cases o r s) as [(Hf & _)|(_ & a & Hr & _ & ->)];
    [congruence|].
  exists a. split; [exact Hr|].
  destruct (cleanupWorktree_fields o r (recordSuccess o r a s))
    as ((evs & Ht & Hq) & C2 & C3 & C4 & C5 & C6 & C7).
  destruct (recordSuccess_fields o r a s)
    as (F1 & F2 & F3 & F4 & F5 & F6 & F7 & F8).
  cbn zeta. rewrite C2, C3, C4, C5, C6, C7, Ht, F1, <- app_assoc.
  split; [exists evs; now split|]. now repeat split.
Qed.

Lemma add_exact (a b : Z) :
  (0 <= a)%Z -> (0 <= b)%Z -> (a + b <= 2 ^ 53)%Z -> Number.add a b = (a + b)%Z.
Proof.
  intros Ha Hb Hab. unfold Number.add, Number.nearest.
  rewrite Z.abs_eq by lia.
  destruct (Z.leb_spec (a + b) (2 ^ 53)); [reflexivity | lia].
Qed.

Lemma tokens_nonneg (f : Types.AIResult -> Z) (rs : list ParallelAgentResult) :
  Forall (fun r => (0 <= from_option f 0 (result r))%Z) (done rs) ->
  (0 <= tokens f rs)%Z.
Proof.
  unfold tokens. induction 1 as [|r l Hr _ IH]; cbn [foldr]; lia.
Qed.

Lemma results_tokens (f : Types.AIResult -> Z) (total : ExecutionResult -> Z)
    (o : Options) (rs : list ParallelAgentResult) (s : Run (W := W)) :
  (forall s r, agentFailed r = true ->
               total (totals (processResult o s r)) = total (totals s)) ->
  (forall s r a, agentFailed r = false -> result r = Some a ->
                 total (totals (processResult o s r))
                 = Number.add (total (totals s)) (f a)) ->
  exact (total (totals s)) f rs ->
  total (totals (fold_left (processResult o) rs s))
  = (total (totals s) + tokens f rs)%Z.
Proof.
  intros Hfail Hdone. revert s.
  induction rs as [|r rs IH]; intros s (Hpos & Hall & Hmax).
  - unfold tokens. cbn. lia.
  - cbn [fold_left]. revert Hall Hmax. unfold tokens, done.
    cbn [List.filter]. destruct (agentFailed r) eqn:Hf; cbn [negb]; intros Hall Hmax.
    + rewrite IH; rewrite (Hfail s r Hf); [reflexivity|]. now repeat split.
    + apply Forall_cons in Hall as [Hr Hall]. cbn [foldr] in Hmax |- *.
      pose proof (tokens_nonneg f rs Hall) as Hrest. unfold tokens, done in Hrest.
      destruct (processResult_done o s r Hf) as (a & Ha & _).
      rewrite Ha in Hr, Hmax |- *. cbn [from_option] in Hr, Hmax |- *.
      assert (E : total (totals (processResult o s r))
                  = (total (totals s) + f a)%Z).
      { rewrite (Hdone s r a Hf Ha). apply add_exact; lia. }
      rewrite IH; rewrite E; [unfold tokens, done; lia|].
      repeat split; [lia | exact Hall | unfold tokens, done; lia].
Qed.

Lemma results_counts (o : Options) (rs : list ParallelAgentResult)
    (s : Run (W := W)) :
  let s' := fold_left (processResult o) rs s in
  tasksCompleted (totals s')
  = (tasksCompleted (totals s) + Z.of_nat (length (done rs)))%Z
  /\ tasksFailed (totals s')
     = (tasksFailed (totals s) + Z.of_nat (length (List.filter agentFailed rs)))%Z
  /\ completedBranches s'
     = completedBranches s ++ List.filter nonempty (map branchName (done rs))
  /\ failedTaskIds s'
     = failedTaskIds s
       ∪ list_to_set (map (fun r => Tasks.id (task r)) (List.filter agentFailed rs))
  /\ globalAgentNum s' = globalAgentNum s
  /\ State.agents (registry s') = State.agents (registry s).
Proof.
  revert s. induction rs as [|r rs IH]; intros s.
  - cbn. rewrite !Z.add_0_r, app_nil_r, union_empty_r_L.
    now repeat split.
  - cbn [fold_left]. cbn zeta.
    destruct (IH (processResult o s r)) as (I1 & I2 & I5 & I6 & I7 & I8).
    rewrite I1, I2, I5, I6, I7, I8. clear I1 I2 I5 I6 I7 I8 IH.
    unfold done. cbn [List.filter map].
    destruct (agentFailed r) eqn:Hf; cbn [negb].
    + destruct (processResult_failed o s r Hf)
        as (_ & F2 & F3 & F4 & F5 & _ & F7 & _).
      rewrite F2, F3, F4, F5, F7. cbn [tasksCompleted tasksFailed
        length map list_to_set].
      repeat split; try reflexivity; try lia.
      now rewrite (union_comm_L _ (failedTaskIds s)), union_assoc_L.
    + destruct (processResult_done o s r Hf)
        as (a & Hr & _ & F2 & F3 & F4 & F5 & _ & F7 & _).
      rewrite F2, F3, F4, F5, F7. cbn [tasksCompleted tasksFailed
        length map].
      repeat split; try reflexivity; try lia.
      cbn [List.filter]. destruct (nonempty (branchName r)); cbn [app];
        [now rewrite <- app_assoc | now rewrite app_nil_r].
Qed.

(** X16.  Processing the results of a batch adds to the completed
    count the number of results that did not fail and to the failed
    count the number of those that did; the token totals grow by the
    tokens of the completed results only, as long as the totals and
    the token counts are not negative and the new totals are at most
    2^53, up to where the sums of Numbers are exact; the branches of
    the completed results that have a name are appended, in order, to
    the branches to merge; the tasks of the failed results join the
    failed set.  No agent number is used and no agent record changes. *)
Theorem results_accounting (o : Options) (rs : list ParallelAgentResult)
    (s : Run (W := W)) :
  let s' := fold_left (processResult o) rs s in
  tasksCompleted (totals s')
  = (tasksCompleted (totals s) + Z.of_nat (length (done rs)))%Z
  /\ tasksFailed (totals s')
     = (tasksFailed (totals s) + Z.of_nat (length (List.filter agentFailed rs)))%Z
  /\ (exact (totalInputTokens (totals s)) Types.inputTokens rs ->
      totalInputTokens (totals s')
      = (totalInputTokens (totals s) + tokens Types.inputTokens rs)%Z)
  /\ (exact (totalOutputTokens (totals s)) Types.outputTokens rs ->
      totalOutputTokens (totals s')
      = (totalOutputTokens (totals s) + tokens Types.outputTokens rs)%Z)
  /\ completedBranches s'
     = completedBranches s ++ List.filter nonempty (map branchName (done rs))
  /\ failedTaskIds s'
     = failedTaskIds s
       ∪ list_to_set (map (fun r => Tasks.id (task r)) (List.filter agentFailed rs))
  /\ globalAgentNum s' = globalAgentNum s
  /\ State.agents (registry s') = State.agents (registry s).
Proof.
  destruct (results_counts o rs s) as (C1 & C2 & C5 & C6 & C7 & C8).
  cbn zeta. split; [exact C1|]. split; [exact C2|].
  split; [|split; [|now repeat split]].
  - apply results_tokens.
    + intros s0 r Hf.
      destruct (processResult_failed o s0 r Hf) as (_ & -> & _). reflexivity.
    + intros s0 r a Hf Ha.
      destruct (processResult_done o s0 r Hf) as (a' & Ha' & _ & -> & _).
      rewrite Ha in Ha'. now injection Ha' as <-.
  - apply results_tokens.
    + intros s0 r Hf.
      destruct (processResult_failed o s0 r Hf) as (_ & -> & _). reflexivity.
    + intros s0 r a Hf Ha.
      destruct (processResult_done o s0 r Hf) as (a' & Ha' & _ & -> & _).
      rewrite Ha in Ha'. now injection Ha' as <-.
Qed.

(** *** The ledger is kept by every step of the loop *)

Lemma ledger_same (p : nat) (s s' : Run (W := W)) :
  totals s' = totals s ->
  count is_completed (trace s') = count is_completed (trace s) ->
  count is_failed (trace s') = count is_failed (trace s) ->
  globalAgentNum s' = globalAgentNum s ->
  State.completed (State.summary (registry s'))
  = State.completed (State.summary (registry s)) ->
  State.failed (State.summary (registry s'))
  = State.failed (State.summary (registry s)) ->
  completedBranches s' = completedBranches s ->
  ledger p s -> ledger p s'.
Proof. unfold ledger. now intros -> -> -> -> -> -> ->. Qed.

Lemma ledger_emit (p : nat) (e : event) (s : Run (W := W)) :
  is_completed e = false -> is_failed e = false ->
  ledger p s -> ledger p (emit e s).
Proof.
  intros Hc Hf. apply ledger_same; try reflexivity;
    cbn [trace emit]; rewrite count_app; unfold count; cbn;
    rewrite ?Hc, ?Hf; cbn; lia.
Qed.

Lemma ledger_world (p : nat) (w : W) (s : Run (W := W)) :
  ledger p s -> ledger p (with_world w s).
Proof. now apply ledger_same. Qed.

Lemma ledger_summarise (p : nat) (u : State.SummaryUpdates) (o : Options)
    (s : Run (W := W)) :
  State.new_completed u = None -> State.new_failed u = None ->
  ledger p s -> ledger p (summarise u o s).
Proof.
  intros Hc Hf.
  destruct (summarise_fields u o s) as (F1 & F2 & F3 & F4 & F5 & F6 & F7 & F8).
  apply ledger_same; try assumption; try (now rewrite F1);
    rewrite F8; unfold State.spread_summary; cbn; now rewrite ?Hc, ?Hf.
Qed.

Lemma ledger_processResult (p : nat) (o : Options) (s : Run (W := W))
    (r : ParallelAgentResult) :
  ledger (S p) s -> ledger p (processResult o s r).
Proof.
  intros (L1 & L2 & L3 & L4 & L5 & L6 & L7).
  destruct (agentFailed r) eqn:Hf.
  - destruct (processResult_failed o s r Hf)
      as ((msg & evs & Ht & Hq) & F2 & F3 & F4 & F5 & _ & _ & F8).
    destruct (count_quiet evs Hq) as (Q1 & Q2 & _).
    unfold ledger. rewrite Ht, F2, F3, F4, F8, !count_app.
    change (TaskFailed (task r) msg :: evs) with ([TaskFailed (task r) msg] ++ evs).
    rewrite !count_app, Q1, Q2. unfold count at 2 4 6. cbn.
    repeat split; try assumption; try lia.
  - destruct (processResult_done o s r Hf)
      as (a & _ & (evs & Ht & Hq) & F2 & F3 & F4 & _ & _ & _ & F8).
    destruct (count_quiet evs Hq) as (Q1 & Q2 & _).
    unfold ledger. rewrite Ht, F2, F3, F4, F8, !count_app.
    change (TaskCompleted (task r) :: evs) with ([TaskCompleted (task r)] ++ evs).
    rewrite !count_app, Q1, Q2. unfold count at 2 4 6. cbn.
    repeat split; try assumption; try lia.
    + rewrite length_app. destruct (nonempty (branchName r)); cbn; lia.
    + apply Forall_app. split; [assumption|].
      destruct (branchName r) eqn:Eb; cbn; [constructor|].
      constructor; [discriminate | constructor].
Qed.

Lemma ledger_results (p : nat) (o : Options) (rs : list ParallelAgentResult)
    (s : Run (W := W)) :
  ledger (length rs + p) s -> ledger p (fold_left (processResult o) rs s).
Proof.
  revert s. induction rs as [|r rs IH]; intros s Hl; [exact Hl|].
  cbn [fold_left]. apply IH. apply ledger_processResult.
  exact Hl.
Qed.

End Accounting.

(** ** The loop of the scheduler *)

Section Schedule.

Import Parallel Ledger.

Context {W : Type}.
Context `{!State.Host W, !Tasks.TaskSource W, !Git.Repository W,
          !Engine.AIEngine W}.

Variable unicodeLower : jsstring -> jsstring.

Lemma same_books_refl (s : Run (W := W)) : same_books s s.
Proof. unfold same_books. now repeat split. Qed.

Lemma same_books_trans (s1 s2 s3 : Run (W := W)) :
  same_books s1 s2 -> same_books s2 s3 -> same_books s1 s3.
Proof.
  unfold same_books.
  intros (A1 & A2 & A3 & A4 & A5 & A6 & A7) (B1 & B2 & B3 & B4 & B5 & B6 & B7).
  repeat split; congruence.
Qed.

Lemma same_books_summarise (u : State.SummaryUpdates) (o : Options)
    (s : Run (W := W)) :
  State.new_completed u = None -> State.new_failed u = None ->
  same_books s (summarise u o s).
Proof.
  intros Hc Hf.
  destruct (summarise_fields u o s) as (F1 & F2 & F3 & F4 & F5 & F6 & F7 & F8).
  unfold same_books. rewrite F8. unfold State.spread_summary. cbn.
  rewrite Hc, Hf. now repeat split.
Qed.

Lemma field_agents (st st' : State.RalphyState) (agentId : jsstring) (k : string) :
  State.agents st' !! agentId = State.agents st !! agentId ->
  Registry.field st' agentId k = Registry.field st agentId k.
Proof. unfold Registry.field. now intros ->. Qed.

Lemma launch_fields (o : Options) (worktreeBase : jsstring)
    (batch : list Tasks.Task) (s : Run (W := W)) :
  let l := launch unicodeLower o worktreeBase batch s in
  length l.1 = length batch
  /\ map task l.1 = batch
  /\ globalAgentNum l.2 = globalAgentNum s + N.of_nat (length batch)
  /\ trace l.2 = trace s
  /\ totals l.2 = totals s
  /\ completedBranches l.2 = completedBranches s
  /\ failedTaskIds l.2 = failedTaskIds s
  /\ iteration l.2 = iteration s
  /\ State.summary (registry l.2) = State.summary (registry s)
  /\ (forall key : jsstring,
        (forall k, globalAgentNum s < k <= globalAgentNum l.2 -> key <> toString k) ->
        State.agents (registry l.2) !! key = State.agents (registry s) !! key)
  /\ (forall k,
        globalAgentNum s < k <= globalAgentNum l.2 ->
        exists failed : bool,
          Registry.field (registry l.2) (toString k) "status"
          = Some (VStr (if failed then "failed" else "completed"))).
Proof.
  revert s. induction batch as [|t rest IH]; intros s.
  - cbn. rewrite N.add_0_r. repeat split; try reflexivity. intros k Hk. lia.
  - cbn [launch].
    destruct (runAgentInWorktree unicodeLower o t (globalAgentNum (next_agent s))
                worktreeBase (env (next_agent s))) as [r rw] eqn:Er.
    pose proof (runAgent_fields unicodeLower o t (globalAgentNum (next_agent s))
                  worktreeBase (env (next_agent s))) as Hfields.
    pose proof (runAgent_frame unicodeLower o t (globalAgentNum (next_agent s))
                  worktreeBase (env (next_agent s))) as Hframe.
    rewrite Er in Hfields, Hframe. cbn [fst snd] in Hfields, Hframe.
    destruct Hfields as (Htask & _ & _ & Hstatus).
    assert (Hother : forall other : jsstring,
               other <> toString (globalAgentNum s + 1) ->
               State.agents rw.1 !! other = State.agents (registry s) !! other)
      by (intros other; exact (proj1 (Hframe other))).
    pose proof (proj2 (Hframe [])) as Hsum.
    specialize (IH (with_env rw (next_agent s))).
    destruct (launch unicodeLower o worktreeBase rest (with_env rw (next_agent s)))
      as [rs s2].
    cbn [fst snd] in *.
    destruct IH as (I1 & I2 & I3 & I4 & I5 & I6 & I7 & I8 & I9 & I10 & I11).
    cbn [with_env next_agent globalAgentNum trace totals completedBranches
           failedTaskIds iteration registry env fst snd] in *.
    repeat split.
    + cbn [length]. now rewrite I1.
    + cbn [map]. now rewrite Htask, I2.
    + cbn [length]. rewrite I3. lia.
    + exact I4.
    + exact I5.
    + exact I6.
    + exact I7.
    + exact I8.
    + now rewrite I9.
    + intros key Hkey. rewrite I10.
      * apply Hother. apply Hkey. lia.
      * intros k Hk. apply Hkey. lia.
    + intros k Hk.
      destruct (N.eq_dec k (globalAgentNum s + 1)) as [->|Hne].
      * eexists. rewrite <- Hstatus. apply field_agents. apply I10.
        intros k Hk' E. apply toString_inj in E. lia.
      * apply I11. lia.
Qed.

Lemma processResults_fields (o : Options) (rs : list ParallelAgentResult)
    (s : Run (W := W)) :
  let s' := fold_left (processResult o) rs s in
  globalAgentNum s' = globalAgentNum s
  /\ iteration s' = iteration s
  /\ State.agents (registry s') = State.agents (registry s)
  /\ exists evs,
       trace s' = trace s ++ evs
       /\ batchNumbers evs = [] /\ batches evs = [] /\ launched evs = 0%nat.
Proof.
  revert s. induction rs as [|r rs IH]; intros s.
  - cbn. repeat split. exists []. now rewrite app_nil_r.
  - cbn [fold_left]. cbn zeta.
    destruct (IH (processResult o s r)) as (I1 & I2 & I3 & evs & I4 & I5 & I6 & I7).
    rewrite I1, I2, I3, I4. clear IH I1 I2 I3 I4.
    destruct (agentFailed r) eqn:Hf.
    + destruct (processResult_failed o s r Hf)
        as ((msg & evs1 & Ht & Hq) & _ & F3 & _ & _ & F6 & F7 & _).
      destruct (count_quiet evs1 Hq) as (_ & _ & Q3 & Q4 & Q5).
      rewrite Ht, F3, F6, F7. repeat split.
      exists ((TaskFailed (task r) msg :: evs1) ++ evs).
      rewrite <- app_assoc. split; [reflexivity|].
      unfold batchNumbers, batches in *. rewrite !omap_app. cbn.
      rewrite Q3, Q4, I5, I6. repeat split.
      clear -Q5 I7. induction evs1 as [|e evs1 IHe]; [exact I7|].
      destruct e; cbn in *; try (apply IHe; assumption); lia.
    + destruct (processResult_done o s r Hf)
        as (a & _ & (evs1 & Ht & Hq) & _ & F3 & _ & _ & F6 & F7 & _).
      destruct (count_quiet evs1 Hq) as (_ & _ & Q3 & Q4 & Q5).
      rewrite Ht, F3, F6, F7. repeat split.
      exists ((TaskCompleted (task r) :: evs1) ++ evs).
      rewrite <- app_assoc. split; [reflexivity|].
      unfold batchNumbers, batches in *. rewrite !omap_app. cbn.
      rewrite Q3, Q4, I5, I6. repeat split.
      clear -Q5 I7. induction evs1 as [|e evs1 IHe]; [exact I7|].
      destruct e; cbn in *; try (apply IHe; assumption); lia.
Qed.

Ltac books := unfold same_books; cbn; now repeat split.

Lemma batchStep_cases (o : Options) (worktreeBase : jsstring) (s : Run (W := W)) :
  let step := batchStep unicodeLower o worktreeBase s in
  (step.1 = false
   /\ same_books s step.2
   /\ iteration step.2 = iteration s
   /\ exists evs, trace step.2 = trace s ++ evs /\ forallb quiet evs = true)
  \/ (step.1 = true
      /\ ((0 < maxIterations o)%Z -> (iteration s < maxIterations o)%Z)
      /\ exists (tasks : list Tasks.Task) (s4 : Run),
           tasks <> []
           /\ same_books s s4
           /\ iteration s4 = (iteration s + 1)%Z
           /\ trace s4
              = trace s ++ [Batch (iteration s + 1) (slice0 tasks (maxParallel o))]
           /\ ((dryRun o = true /\ step.2 = emit DryRunSkip s4)
               \/ (dryRun o = false
                   /\ step.2
                      = fold_left (processResult o)
                          (launch unicodeLower o worktreeBase
                             (slice0 tasks (maxParallel o)) s4).1
                          (launch unicodeLower o worktreeBase
                             (slice0 tasks (maxParallel o)) s4).2))).
Proof.
  unfold batchStep.
  destruct ((0 <? maxIterations o)%Z && (maxIterations o <=? iteration s)%Z)
    eqn:Hlim.
  { left. cbn. split; [reflexivity|]. split; [books|].
    split; [reflexivity|]. now exists [ReachedMaxIterations (maxIterations o)]. }
  destruct (offeredTasks (world s)) as [[allTasks|] w1].
  2:{ left. cbn. split; [reflexivity|]. split; [books|].
      split; [reflexivity|]. exists []. now rewrite app_nil_r. }
  destruct (List.filter (notFailed (with_world w1 s)) allTasks) as [|t0 tasks0] eqn:Ef.
  { left. cbn. split; [reflexivity|]. split; [books|].
    split; [reflexivity|]. eexists [_]. split; [reflexivity|].
    now destruct allTasks. }
  right.
  set (s2 := if (iteration (with_world w1 s) =? 0)%Z then _ else _).
  assert (Hs2 : same_books s s2 /\ iteration s2 = iteration s /\ trace s2 = trace s).
  { subst s2. destruct (iteration (with_world w1 s) =? 0)%Z.
    - destruct (Tasks.countRemaining (world (with_world w1 s))) as [n w2].
      match goal with
      | |- context [summarise ?u o ?s0] =>
          destruct (summarise_fields u o s0) as (F1 & F2 & F3 & F4 & F5 & F6 & F7 & F8);
          pose proof (same_books_summarise u o s0 eq_refl eq_refl) as Hsame
      end.
      split; [|split; assumption].
      eapply same_books_trans; [|exact Hsame]. books.
    - split; [books | now split]. }
  destruct Hs2 as (B2 & I2 & T2). clearbody s2.
  match goal with
  | |- context [summarise ?u o ?s0] =>
      destruct (summarise_fields u o s0) as (F1 & F2 & F3 & F4 & F5 & F6 & F7 & F8);
      pose proof (same_books_summarise u o s0 eq_refl eq_refl) as Hsame;
      set (s4 := summarise u o s0) in *
  end.
  cbn [trace emit next_iteration iteration] in F1, F6.
  assert (Hgo : (0 < maxIterations o)%Z -> (iteration s < maxIterations o)%Z).
  { intros Hpos. apply andb_false_iff in Hlim as [Hlim|Hlim].
    - apply Z.ltb_ge in Hlim. lia.
    - now apply Z.leb_gt in Hlim. }
  destruct (dryRun o) eqn:Hdry.
  - cbn [fst snd]. split; [reflexivity|]. split; [exact Hgo|].
    exists (t0 :: tasks0), s4. split; [discriminate|].
    split; [eapply same_books_trans; [exact B2|]; eapply same_books_trans; [|exact Hsame]; books|].
    split; [now rewrite F6, I2|]. split; [now rewrite F1, T2, I2|].
    left. now split.
  - destruct (launch unicodeLower o worktreeBase _ s4) as [results s5] eqn:El.
    cbn [fst snd]. split; [reflexivity|]. split; [exact Hgo|].
    exists (t0 :: tasks0), s4. split; [discriminate|].
    split; [eapply same_books_trans; [exact B2|]; eapply same_books_trans; [|exact Hsame]; books|].
    split; [now rewrite F6, I2|]. split; [now rewrite F1, T2, I2|].
    right. split; [reflexivity|]. now rewrite El.
Qed.

Lemma batchLoop_invariant (P : Run (W := W) -> Prop) (o : Options)
    (worktreeBase : jsstring) :
  (forall s, P s -> P (batchStep unicodeLower o worktreeBase s).2) ->
  forall fuel s, P s -> P (batchLoop unicodeLower fuel o worktreeBase s).2.
Proof.
  intros Hstep. induction fuel as [|fuel IH]; intros s Hs; [exact Hs|].
  cbn [batchLoop]. specialize (Hstep s Hs).
  destruct (batchStep unicodeLower o worktreeBase s) as [[|] s'];
    [now apply IH | exact Hstep].
Qed.

End Schedule.

(** ** The merge phase and the books of the run *)

Section MergeFrame.

Import Parallel Ledger.

Context {W : Type}.
Context `{!State.Host W, !Tasks.TaskSource W, !Git.Repository W,
          !Engine.AIEngine W}.

Lemma quietly_refl (s : Run (W := W)) : quietly s s.
Proof. unfold quietly. repeat split. exists []. now rewrite app_nil_r. Qed.

Lemma quietly_trans (s1 s2 s3 : Run (W := W)) :
  quietly s1 s2 -> quietly s2 s3 -> quietly s1 s3.
Proof.
  intros (A1 & A2 & A3 & A4 & A5 & A6 & evs1 & A7 & A8)
         (B1 & B2 & B3 & B4 & B5 & B6 & evs2 & B7 & B8).
  unfold quietly. repeat split; try congruence.
  exists (evs1 ++ evs2). rewrite B7, A7, app_assoc. split; [reflexivity|].
  now rewrite forallb_app, A8, B8.
Qed.

Lemma quietly_emit (e : event) (s : Run (W := W)) :
  quiet e = true -> quietly s (emit e s).
Proof.
  intros He. unfold quietly. repeat split. exists [e]. cbn. now rewrite He.
Qed.

Lemma quietly_world (w : W) (s : Run (W := W)) : quietly s (with_world w s).
Proof. unfold quietly. repeat split. exists []. cbn. now rewrite app_nil_r. Qed.

Ltac quietly_steps :=
  repeat first
    [ apply quietly_refl
    | eapply quietly_trans; [|apply quietly_emit; reflexivity]
    | eapply quietly_trans; [|apply quietly_world] ].

Lemma mergeBranch_fields (targetBranch dir : jsstring) (mo : option jsstring)
    (merged failed : list jsstring) (s : Run (W := W)) (branch : jsstring) :
  let step := mergeBranch targetBranch dir mo (merged, failed, s) branch in
  (step.1 = (merged ++ [branch], failed) \/ step.1 = (merged, failed ++ [branch]))
  /\ quietly s step.2.
Proof.
  unfold mergeBranch.
  destruct (Git.mergeAgentBranch _ _ _ _) as [mr w1].
  destruct (Git.success mr); [split; [now left | quietly_steps]|].
  destruct (Git.hasConflicts mr), (Git.conflictedFiles mr) as [files|];
    try (split; [now right | quietly_steps]).
  destruct (Engine.resolveConflictsWithAI _ _ _ _ _) as [[|] w2];
    (split; [first [now left | now right] | quietly_steps]).
Qed.

Lemma mergeLoop_fields (targetBranch dir : jsstring) (mo : option jsstring)
    (branches merged failed : list jsstring) (s : Run (W := W)) :
  let loop :=
    fold_left (mergeBranch targetBranch dir mo) branches (merged, failed, s) in
  (exists m f,
      loop.1 = (merged ++ m, failed ++ f)
      /\ sublist m branches /\ sublist f branches)
  /\ quietly s loop.2.
Proof.
  revert merged failed s.
  induction branches as [|b bs IH]; intros merged failed s.
  - cbn. split; [|apply quietly_refl]. exists [], []. now rewrite !app_nil_r.
  - cbn [fold_left].
    destruct (mergeBranch_fields targetBranch dir mo merged failed s b) as [Hc Hq].
    destruct (mergeBranch targetBranch dir mo (merged, failed, s) b)
      as [[merged1 failed1] s1].
    cbn [fst snd] in Hc, Hq.
    destruct (IH merged1 failed1 s1) as [(m & f & E & Hm & Hf) Hq'].
    cbn zeta. split; [|eapply quietly_trans; eassumption].
    destruct Hc as [Hc|Hc]; injection Hc as -> ->.
    + exists (b :: m), f. rewrite E, <- app_assoc.
      split; [reflexivity|]. split; [now apply sublist_skip | now apply sublist_cons].
    + exists m, (b :: f). rewrite E, <- app_assoc.
      split; [reflexivity|]. split; [now apply sublist_cons | now apply sublist_skip].
Qed.

Lemma deleteMerged_quietly (dir : jsstring) (merged : list jsstring)
    (s : Run (W := W)) :
  quietly s (fold_left (deleteMerged dir) merged s).
Proof.
  revert s. induction merged as [|b bs IH]; intros s; [apply quietly_refl|].
  cbn [fold_left]. eapply quietly_trans; [|apply IH].
  unfold deleteMerged. destruct (Git.deleteLocalBranch _ _ _ _) as [deleted w].
  quietly_steps.
Qed.

Lemma mergePhase_quietly (o : Options) (startingBranch base : jsstring)
    (s : Run (W := W)) :
  quietly s (mergePhase o startingBranch base s).
Proof.
  unfold mergePhase.
  destruct (negb (skipMerge o) && negb (dryRun o)
            && nonempty_list (completedBranches s)); [|apply quietly_refl].
  assert (Hm : quietly s
                 (mergeCompletedBranches (completedBranches s) base (workDir o)
                    (modelOverride o) s)).
  { unfold mergeCompletedBranches.
    destruct (completedBranches s) as [|b0 bs] eqn:Eb; [apply quietly_refl|].
    destruct (mergeLoop_fields base (workDir o) (modelOverride o) (b0 :: bs) [] []
                (emit (MergePhase (b0 :: bs) base) s)) as [_ Hq].
    destruct (fold_left _ (b0 :: bs) _) as [[merged failed] s1].
    cbn [fst snd] in Hq.
    eapply quietly_trans; [|apply quietly_emit; reflexivity].
    eapply quietly_trans; [|apply deleteMerged_quietly].
    eapply quietly_trans; [|exact Hq]. now apply quietly_emit. }
  destruct (Git.getCurrentBranch _ _) as [currentBranch w].
  destruct (bool_decide (currentBranch ≠ startingBranch));
    (eapply quietly_trans; [exact Hm|]); quietly_steps.
Qed.

(** X17.  The merge pipeline keeps the order of the branches: the
    merged branches and the failed ones are each a subsequence of the
    branches it was given.  The merge phase changes none of the
    counts of the run, nor the failed set, the agent numbers or the
    registry: what it adds to the trace neither starts a batch nor
    reports a task. *)
Theorem merge_phase_frame (o : Options) (startingBranch base : jsstring)
    (branches : list jsstring) (s : Run (W := W)) :
  (let loop :=
     fold_left (mergeBranch base (workDir o) (modelOverride o)) branches
       ([], [], emit (MergePhase branches base) s) in
   sublist loop.1.1 branches /\ sublist loop.1.2 branches)
  /\ (let s' := mergePhase o startingBranch base s in
      totals s' = totals s
      /\ registry s' = registry s
      /\ failedTaskIds s' = failedTaskIds s
      /\ globalAgentNum s' = globalAgentNum s
      /\ completedBranches s' = completedBranches s
      /\ exists evs, trace s' = trace s ++ evs /\ forallb quiet evs = true).
Proof.
  split.
  - destruct (mergeLoop_fields base (workDir o) (modelOverride o) branches [] []
                (emit (MergePhase branches base) s)) as [(m & f & E & Hm & Hf) _].
    cbn zeta. rewrite E. now split.
  - destruct (mergePhase_quietly o startingBranch base s)
      as (Q1 & Q2 & Q3 & Q4 & Q5 & Q6 & Q7).
    cbn zeta. now repeat split.
Qed.

End MergeFrame.

(** ** What holds of every run *)

Section RunInvariants.

Import Parallel Ledger.

Context {W : Type}.
Context `{!State.Host W, !Tasks.TaskSource W, !Git.Repository W,
          !Engine.AIEngine W}.

Variable unicodeLower : jsstring -> jsstring.

Lemma runBatches_invariant (P : Run (W := W) -> Prop) (o : Options)
    (rw : State.RalphyState * W) :
  (forall w, P (start (rw.1, w))) ->
  (forall worktreeBase s,
      P s -> P (batchStep unicodeLower o worktreeBase s).2) ->
  forall fuel, P (runBatches unicodeLower fuel o rw).2.
Proof.
  intros Hstart Hstep fuel. unfold runBatches, prologue.
  destruct (Git.getCurrentBranch _ _) as [startingBranch w1].
  apply batchLoop_invariant; [apply Hstep | apply Hstart].
Qed.

Lemma runParallel_loop (fuel : nat) (o : Options) (rw : State.RalphyState * W)
    (res : ExecutionResult) (s : Run (W := W)) :
  runParallel unicodeLower fuel o rw = Some (res, s) ->
  res = totals s
  /\ exists startingBranch base,
       s = mergePhase o startingBranch base (runBatches unicodeLower fuel o rw).2.
Proof.
  unfold runParallel, runBatches, prologue.
  destruct (Git.getCurrentBranch _ _) as [startingBranch w1].
  destruct (batchLoop _ _ _ _ _) as [[|] s']; [discriminate|].
  intros E. injection E as <- <-. split; [reflexivity|]. eauto.
Qed.

Lemma quietly_books (s s' : Run (W := W)) :
  quietly s s' ->
  same_books s s' /\ iteration s' = iteration s
  /\ exists evs, trace s' = trace s ++ evs /\ forallb quiet evs = true.
Proof.
  intros (Q1 & Q2 & Q3 & Q4 & Q5 & Q6 & Q7).
  unfold same_books. rewrite Q1. now repeat split.
Qed.

Lemma ledger_books (p : nat) (s s' : Run (W := W)) (evs : list event) :
  same_books s s' ->
  trace s' = trace s ++ evs ->
  count is_completed evs = 0%nat -> count is_failed evs = 0%nat ->
  ledger p s -> ledger p s'.
Proof.
  intros (B1 & B2 & B3 & B4 & B5 & B6 & B7) Ht Hc Hf.
  apply ledger_same; try assumption;
    rewrite Ht, count_app, ?Hc, ?Hf; lia.
Qed.

Lemma ledger_launch (o : Options) (worktreeBase : jsstring)
    (batch : list Tasks.Task) (s : Run (W := W)) :
  ledger 0 s ->
  ledger (length (launch unicodeLower o worktreeBase batch s).1 + 0)
    (launch unicodeLower o worktreeBase batch s).2.
Proof.
  destruct (launch_fields unicodeLower o worktreeBase batch s)
    as (F1 & _ & F3 & F4 & F5 & F6 & _ & _ & F9 & _).
  cbn zeta in *. unfold ledger.
  rewrite F1, F3, F4, F5, F6, F9.
  intros (L1 & L2 & L3 & L4 & L5 & L6 & L7). repeat split; try assumption. lia.
Qed.

Lemma ledger_batchStep (o : Options) (worktreeBase : jsstring)
    (s : Run (W := W)) :
  ledger 0 s -> ledger 0 (batchStep unicodeLower o worktreeBase s).2.
Proof.
  intros Hl.
  destruct (batchStep_cases unicodeLower o worktreeBase s)
    as [(_ & Hb & _ & evs & Ht & Hq)
       |(_ & _ & tasks & s4 & _ & Hb & _ & Ht & Hend)].
  - destruct (count_quiet evs Hq) as (Q1 & Q2 & _).
    exact (ledger_books 0 _ _ evs Hb Ht Q1 Q2 Hl).
  - assert (L4 : ledger 0 s4)
      by exact (ledger_books 0 _ _ _ Hb Ht eq_refl eq_refl Hl).
    destruct Hend as [[_ ->]|[_ ->]].
    + now apply ledger_emit.
    + apply ledger_results. now apply ledger_launch.
Qed.

Lemma ledger_start (rw : State.RalphyState * W) : ledger 0 (start rw).
Proof.
  unfold ledger, start, count. cbn. repeat split; try lia. constructor.
Qed.

(** X18.  At the end of every turn of the loop, and when
    [runParallel] returns, the completed and failed counts are the
    numbers of tasks reported completed and failed, and together they
    are the number of agents started: every agent was counted once.
    The summary of the registry shows each count once it is positive,
    the branches to merge are non-empty names and no more than the
    completed tasks, and the returned result is the totals of the
    run. *)
Theorem run_accounting (fuel : nat) (o : Options) (rw : State.RalphyState * W) :
  ledger 0 (runBatches unicodeLower fuel o rw).2
  /\ forall res s,
       runParallel unicodeLower fuel o rw = Some (res, s) ->
       res = totals s /\ ledger 0 s.
Proof.
  assert (Hloop : ledger 0 (runBatches unicodeLower fuel o rw).2).
  { apply runBatches_invariant.
    - intros w. apply ledger_start.
    - intros base s. apply ledger_batchStep. }
  split; [exact Hloop|].
  intros res s E. apply runParallel_loop in E as (-> & sb & base & ->).
  split; [reflexivity|].
  destruct (quietly_books _ _ (mergePhase_quietly o sb base
                                 (runBatches unicodeLower fuel o rw).2))
    as (Hb & _ & evs & Ht & Hq).
  destruct (count_quiet evs Hq) as (Q1 & Q2 & _).
  exact (ledger_books 0 _ _ evs Hb Ht Q1 Q2 Hloop).
Qed.

(** *** Batches *)

Lemma launched_app (a b : list event) :
  launched (a ++ b) = (launched a + launched b)%nat.
Proof.
  induction a as [|e a IH]; [reflexivity|].
  destruct e; cbn; rewrite ?IH; lia.
Qed.

(** What a turn of the loop adds to the trace and to the counters
    of batches. *)
Lemma batchStep_trace (o : Options) (worktreeBase : jsstring)
    (s : Run (W := W)) :
  let s' := (batchStep unicodeLower o worktreeBase s).2 in
  (iteration s' = iteration s
   /\ globalAgentNum s' = globalAgentNum s
   /\ exists evs,
        trace s' = trace s ++ evs
        /\ batchNumbers evs = [] /\ batches evs = [] /\ launched evs = 0%nat)
  \/ (iteration s' = (iteration s + 1)%Z
      /\ ((0 < maxIterations o)%Z -> (iteration s < maxIterations o)%Z)
      /\ exists tasks evs,
           tasks <> []
           /\ trace s'
              = trace s
                ++ Batch (iteration s + 1) (slice0 tasks (maxParallel o)) :: evs
           /\ batchNumbers evs = [] /\ batches evs = [] /\ launched evs = 0%nat
           /\ (dryRun o = false ->
               globalAgentNum s'
               = globalAgentNum s
                 + N.of_nat (length (slice0 tasks (maxParallel o))))).
Proof.
  destruct (batchStep_cases unicodeLower o worktreeBase s)
    as [(_ & Hb & Hi & evs & Ht & Hq)
       |(_ & Hgo & tasks & s4 & Hne & Hb & Hi & Ht & Hend)]; cbn zeta.
  - left. destruct (count_quiet evs Hq) as (_ & _ & Q3 & Q4 & Q5).
    destruct Hb as (_ & B2 & _). split; [exact Hi|]. split; [exact B2|].
    exists evs. now repeat split.
  - right. destruct Hb as (_ & B2 & _).
    destruct Hend as [[Hdry ->]|[Hdry ->]].
    + split; [exact Hi|]. split; [exact Hgo|].
      exists tasks, [DryRunSkip]. split; [exact Hne|].
      cbn [trace emit]. rewrite Ht, <- app_assoc.
      repeat split. intros Hno. congruence.
    + destruct (launch_fields unicodeLower o worktreeBase
                  (slice0 tasks (maxParallel o)) s4)
        as (_ & _ & F3 & F4 & _ & _ & _ & F8 & _).
      destruct (processResults_fields o
                  (launch unicodeLower o worktreeBase
                     (slice0 tasks (maxParallel o)) s4).1
                  (launch unicodeLower o worktreeBase
                     (slice0 tasks (maxParallel o)) s4).2)
        as (P1 & P2 & _ & evs & P4 & P5 & P6 & P7).
      cbn zeta in *. rewrite P1, P2, P4, F3, F4, F8, Ht, Hi, B2, <- app_assoc.
      split; [reflexivity|]. split; [exact Hgo|].
      exists tasks, evs. now repeat split.
Qed.

Lemma numbered_step (n : Z) (numbers : list Z) :
  (0 <= n)%Z ->
  numbers = map Z.of_nat (seq 1 (Z.to_nat n)) ->
  numbers ++ [(n + 1)%Z] = map Z.of_nat (seq 1 (Z.to_nat (n + 1))).
Proof.
  intros Hn ->. replace (Z.to_nat (n + 1)) with (S (Z.to_nat n)) by lia.
  rewrite seq_S, map_app. cbn [map]. do 2 f_equal. lia.
Qed.

(** X19.  The batches of a run are numbered 1, 2, 3, ... without a
    gap, the last number being the iteration counter; with a
    positive limit on the iterations the counter never exceeds it. *)
Theorem batch_numbering (fuel : nat) (o : Options) (rw : State.RalphyState * W) :
  let s := (runBatches unicodeLower fuel o rw).2 in
  numbered s
  /\ ((maxIterations o <= 0)%Z \/ (iteration s <= maxIterations o)%Z).
Proof.
  cbn zeta.
  apply (runBatches_invariant
           (fun s => numbered s
                     /\ ((maxIterations o <= 0)%Z
                         \/ (iteration s <= maxIterations o)%Z))).
  - intros w. unfold numbered. cbn. repeat split; lia.
  - intros base s ((Hpos0 & Hn) & Hmax).
    destruct (batchStep_trace o base s)
      as [(Hi & _ & evs & Ht & Q3 & _)
         |(Hi & Hgo & tasks & evs & _ & Ht & Q3 & _)];
      cbn zeta in *; unfold numbered; rewrite Hi, Ht;
      unfold batchNumbers in *; rewrite omap_app.
    + rewrite Q3, app_nil_r. now repeat split.
    + change (Batch (iteration s + 1) (slice0 tasks (maxParallel o)) :: evs)
        with ([Batch (iteration s + 1) (slice0 tasks (maxParallel o))] ++ evs).
      rewrite omap_app, Q3, app_nil_r. simpl (omap _ [_]).
      repeat split; [lia | now apply numbered_step |].
      destruct (Z_lt_le_dec 0 (maxIterations o)) as [Hpos|Hnon];
        [right; specialize (Hgo Hpos); lia | now left].
Qed.

Lemma slice0_positive {A : Type} (l : list A) (n : Z) :
  (0 < n)%Z -> l <> [] ->
  slice0 l n <> [] /\ (Z.of_nat (length (slice0 l n)) <= n)%Z.
Proof.
  intros Hn Hl. unfold slice0.
  replace (n <? 0)%Z with false by (symmetry; apply Z.ltb_ge; lia).
  rewrite length_take. split; [|lia].
  destruct l as [|a l]; [contradiction|].
  replace (Z.to_nat n) with (S (Z.to_nat (n - 1))) by lia. discriminate.
Qed.

(** X20.  With a positive bound on the parallel agents, every batch
    of a run holds at least one task and no more tasks than the
    bound. *)
Theorem batch_sizes (fuel : nat) (o : Options) (rw : State.RalphyState * W) :
  (0 < maxParallel o)%Z ->
  Forall (fun batch => batch <> []
                       /\ (Z.of_nat (length batch) <= maxParallel o)%Z)
    (batches (trace (runBatches unicodeLower fuel o rw).2)).
Proof.
  intros Hmax.
  apply (runBatches_invariant
           (fun s => Forall (fun batch => batch <> []
                               /\ (Z.of_nat (length batch) <= maxParallel o)%Z)
                       (batches (trace s)))).
  - intros w. constructor.
  - intros base s Hs.
    destruct (batchStep_trace o base s)
      as [(_ & _ & evs & Ht & _ & Q4 & _)
         |(_ & _ & tasks & evs & Hne & Ht & _ & Q4 & _)];
      cbn zeta in *; rewrite Ht; unfold batches in *; rewrite omap_app.
    + now rewrite Q4, app_nil_r.
    + change (Batch (iteration s + 1) (slice0 tasks (maxParallel o)) :: evs)
        with ([Batch (iteration s + 1) (slice0 tasks (maxParallel o))] ++ evs).
      rewrite omap_app, Q4, app_nil_r. simpl (omap _ [_]).
      apply Forall_app. split; [exact Hs|].
      constructor; [now apply slice0_positive | constructor].
Qed.

(** X21.  Unless the run is a dry run, the agents started are as many
    as the tasks of the batches, and so are the tasks reported: each
    task of each batch got one agent and one report, completed or
    failed. *)
Theorem batches_reported (fuel : nat) (o : Options) (rw : State.RalphyState * W) :
  dryRun o = false ->
  let s := (runBatches unicodeLower fuel o rw).2 in
  launched (trace s) = N.to_nat (globalAgentNum s)
  /\ launched (trace s)
     = (count is_completed (trace s) + count is_failed (trace s))%nat.
Proof.
  intros Hdry. cbn zeta.
  assert (Hl : ledger 0 (runBatches unicodeLower fuel o rw).2).
  { apply runBatches_invariant.
    - intros w. apply ledger_start.
    - intros base s. apply ledger_batchStep. }
  assert (Hn : launched (trace (runBatches unicodeLower fuel o rw).2)
               = N.to_nat (globalAgentNum (runBatches unicodeLower fuel o rw).2)).
  { apply (runBatches_invariant
             (fun s => launched (trace s) = N.to_nat (globalAgentNum s))).
    - intros w. reflexivity.
    - intros base s Hs.
      destruct (batchStep_trace o base s)
        as [(_ & Hg & evs & Ht & _ & _ & Q5)
           |(_ & _ & tasks & evs & _ & Ht & _ & _ & Q5 & Hg)];
        cbn zeta in *; rewrite Ht, launched_app.
      + rewrite Q5, Hg. lia.
      + rewrite (Hg Hdry). cbn [launched]. rewrite Q5. lia. }
  split; [exact Hn|].
  destruct Hl as (L1 & L2 & L3 & _). rewrite Hn. lia.
Qed.

(** *** Runs that start no agent *)




(** *** The registry after the batches *)

Lemma named_or_not (key : jsstring) (n : N) :
  (exists k, 0 < k <= n /\ key = toString k)
  \/ (forall k, 0 < k <= n -> key <> toString k).
Proof.
  induction n as [|n IH] using N.peano_ind.
  - right. intros k Hk. lia.
  - destruct IH as [(k & Hk & E)|IH].
    + left. exists k. split; [lia | exact E].
    + destruct (decide (key = toString (N.succ n))) as [E|Hne].
      * left. exists (N.succ n). split; [lia | exact E].
      * right. intros k Hk. destruct (N.eq_dec k (N.succ n)) as [->|Hk'];
          [exact Hne | apply IH; lia].
Qed.

Lemma registry_books (agents0 : gmap (list N) (gmap (list N) State.value))
    (s s' : Run (W := W)) :
  same_books s s' ->
  settled s /\ others_kept agents0 s -> settled s' /\ others_kept agents0 s'.
Proof.
  intros (_ & B2 & _ & _ & B5 & _) [Hs Ho]. unfold settled, others_kept.
  rewrite B2. split.
  - intros k Hk. destruct (Hs k Hk) as [failed Hf]. exists failed.
    rewrite <- Hf. apply field_agents. now rewrite B5.
  - intros key Hkey. rewrite B5. now apply Ho.
Qed.

Lemma registry_batchStep (agents0 : gmap (list N) (gmap (list N) State.value))
    (o : Options) (worktreeBase : jsstring) (s : Run (W := W)) :
  settled s /\ others_kept agents0 s ->
  settled (batchStep unicodeLower o worktreeBase s).2
  /\ others_kept agents0 (batchStep unicodeLower o worktreeBase s).2.
Proof.
  intros Hs.
  destruct (batchStep_cases unicodeLower o worktreeBase s)
    as [(_ & Hb & _)|(_ & _ & tasks & s4 & _ & Hb & _ & _ & Hend)];
    [exact (registry_books agents0 _ _ Hb Hs)|].
  pose proof (registry_books agents0 _ _ Hb Hs) as [S4 O4].
  destruct Hend as [[_ ->]|[_ ->]]; [now split|].
  destruct (launch_fields unicodeLower o worktreeBase
              (slice0 tasks (maxParallel o)) s4)
    as (_ & _ & F3 & _ & _ & _ & _ & _ & _ & F10 & F11).
  destruct (processResults_fields o
              (launch unicodeLower o worktreeBase
                 (slice0 tasks (maxParallel o)) s4).1
              (launch unicodeLower o worktreeBase
                 (slice0 tasks (maxParallel o)) s4).2)
    as (P1 & _ & P3 & _).
  cbn zeta in *. unfold settled, others_kept. rewrite P1, P3. split.
  - intros k Hk.
    destruct (N.le_gt_cases k (globalAgentNum s4)) as [Hold|Hnew].
    + destruct (S4 k) as [failed Hf]; [lia|]. exists failed.
      rewrite <- Hf. apply field_agents. rewrite P3. apply F10.
      intros k' Hk' E. apply toString_inj in E. lia.
    + destruct (F11 k) as [failed Hf]; [lia|]. exists failed.
      rewrite <- Hf. apply field_agents. now rewrite P3.
  - intros key Hkey. rewrite F10.
    + apply O4. intros k Hk. apply Hkey. rewrite F3. lia.
    + intros k Hk. apply Hkey. lia.
Qed.

(** X23.  After any number of turns of the loop, every agent number
    used so far has a record in the registry, and its status is
    completed or failed, never pending or running; the records under
    all other keys are those the run started with.  So
    [cleanupTmuxSessions] kills no session of an agent of the run:
    the sessions it kills are sessions it would have killed before
    the run. *)
Theorem registry_after_batches (fuel : nat) (o : Options)
    (rw : State.RalphyState * W) :
  let s := (runBatches unicodeLower fuel o rw).2 in
  (forall k : N,
      0 < k <= globalAgentNum s ->
      exists record,
        State.agents (registry s) !! toString k = Some record
        /\ (record !! lit "status" = Some (VStr "completed")
            \/ record !! lit "status" = Some (VStr "failed"))
        /\ Registry.killed record = None)
  /\ (forall key : jsstring,
        (forall k : N, 0 < k <= globalAgentNum s -> key <> toString k) ->
        State.agents (registry s) !! key = State.agents rw.1 !! key)
  /\ (forall session : jsstring,
        session ∈ Registry.cleanupTmuxSessions (registry s) ->
        session ∈ Registry.cleanupTmuxSessions rw.1).
Proof.
  cbn zeta.
  assert (Hinv : settled (runBatches unicodeLower fuel o rw).2
                 /\ others_kept (State.agents rw.1)
                      (runBatches unicodeLower fuel o rw).2).
  { apply (runBatches_invariant
             (fun s => settled s /\ others_kept (State.agents rw.1) s)).
    - intros w. split; [intros k Hk; cbn in Hk; lia | now intros key _].
    - intros base s. apply registry_batchStep. }
  destruct Hinv as [Hs Ho].
  assert (Hrec : forall k : N,
             0 < k <= globalAgentNum (runBatches unicodeLower fuel o rw).2 ->
             exists record,
               State.agents (registry (runBatches unicodeLower fuel o rw).2)
               !! toString k = Some record
               /\ (record !! lit "status" = Some (VStr "completed")
                   \/ record !! lit "status" = Some (VStr "failed"))
               /\ Registry.killed record = None).
  { intros k Hk. destruct (Hs k Hk) as [failed Hf].
    pose proof (status_not_killed _ _ failed Hf) as Hkill.
    unfold Registry.field in Hf.
    destruct (State.agents _ !! toString k) as [record|]; [|discriminate Hf].
    exists record. split; [reflexivity|]. cbn in Hf.
    split; [destruct failed; [now right | now left] | now apply Hkill]. }
  split; [exact Hrec|]. split; [exact Ho|].
  intros session Hin. unfold Registry.cleanupTmuxSessions in *.
  apply list_elem_of_omap in Hin as (record & Hin & Hkill).
  apply list_elem_of_fmap in Hin as ([key record'] & -> & Hin).
  apply elem_of_map_to_list in Hin. cbn [snd] in Hkill.
  destruct (named_or_not key
              (globalAgentNum (runBatches unicodeLower fuel o rw).2))
    as [(k & Hk & ->)|Hother].
  - destruct (Hrec k Hk) as (record & E & _ & Hnone). congruence.
  - rewrite (Ho key Hother) in Hin.
    apply list_elem_of_omap. exists record'. split; [|exact Hkill].
    apply list_elem_of_fmap. exists (key, record'). split; [reflexivity|].
    now apply elem_of_map_to_list.
Qed.

End RunInvariants.

(** ** Test files *)

Section TestFiles.

Variable unicodeLower : jsstring -> jsstring.

Lemma startsWith_app (s p b : jsstring) :
  startsWith s p = true -> startsWith (s ++ b) p = true.
Proof.
  revert s. induction p as [|c p IH]; intros s;
    [intros _; now destruct (s ++ b)|].
  destruct s as [|d s]; [discriminate|]. cbn [startsWith app].
  intros Hs. apply andb_true_iff in Hs as [-> Hs]. now rewrite IH.
Qed.

Lemma includes_app_r (s sub b : jsstring) :
  includes s sub = true -> includes (s ++ b) sub = true.
Proof.
  induction s as [|c s IH]; cbn [includes app].
  - rewrite orb_false_r. intros Hs.
    pose proof (startsWith_app [] sub b Hs) as Hb. cbn [app] in Hb.
    destruct b; cbn [includes]; now rewrite Hb.
  - intros Hs. apply orb_true_iff in Hs as [Hs|Hs].
    + pose proof (startsWith_app (c :: s) sub b Hs) as Hb. cbn [app] in Hb.
      now rewrite Hb.
    + rewrite (IH Hs). apply orb_true_r.
Qed.

Lemma includes_app_l (a s sub : jsstring) :
  includes s sub = true -> includes (a ++ s) sub = true.
Proof.
  intros Hs. induction a as [|c a IH]; [exact Hs|].
  cbn [app includes]. rewrite IH. apply orb_true_r.
Qed.

Lemma toLowerCase_ascii (s : jsstring) :
  forallb is_ascii s = true -> toLowerCase unicodeLower s = map lower_unit s.
Proof. unfold toLowerCase. now intros ->. Qed.

(** X24.  On paths of ASCII characters [isTestFile] looks at the
    letters without their case, and at any part of the path: two
    paths that differ only in the case of letters are classified
    alike, and a path that contains a test-file path is a test-file
    path. *)
Theorem isTestFile_ascii :
  (forall p q : jsstring,
      forallb is_ascii p = true -> forallb is_ascii q = true ->
      map lower_unit p = map lower_unit q ->
      Base.isTestFile unicodeLower p = Base.isTestFile unicodeLower q)
  /\ (forall a p b : jsstring,
        forallb is_ascii (a ++ p ++ b) = true ->
        Base.isTestFile unicodeLower p = true ->
        Base.isTestFile unicodeLower (a ++ p ++ b) = true).
Proof.
  split.
  - intros p q Hp Hq E. unfold Base.isTestFile.
    now rewrite !toLowerCase_ascii, E by assumption.
  - intros a p b Hall. unfold Base.isTestFile.
    rewrite (toLowerCase_ascii _ Hall).
    rewrite !forallb_app in Hall.
    apply andb_true_iff in Hall as [_ Hall].
    apply andb_true_iff in Hall as [Hp _].
    rewrite (toLowerCase_ascii _ Hp), !map_app.
    intros Hin.
    repeat (apply orb_true_iff in Hin as [Hin|Hin]);
      repeat (apply orb_true_iff;
              first [ right; now apply includes_app_l, includes_app_r
                    | left ]);
      now apply includes_app_l, includes_app_r.
Qed.

End TestFiles.

(** ** Instances of the further properties *)

Lemma fullCommand_unambiguous_witness :
  lit "claude" = lit "claude" /\ [lit "-p"; lit "it's done"] = [lit "-p"; lit "it's done"].
Proof.
  apply fullCommand_unambiguous;
    [discriminate | discriminate | reflexivity | reflexivity | reflexivity].
Defined.

Lemma polling_lines_as_streaming_witness :
  concat (map Base.progress_lines [lit "a" ++ [10]; []; lit "b" ++ [10]])
  = Driver.readStream [lit "a" ++ [10]; []; lit "b" ++ [10]].
Proof.
  apply polling_lines_as_streaming.
  constructor; [right; exists (lit "a"); reflexivity|].
  constructor; [left; reflexivity|].
  constructor; [right; exists (lit "b"); reflexivity|].
  constructor.
Defined.

Lemma checkForErrors_joined_witness :
  truthy (Some (JStr (lit "boom"))) = true.
Proof.
  apply (proj2 checkForErrors_joined
           (quoted "{'type':'error','error':{'message':'boom'}}")).
  vm_compute. reflexivity.
Defined.

Lemma detectStepFromOutput_labels_witness :
  lit "Reading code"
  ∈ map lit ["Reading code"; "Committing"; "Staging"; "Linting";
             "Testing"; "Writing tests"; "Implementing"]%string
  /\ lit "Reading code" <> [].
Proof.
  apply (detectStepFromOutput_labels (fun s => s) (quoted "{'tool':'Read'}")).
  vm_compute. reflexivity.
Defined.

Lemma execTmuxCommand_unreadable_exit_file_witness :
  exists r, Base.execTmuxCommand (fun s => s) (lit "1") (lit "a")
              ([Example.round_waiting] ++ Samples.round_garbled :: []) = Some r
            /\ exitCode r = NaN.
Proof.
  apply (execTmuxCommand_unreadable_exit_file (fun s => s) (lit "1") (lit "a")
           [Example.round_waiting] Samples.round_garbled [] (lit "x") 120 []).
  - repeat constructor.
  - reflexivity.
  - reflexivity.
  - reflexivity.
  - discriminate.
  - discriminate.
Defined.

Lemma poll_blank_exit_file_witness :
  Base.poll 0 [] [Samples.round_blank; Samples.round_blank] = None.
Proof.
  apply poll_blank_exit_file.
  constructor; [exists (lit " "); repeat split; reflexivity|].
  constructor; [exists (lit " "); repeat split; reflexivity|].
  constructor.
Defined.

Lemma registry_records_complete_witness :
  Registry.complete_records
    (Registry.calls (lit "/repo") Samples.calls
       (Example.registry1, Example.world0)).1.
Proof.
  apply registry_records_complete.
  - repeat constructor.
  - intros agentId record E k Hk. cbn in E.
    apply lookup_singleton_Some in E as [_ <-].
    unfold Registry.created in Hk.
    repeat (apply elem_of_cons in Hk as [->|Hk]; [vm_compute; eauto|]).
    now apply elem_of_nil in Hk.
Defined.

Lemma registry_calls_frame_witness :
  State.agents
    (Registry.calls (lit "/repo") Samples.calls
       (Example.registry1, Example.world0)).1 !! lit "2"
  = State.agents Example.registry1 !! lit "2".
Proof.
  apply (proj1 (registry_calls_frame (lit "/repo") Samples.calls
                  Example.registry1 Example.world0
                  ltac:(repeat constructor))).
  repeat constructor.
Defined.

Lemma update_then_remove_witness :
  State.agents
    (State.removeAgentFromState (lit "1") (lit "/repo")
       (State.updateState (lit "1") {[ lit "step" := State.VString (lit "Testing") ]}
          (lit "/repo") (Example.registry1, Example.world0))).1
  = State.agents Example.registry1.
Proof.
  apply (proj1 (proj2 (update_then_remove (lit "1")
                         {[ lit "step" := State.VString (lit "Testing") ]}
                         (lit "/repo") Example.registry1 Example.world0 eq_refl))).
  reflexivity.
Defined.

Lemma agent_result_agreement_witness :
  is_Some
    (Parallel.result
       (Parallel.runAgentInWorktree (fun s => s) Example.options Example.good 1
          (lit "/tmp/worktrees") (Example.registry0, Example.world0)).1).
Proof.
  apply (proj1 (proj2 (agent_result_agreement (fun s => s) Example.options
                         Example.good 1 (lit "/tmp/worktrees")
                         (Example.registry0, Example.world0)))).
  vm_compute. reflexivity.
Defined.

Lemma agent_registry_frame_witness :
  State.agents
    (Parallel.runAgentInWorktree (fun s => s) Example.options Example.good 1
       (lit "/tmp/worktrees") (Example.registry0, Example.world0)).2.1 !! lit "7"
  = State.agents Example.registry0 !! lit "7".
Proof.
  apply (proj1 (agent_registry_frame (fun s => s) Example.options Example.good 1
                  (lit "/tmp/worktrees") (Example.registry0, Example.world0))).
  intros E. vm_compute in E. discriminate E.
Defined.

Lemma results_accounting_witness :
  Parallel.totalInputTokens
    (Parallel.totals
       (fold_left (Parallel.processResult Example.options)
          [Samples.doneResult; Example.failedResult]
          (Parallel.start (Example.registry1, Example.world0))))
  = (Parallel.totalInputTokens
       (Parallel.totals (Parallel.start (Example.registry1, Example.world0)))
     + Ledger.tokens Types.inputTokens [Samples.doneResult; Example.failedResult])%Z.
Proof.
  refine (proj1 (proj2 (proj2 (results_accounting Example.options
                                 [Samples.doneResult; Example.failedResult]
                                 (Parallel.start (Example.registry1, Example.world0)))))
            _).
  split; [reflexivity|]. split; [|vm_compute; discriminate].
  repeat constructor. vm_compute. discriminate.
Defined.

(** Beyond 2^53 a sum of Numbers is not the sum of the integers. *)
Example token_sum_rounded :
  Number.add 9007199254740992 1 = 9007199254740992%Z
  /\ Number.add 9007199254740992 3 = 9007199254740996%Z
  /\ Number.add 9007199254740993 9007199254740993 = 18014398509481984%Z
  /\ Number.add (-9007199254740992) (-1) = (-9007199254740992)%Z.
Proof. now vm_compute. Qed.

Lemma agent_names_distinct_witness :
  Parallel.toString 1 <> Parallel.toString 2.
Proof.
  apply (agent_names_distinct (fun s => s) 1 2). discriminate.
Defined.

Lemma run_accounting_witness :
  Example.totals = Parallel.totals Example.final
  /\ Ledger.ledger 0 Example.final.
Proof.
  apply (proj2 (run_accounting (fun s => s) 5 Example.options
                  (Example.registry0, Example.world0))).
  exact example_run_ends.
Defined.

Lemma batch_sizes_witness :
  Forall (fun batch => batch <> []
                       /\ (Z.of_nat (length batch) <= 3)%Z)
    (Ledger.batches
       (Parallel.trace
          (Parallel.runBatches (fun s => s) 5 Example.options
             (Example.registry0, Example.world0)).2)).
Proof.
  apply (batch_sizes (fun s => s) 5 Example.options
           (Example.registry0, Example.world0)).
  reflexivity.
Defined.

Lemma batches_reported_witness :
  let s := (Parallel.runBatches (fun s => s) 5 Example.options
              (Example.registry0, Example.world0)).2 in
  Ledger.launched (Parallel.trace s) = N.to_nat (Parallel.globalAgentNum s)
  /\ Ledger.launched (Parallel.trace s)
     = (Ledger.count Ledger.is_completed (Parallel.trace s)
        + Ledger.count Ledger.is_failed (Parallel.trace s))%nat.
Proof.
  apply (batches_reported (fun s => s) 5 Example.options
           (Example.registry0, Example.world0)).
  reflexivity.
Defined.


Lemma registry_after_batches_witness :
  exists record,
    State.agents
      (Parallel.registry
         (Parallel.runBatches (fun s => s) 1 Example.options
            (Example.registry0, Example.world0)).2) !! Parallel.toString 1
    = Some record
    /\ (record !! lit "status" = Some (Parallel.VStr "completed")
        \/ record !! lit "status" = Some (Parallel.VStr "failed"))
    /\ Registry.killed record = None.
Proof.
  apply (proj1 (registry_after_batches (fun s => s) 1 Example.options
                  (Example.registry0, Example.world0)) 1).
  split; [reflexivity | vm_compute; discriminate].
Defined.

Lemma isTestFile_ascii_witness :
  Base.isTestFile (fun s => s) (lit "src/Parser.TEST.ts")
  = Base.isTestFile (fun s => s) (lit "src/parser.test.ts").
Proof.
  apply (proj1 (isTestFile_ascii (fun s => s))); reflexivity.
Defined.
